(* ===== verification/_CoqProject ===== *)
-Q . S2P
Prelude.v
JsNumber.v
NumberRoundtrip.v
JsValue.v
Json.v
JsonParse.v
FormUrlencoded.v
Session.v
Effects.v
Api.v
Bodies.v
Scheduler.v
Interleaving.v
