(* ===== verification/Prelude.v ===== *)
(** * A verified model of the storefront client [src/src/lib/api.js]

    This development models, in Rocq, the client-side access layer of the
    storefront front end: the single module [src/src/lib/api.js], which
    builds authenticated HTTP requests to the backend, encodes search
    filters as a query string, uploads product images through a
    pre-signed URL, and logs users in.

    ** The program and its parts

    [api.js] exports eight asynchronous operations ([createProduct],
    [createOrder], [getOrders], [getTopProducts], [searchProducts],
    [deleteProduct], [register], [login]) and one internal helper
    ([uploadImage]).  They interact with four collaborators, none of which
    is under [src/]:
    - the session module [./auth] ([auth.getCurrentToken], [auth.logIn]),
      read before every authorised request and written by [login];
    - the browser's [fetch], [Response.ok], [Response.json], [URL],
      [URLSearchParams], [JSON.stringify] and [JSON.parse];
    - the JavaScript language itself: truthiness ([!!x]), [Number(x)],
      [x * 100], string conversion in templates and [+], object spread;
    - the clock ([new Date().getTime()]), the identifier generator
      ([ulid()]) and [console.log].

    ** Files, in dependency order

    - [Prelude] (this file): the [js_scope] notation scope, the tactics
      [inv], [zbool] and [case_if], the [js] hint database, character
      helpers, lemmas on strings and lists of characters, [set_nth] (a
      list updated at an index) and [star] (the reflexive transitive
      closure of a step relation).
    - [JsNumber] (Module [JsNumber]): Number values as [jsnum]: a finite
      double that is an integer as [NFin z], one that is not as
      [NFrac m e] ([m * 2^e] in lowest terms), NaN and the infinities;
      [round_double] and [round_rat], the round-to-nearest-even
      conversion of an integer and of a ratio to a double (53-bit
      significand, subnormals, overflow to an infinity from 2^1024 on);
      [num_mul] for [Number(minRange) * 100] (api.js line 80);
      [string_to_number] for [Number(s)] (StringToNumber of ECMA-262: white
      space trimming, integer literals in four radixes, decimal literals
      with fraction and exponent, Infinity, and NaN for text that is no
      numeric literal); [number_to_string], the shortest round-trip digits
      of [Number::toString] in positional or exponent layout (line 83).
    - [NumberRoundtrip] (Module [NumberRoundtrip]): the proof that
      [string_to_number] reads back every finite double that
      [number_to_string] prints: seventeen significant digits always
      suffice, rounding depends on the ratio only, and each of the four
      printed layouts reads as the digits times the power of ten it
      denotes; also that every printed double has the shape of the JSON
      number grammar, which [JsonParse] uses.
    - [JsValue] (Module [JsValue]): JavaScript values [jsval]; [to_boolean]
      ([!!x], lines 78-81), [to_string] (string concatenation, line 17,
      95), [to_number]; objects as property lists in creation order,
      [ordered_props] for the [[OwnPropertyKeys]] order (array indices
      first), [spread_into] for object spread (lines 9, 29-32, 78-81),
      [obj_set] for a property assignment, [get_prop] for [v.k] and
      destructuring (lines 134, 155), which throws on [undefined]/[null].
    - [Json] (Module [Json]): [json_stringify] after SerializeJSONProperty
      (lines 19, 39, 114, 129), with [undefined] members dropped.
    - [JsonParse] (Module [JsonParse]): [json_parse], the [JSON.parse]
      that [await response.json()] runs on a body text (lines 60, 72, 89,
      132, 155) and the backend runs on the request bodies: a
      recursive-descent parser with fuel over the characters of the text
      ([parse_value] dispatching on the first character, [parse_elements]
      and [parse_members] for arrays and objects, [parse_chars] for
      strings and their escapes, [scan_number] for the number grammar,
      read with [Number()]), objects built with [obj_set].
    - [FormUrlencoded] (Module [FormUrlencoded]): UTF-8, the
      application/x-www-form-urlencoded serializer of [URLSearchParams]
      ([urlencoded_serialize], lines 66, 83, 152), its parser
      ([urlencoded_parse]) and the [URL.search] setter ([url_with_search]).
    - [Session] (Module [Session]): the interface of [./auth] as the type
      class [Session] ([get_current_token], [log_in]) with its contract
      [SessionLaws], and the reference state [memory_session].  [./auth]
      is not under [src/]: this file is modelled from the spec.
    - [Effects] (Module [Effects]): requests and responses (a response
      has a status and a body text, [rs_json] is [json_parse] of it), the program
      monad [Api] (an inductive tree of calls: [GetToken], [LogIn],
      [Fetch], [Now], [Ulid], [Log], [Await] for an [await] that suspends
      without a request of its own, with [Ret] and [Throw]), [bind] for
      sequencing, [catch] for [try ... catch], [await_call] for the [await]
      of an [async] call (line 8), and the interpreter [run]
      which answers the calls from an environment [env] of oracles
      (network, clock, ulid), threads the session and records the trace.
    - [Api] (Module [Api]): the nine functions of api.js, each composed
      from the calls of [Effects] in the order of the source, with the
      request it sends as a separate definition.
    - [Bodies] (Module [Bodies]): the JSON boundary, composing [Api] with
      [JsonParse]: a request body as the backend reads it, and the value a
      reading operation resolves to.
    - [Scheduler] (Module [Scheduler]): the event loop running several
      operations at once.  A task is [Ready], [Waiting] on the request it
      sent, or [Settled]; [segment] runs the synchronous part of a task up
      to its next [await]; [exec] performs one turn ([Run i] or
      [Resolve i o], the network answering in any order and any way);
      [exec_sched] runs a schedule and [cstep] is the step relation.
    - [Interleaving] (Module [Interleaving]): [fresh_auth], the property
      of a program that builds every [Authorization] header from a token
      read in the same synchronous part, and [sends_fresh], the property
      of a trace that every request carries the token the session held
      when it was sent.

    ** What the theorems show

    The claims are numbered by importance (C1 most important).
    - Token propagation ([Api] C1, C4, C5, C20, C23): every authorised
      operation reads the token once, immediately before its request (for
      [createProduct]: after the upload), and sends exactly one
      [Authorization: Bearer <token>] header; the operations that need no
      session send none; two calls separated by a login each use the token
      of their own call; a logged-out session sends [Bearer null].
    - Interleavings ([Interleaving] C2, C3): every operation of api.js
      builds its header from a token read in the synchronous part that
      sends the request ([fresh_auth]); hence in every interleaving of such
      operations each request carries the token the session holds when it
      is sent, so a [createProduct] started under one user posts under
      the token of a [login] that completes during its upload (the
      witness of C2 runs that race).
    - Requests and payloads ([Api] C6, C8, C21): [createOrder]'s payload
      is [values] with [timestamp] set to the clock reading; each
      operation uses the method and URL of the endpoint table of the spec;
      every request is well formed (method, body, content type).
    - Query encoder ([Api] C7, C9-C11, [FormUrlencoded] C12, [JsNumber]
      C24, [NumberRoundtrip] C25): a filter key is present iff its input
      is truthy; a price reaches the backend as a text that [Number()]
      reads as exactly the double [Number(x) * 100] the client computed
      (the example of the spec is its witness); integer prices are sent
      as exact cents below 2^53; the backend parses the query strings of
      the requests back to the filters and the file name sent;
      [URLSearchParams] round-trips; an integer is unchanged by the
      conversion to a Number iff it is in the binary64 format (defined
      by its bits, independently of the rounding); printing and reading
      any finite double round-trips.
    - JSON bodies ([JsonParse] C26, C29, [Bodies] C27, C28, C30): [JSON.parse]
      reads back what [JSON.stringify] prints for every value without
      [undefined] or blobs whose numbers are finite doubles (integral or
      not) and whose objects have distinct non-index keys; an object text
      with repeated keys parses to the object built by setting its
      members in order (first position, last value); the backend reads
      the body of [createOrder] as the form values without their
      [undefined] members and with the clock's [timestamp], and the
      bodies of [createProduct], [register] and [login] as the payloads
      they built; the reading
      operations resolve to [JSON.parse] of the body of a 2xx answer and
      reject with a SyntaxError when it is not JSON.
    - Upload and errors ([Api] C13-C19, C22): the public URL names the
      file of the pre-signed request; a rejected PUT makes [uploadImage]
      resolve to [undefined] and [createProduct] post without [imageUrl];
      against a server answering non-2xx with a JSON object every
      operation rejects with its own message ([getOrders] with the message
      of [createOrder]), and with the [TypeError] of [fetch] when the
      network fails; [login] writes the session before its status check,
      rejects with a SyntaxError without writing the session when the
      body is not JSON, and a failed login without a token makes later
      calls send [Bearer undefined].

    ** Bounds and fuel

    The recursions on numbers of [JsNumber] take fuel.  [digits_rev]
    takes [dec_fuel n = Z.log2 n + 1]: [n] has at most as many decimal
    digits as binary ones, and [dec_fuel_enough] proves [n < 10^dec_fuel n].
    [shortest_loop] tries one precision per decimal digit of the double
    ([ndigits m] steps); at the last precision the candidate is [m]
    itself, and [shortest_loop_fits] proves that whatever the fuel, the
    result rounds back to [m].  [strip_zeros] likewise takes one step per
    digit.  [shortest_ratio_loop], the digit search for a double that is
    not an integer, tries at most 17 precisions: seventeen significant
    digits identify every binary64 double, and
    [NumberRoundtrip.fits_at_17] proves that one of the two candidates
    at seventeen digits rounds back to the double, so the search always
    succeeds ([shortest_ratio_fits]).  [parse_value] takes fuel; [json_parse] gives it
    the length of the text plus one.  Each nested value and each
    element or member consumes at least one character, and
    [JsonParse.json_parse_stringify] proves that this fuel is enough
    for every printed value it covers.  The program monad needs no
    fuel: [run] is structural on the finite program tree, so every
    operation terminates in every environment.  The event loop is a step
    relation ([cstep]) and a schedule interpreter ([exec_sched]) that
    runs a given list of turns; the theorems on interleavings hold for
    every reachable configuration.

    ** Not modelled

    - Microtask order: the event loop may resume any task whose promise
      has settled, in any order; JavaScript's queue resumes them in the
      order they settled.  The model has every interleaving the browser
      has and possibly more, which is sound for the safety theorems.
    - Strings hold code units up to U+00FF (the [ascii] type), as in
      every part of the model: a [\u] escape above U+00FF in a body, and
      the UTF-16 surrogate handling of [JSON.stringify], are outside it.
    - [ToPrimitive] on objects with their own [toString] or [valueOf]: the
      plain objects of the program print as [[object Object]].
    - The [ulid] library, the network and the clock are oracles; the UI
      layer and the backend are outside [src/src/lib/api.js]: a response
      is whatever status and body text the environment answers.
*)

From Stdlib Require Import String Ascii List ZArith Lia Bool.
Import ListNotations.

Declare Scope js_scope.
Delimit Scope js_scope with js.

(** ** Tactics shared by the components *)

Ltac inv H := inversion H; subst; clear H.

(** Turn the boolean comparisons of [Z] in hypotheses and goal into
    propositions, so that [lia] can use them. *)
Ltac zbool :=
  repeat match goal with
  | H : (_ =? _)%Z = true |- _ => apply Z.eqb_eq in H
  | H : (_ =? _)%Z = false |- _ => apply Z.eqb_neq in H
  | H : (_ <=? _)%Z = true |- _ => apply Z.leb_le in H
  | H : (_ <=? _)%Z = false |- _ => apply Z.leb_gt in H
  | H : (_ <? _)%Z = true |- _ => apply Z.ltb_lt in H
  | H : (_ <? _)%Z = false |- _ => apply Z.ltb_ge in H
  end.

(** Case on the first boolean test of the goal, keeping its equation. *)
Ltac case_if :=
  match goal with
  | |- context [if ?b then _ else _] =>
      let E := fresh "E" in destruct b eqn:E
  end.

Create HintDb js.
Create Rewrite HintDb js.

(** ** Characters *)

Definition code (c : ascii) : Z := Z.of_nat (nat_of_ascii c).

Definition chr (n : Z) : ascii := ascii_of_nat (Z.to_nat n).

Definition is_dec_digit (c : ascii) : bool :=
  (48 <=? code c)%Z && (code c <=? 57)%Z.

Definition digit_value (c : ascii) : Z := (code c - 48)%Z.

Definition digit_char (d : Z) : ascii := chr (48 + d).

Lemma code_bound c : (0 <= code c < 256)%Z.
Proof.
  unfold code. pose proof (nat_ascii_bounded c). lia.
Qed.

Lemma chr_code c : chr (code c) = c.
Proof.
  unfold chr, code. rewrite Nat2Z.id. apply ascii_nat_embedding.
Qed.

Lemma code_chr n : (0 <= n < 256)%Z -> code (chr n) = n.
Proof.
  intros H. unfold chr, code. rewrite nat_ascii_embedding by lia. lia.
Qed.

Lemma digit_char_is_digit d : (0 <= d < 10)%Z -> is_dec_digit (digit_char d) = true.
Proof.
  intros H. unfold is_dec_digit, digit_char. rewrite code_chr by lia.
  apply andb_true_intro; split; apply Z.leb_le; lia.
Qed.

Lemma digit_value_char d : (0 <= d < 10)%Z -> digit_value (digit_char d) = d.
Proof.
  intros H. unfold digit_value, digit_char. rewrite code_chr by lia. lia.
Qed.

#[export] Hint Rewrite chr_code digit_value_char : js.
#[export] Hint Resolve digit_char_is_digit : js.

(** ** Strings as lists of characters *)

Abbreviation chars := list_ascii_of_string.
Abbreviation of_chars := string_of_list_ascii.

Lemma chars_app (s t : string) : chars (s ++ t) = chars s ++ chars t.
Proof.
  induction s as [|c s IH]; simpl; [reflexivity | now rewrite IH].
Qed.

Lemma of_chars_app (l m : list ascii) : of_chars (l ++ m) = (of_chars l ++ of_chars m)%string.
Proof.
  induction l as [|c l IH]; simpl; [reflexivity | now rewrite IH].
Qed.

Lemma string_app_assoc (s t u : string) : ((s ++ t) ++ u)%string = (s ++ (t ++ u))%string.
Proof.
  induction s as [|c s IH]; simpl; [reflexivity | now rewrite IH].
Qed.

Lemma string_app_nil_r (s : string) : (s ++ EmptyString)%string = s.
Proof.
  induction s as [|c s IH]; simpl; [reflexivity | now rewrite IH].
Qed.

#[export] Hint Rewrite chars_app of_chars_app list_ascii_of_string_of_list_ascii
  string_of_list_ascii_of_string string_app_assoc string_app_nil_r : js.

(** [span p l] splits [l] into its longest prefix satisfying [p] and the
    rest. *)
Fixpoint span {A} (p : A -> bool) (l : list A) : list A * list A :=
  match l with
  | [] => ([], [])
  | x :: r => if p x then let (a, b) := span p r in (x :: a, b) else ([], l)
  end.

Lemma span_all {A} (p : A -> bool) l m :
  forallb p l = true -> (match m with [] => True | y :: _ => p y = false end) ->
  span p (l ++ m) = (l, m).
Proof.
  induction l as [|x r IH]; simpl; intros Hl Hm.
  - destruct m as [|y m]; simpl; [reflexivity | now rewrite Hm].
  - apply andb_prop in Hl as [Hx Hr]. rewrite Hx, IH by assumption. reflexivity.
Qed.

(** ** Filtering *)

Lemma forallb_filter {A} (p f : A -> bool) l :
  forallb p l = true -> forallb p (filter f l) = true.
Proof.
  induction l as [|x l IH]; simpl; [reflexivity|]. intros H. apply andb_prop in H as [Hx Hl].
  destruct (f x); simpl; rewrite ?Hx, IH; auto.
Qed.

Lemma NoDup_map_filter {A B} (g : A -> B) (f : A -> bool) l :
  NoDup (map g l) -> NoDup (map g (filter f l)).
Proof.
  induction l as [|x l IH]; simpl; [constructor|]. intros H. inversion H as [|? ? Hn Hd]; subst.
  destruct (f x); simpl; [constructor|]; auto.
  intros Hin. apply Hn. apply in_map_iff in Hin as (y & <- & Hy).
  apply filter_In in Hy as [Hy _]. now apply in_map.
Qed.

(** ** Lists updated by index *)

(** [l[i] = x]: out of range the list is left as it is, as a pool of
    tasks is never indexed out of range. *)
Fixpoint set_nth {A} (i : nat) (x : A) (l : list A) : list A :=
  match l, i with
  | [], _ => []
  | _ :: r, O => x :: r
  | y :: r, S j => y :: set_nth j x r
  end.

(** The ways a list ending in [y] contains an element [x]. *)
Lemma snoc_split {A} (pre post l : list A) x y :
  pre ++ x :: post = l ++ [y] ->
  (pre = l /\ x = y /\ post = []) \/
  (exists post', post = post' ++ [y] /\ l = pre ++ x :: post').
Proof.
  intros E. destruct post as [|p post _] using rev_ind.
  - apply app_inj_tail in E as [-> ->]. now left.
  - rewrite app_comm_cons, app_assoc in E. apply app_inj_tail in E as [<- ->].
    right. now exists post.
Qed.

(** ** Sequences of transitions *)

Section Sequences.
Context {A : Type} (R : A -> A -> Prop).

(** Zero, one or several transitions. *)
Inductive star : A -> A -> Prop :=
| star_refl a : star a a
| star_step a b c : R a b -> star b c -> star a c.

Lemma star_one a b : R a b -> star a b.
Proof. eauto using star. Qed.

End Sequences.

#[export] Hint Resolve star_refl star_one : js.

(** ** Lists updated at an index *)

Lemma Forall_set_nth {A} (P : A -> Prop) i x l : Forall P l -> P x -> Forall P (set_nth i x l).
Proof.
  intros Hl Hx. revert i. induction Hl as [|y l Hy Hl IH]; intros [|i]; simpl; auto.
Qed.

Lemma Forall_nth_some {A} (P : A -> Prop) l i x : Forall P l -> nth_error l i = Some x -> P x.
Proof.
  intros Hl Hn. apply nth_error_In in Hn. rewrite Forall_forall in Hl. auto.
Qed.
