(* ===== verification/JsNumber.v ===== *)
(** * JavaScript numbers as the query encoder produces them

    [searchProducts] (api.js lines 80-81) computes [Number(minRange) * 100]
    and [URLSearchParams] (line 83) prints the product with
    [Number::toString].  This file models the Number values: IEEE-754
    binary64 doubles, NaN and the two infinities.  A finite value that is
    an integer is kept as the integer [z] it denotes ([NFin z]); one that is
    not is kept in lowest terms as [m * 2^e] ([NFrac m e], [e < 0], [m]
    odd).  The signed zero is not kept apart from zero, since
    [ToString(-0)] is ["0"] and the program never observes the sign of a
    zero.

    - [round_mag] / [round_double]: the double nearest to an integer, ties
      to even, with overflow to an infinity (ECMA-262 6.1.6.1, "the Number
      value for x"), by shifting out the bits past the 53rd.
    - [round_rat]: the double nearest to a ratio [p / q], ties to even,
      with subnormals below 2^-1022 and overflow to an infinity; it agrees
      with [round_double] on integers ([round_rat_one]).
    - [num_mul]: [Number::multiply], the exact product rounded.
    - [string_to_number]: [StringToNumber]: integer literals ([+-]digits,
      hexadecimal, octal and binary), decimal literals with a fraction or
      an exponent (correctly rounded, as engines do), [Infinity], blank
      strings, and NaN for a string that is no numeric literal.
    - [number_to_string]: [Number::toString(x, 10)] with the shortest
      round-trip digit string, ties broken to the closest and then to the
      even candidate (ECMA-262 6.1.6.1.20 and its Note 2), in positional
      notation from 10^-7 to below 10^21 and in exponent notation outside;
      [NumberRoundtrip] proves that [string_to_number] reads it back.
*)

From Stdlib Require Import String Ascii List ZArith Lia Bool.
From S2P Require Import Prelude.
Import ListNotations.

Module JsNumber.

Local Open Scope Z_scope.

(** A finite double that is an integer is [NFin z]; one that is not is
    [NFrac m e], the value [m * 2^e] in lowest terms ([e < 0], [m] odd). *)
Inductive jsnum : Type :=
| NFin (z : Z)
| NFrac (m e : Z)
| NNaN
| NPosInf
| NNegInf.

Definition jsnum_eqb (x y : jsnum) : bool :=
  match x, y with
  | NFin a, NFin b => a =? b
  | NFrac m e, NFrac m' e' => (m =? m') && (e =? e')
  | NNaN, NNaN | NPosInf, NPosInf | NNegInf, NNegInf => true
  | _, _ => false
  end.

(** ** Rounding an integer to a double *)

(** The magnitude of the double nearest to [a >= 0], before the overflow
    check: keep the 53 leading bits, round the rest to nearest, ties to
    an even mantissa. *)
Definition round_mag (a : Z) : Z :=
  let s := Z.log2 a - 52 in
  if s <=? 0 then a
  else
    let q := Z.shiftr a s in
    let r := a - Z.shiftl q s in
    let half := Z.shiftl 1 (s - 1) in
    let q' := if r <? half then q
              else if half <? r then q + 1
              else if Z.even q then q else q + 1 in
    Z.shiftl q' s.

Definition double_limit : Z := 2 ^ 1024.

Definition round_double (z : Z) : jsnum :=
  let m := round_mag (Z.abs z) in
  if double_limit <=? m then (if z <? 0 then NNegInf else NPosInf)
  else NFin (Z.sgn z * m).

(** [z] is a finite double (binary64 format): its magnitude is below
    2^1024 and fits in 53 significant bits, that is, it has at most 53
    binary digits or is a multiple of 2^(log2 |z| - 52). *)
Definition is_double (z : Z) : bool :=
  let a := Z.abs z in
  (a <? double_limit) && ((Z.log2 a <=? 52) || (a mod 2 ^ (Z.log2 a - 52) =? 0)).

(** ** Rounding a ratio to a double *)

(** [floor (log2 (a / b))] for [a, b > 0]. *)
Definition ratio_log2 (a b : Z) : Z :=
  let t := Z.log2 a - Z.log2 b in
  if (if 0 <=? t then a <? b * 2 ^ t else a * 2 ^ (- t) <? b) then t - 1 else t.

(** [a / b] rounded to the nearest integer, ties to even, for [b > 0]. *)
Definition div_round_even (a b : Z) : Z :=
  let q := a / b in
  let r := a mod b in
  if 2 * r <? b then q
  else if b <? 2 * r then q + 1
  else if Z.even q then q else q + 1.

(** The double nearest to [a / b] ([a, b > 0]) as [(m, e)], the value
    [m * 2^e]: 53 significant bits, fewer below 2^-1022 (subnormals),
    before the overflow check. *)
Definition round_ratio (a b : Z) : Z * Z :=
  let e := Z.max (ratio_log2 a b - 52) (-1074) in
  ((if 0 <=? e then div_round_even a (b * 2 ^ e) else div_round_even (a * 2 ^ (- e)) b), e).

(** [m * 2^e] in lowest terms. *)
Definition dyadic (m e : Z) : jsnum :=
  if 0 <=? e then NFin (m * 2 ^ e)
  else
    let g := Z.gcd m (2 ^ (- e)) in
    let e' := e + Z.log2 g in
    if e' =? 0 then NFin (m / g) else NFrac (m / g) e'.

(** The Number value for the ratio [p / q] ([q > 0]). *)
Definition round_rat (p q : Z) : jsnum :=
  if p =? 0 then NFin 0
  else
    let '(m, e) := round_ratio (Z.abs p) q in
    if (0 <=? e) && (double_limit <=? m * 2 ^ e) then (if p <? 0 then NNegInf else NPosInf)
    else dyadic (Z.sgn p * m) e.

(** ** Multiplication *)

(** The sign of a non-zero finite value times an infinity. *)
Definition inf_times (neg_finite : bool) (y_pos : bool) : jsnum :=
  if Bool.eqb neg_finite y_pos then NNegInf else NPosInf.

Definition num_mul (x y : jsnum) : jsnum :=
  match x, y with
  | NNaN, _ | _, NNaN => NNaN
  | NFin a, NFin b => round_double (a * b)
  | NFin a, NFrac m e | NFrac m e, NFin a => round_rat (a * m) (2 ^ (- e))
  | NFrac m e, NFrac m' e' => round_rat (m * m') (2 ^ (- e - e'))
  | NFin a, NPosInf | NPosInf, NFin a =>
      if a =? 0 then NNaN else inf_times (a <? 0) true
  | NFin a, NNegInf | NNegInf, NFin a =>
      if a =? 0 then NNaN else inf_times (a <? 0) false
  | NFrac m _, NPosInf | NPosInf, NFrac m _ => inf_times (m <? 0) true
  | NFrac m _, NNegInf | NNegInf, NFrac m _ => inf_times (m <? 0) false
  | NPosInf, NPosInf | NNegInf, NNegInf => NPosInf
  | NPosInf, NNegInf | NNegInf, NPosInf => NNegInf
  end.

(** ** Decimal digits of a natural number *)

(** Least significant digit first. *)
Fixpoint digits_rev (fuel : nat) (n : Z) : list ascii :=
  match fuel with
  | O => []
  | S f => digit_char (n mod 10) :: (if n <? 10 then [] else digits_rev f (n / 10))
  end.

Definition dec_fuel (n : Z) : nat := S (Z.to_nat (Z.log2 n)).

Definition dec_chars (n : Z) : list ascii := rev (digits_rev (dec_fuel n) n).

Definition dec_string (n : Z) : string := of_chars (dec_chars n).

(** The plain decimal notation of an integer, with a minus sign when it
    is negative. *)
Definition int_string (z : Z) : string :=
  if z <? 0 then ("-" ++ dec_string (- z))%string else dec_string z.

Definition ndigits (n : Z) : Z := Z.of_nat (length (dec_chars n)).

(** ** Number::toString *)

(** [c * 10^e] rounds to the double [m]. *)
Definition fits (m c e : Z) : bool := round_mag (c * 10 ^ e) =? m.

(** Search for the fewest significant digits [k] such that some [k]-digit
    [s] with [s * 10^(d-k)] rounding to [m] exists; the candidates at a
    given [k] are the two neighbours of [m] at that precision. *)
Fixpoint shortest_loop (fuel : nat) (m d k : Z) : Z * Z :=
  match fuel with
  | O => (m, 0)
  | S f =>
      let e := d - k in
      let lo := m / 10 ^ e in
      let hi := lo + 1 in
      match fits m lo e, fits m hi e with
      | true, true =>
          let dlo := m - lo * 10 ^ e in
          let dhi := hi * 10 ^ e - m in
          if dlo <? dhi then (lo, e)
          else if dhi <? dlo then (hi, e)
          else if Z.even lo then (lo, e) else (hi, e)
      | true, false => (lo, e)
      | false, true => (hi, e)
      | false, false => shortest_loop f m d (k + 1)
      end
  end.

Definition shortest (m : Z) : Z * Z :=
  let d := ndigits m in shortest_loop (Z.to_nat d) m d 1.

(** Remove the trailing zeros of [s * 10^e]. *)
Fixpoint strip_zeros (fuel : nat) (s e : Z) : Z * Z :=
  match fuel with
  | O => (s, e)
  | S f => if (s mod 10 =? 0) && (0 <? s) then strip_zeros f (s / 10) (e + 1) else (s, e)
  end.

Definition exponent_form (s e : Z) : string :=
  let '(s', e') := strip_zeros (dec_fuel s) s e in
  let ds := dec_chars s' in
  let n := Z.of_nat (length ds) + e' in
  let mant := match ds with
              | [c] => [c]
              | c :: rest => c :: "."%char :: rest
              | [] => []
              end in
  (of_chars mant ++ "e+" ++ dec_string (n - 1))%string.

(** A positive finite double: positional notation below 10^21, exponent
    notation from there on. *)
Definition pos_to_string (m : Z) : string :=
  let '(s, e) := shortest m in
  let v := s * 10 ^ e in
  if v <? 10 ^ 21 then dec_string v else exponent_form s e.

(** ** Number::toString of a value that is not an integer *)

(** [s * 10^j] as a ratio. *)
Definition pow10_ratio (s j : Z) : Z * Z :=
  if 0 <=? j then (s * 10 ^ j, 1) else (s, 10 ^ (- j)).

(** [s * 10^j] rounds to the double [x]. *)
Definition fits_ratio (x : jsnum) (s j : Z) : bool :=
  let '(p, q) := pow10_ratio s j in jsnum_eqb (round_rat p q) x.

(** [floor (a / (b * 10^j))]. *)
Definition scaled_floor (a b j : Z) : Z :=
  if 0 <=? j then a / (b * 10 ^ j) else (a * 10 ^ (- j)) / b.

(** The exponent [n] with [10^(n-1) <= a / b < 10^n], for [a, b > 0]. *)
Definition dec_exponent (a b : Z) : Z :=
  let t := ndigits a - ndigits b in
  if (if 0 <=? t then a <? b * 10 ^ t else a * 10 ^ (- t) <? b) then t else t + 1.

(** The fewest significant digits [k] for which a [k]-digit [s] with
    [s * 10^(n-k)] rounding to [x = a / b] exists, as [(s, n - k)]; the
    candidates at [k] are the two neighbours of [a / b], and of two that
    fit the closer one is taken, then the even one. *)
Fixpoint shortest_ratio_loop (fuel : nat) (x : jsnum) (a b n k : Z) : Z * Z :=
  match fuel with
  | O => (scaled_floor a b (n - k), n - k)
  | S f =>
      let j := n - k in
      let lo := scaled_floor a b j in
      let hi := lo + 1 in
      match fits_ratio x lo j, fits_ratio x hi j with
      | true, true =>
          let '(p, q) := pow10_ratio 1 j in
          let dlo := a * q - lo * p * b in
          let dhi := hi * p * b - a * q in
          if dlo <? dhi then (lo, j)
          else if dhi <? dlo then (hi, j)
          else if Z.even lo then (lo, j) else (hi, j)
      | true, false => (lo, j)
      | false, true => (hi, j)
      | false, false => shortest_ratio_loop f x a b n (k + 1)
      end
  end.

(** Seventeen significant digits identify every double. *)
Definition shortest_ratio (x : jsnum) (a b : Z) : Z * Z :=
  shortest_ratio_loop 17 x a b (dec_exponent a b) 1.

Definition zeros (n : Z) : list ascii := repeat "0"%char (Z.to_nat n).

(** The digits [s] (no trailing zero) times [10^j], laid out as
    Number::toString does for the exponent [n = k + j] of the value:
    positional notation for [-6 < n <= 21], exponent notation otherwise. *)
Definition digits_to_string (s j : Z) : string :=
  let ds := dec_chars s in
  let k := Z.of_nat (length ds) in
  let n := k + j in
  if (k <=? n) && (n <=? 21) then of_chars (ds ++ zeros (n - k))
  else if (0 <? n) && (n <=? 21) then
    of_chars (firstn (Z.to_nat n) ds ++ "."%char :: skipn (Z.to_nat n) ds)
  else if (-6 <? n) && (n <=? 0) then of_chars ("0"%char :: "."%char :: zeros (- n) ++ ds)
  else
    let mant := match ds with
                | [c] => [c]
                | c :: rest => c :: "."%char :: rest
                | [] => []
                end in
    let x := n - 1 in
    let sign := if x <? 0 then "-"%string else "+"%string in
    (of_chars mant ++ "e" ++ sign ++ dec_string (Z.abs x))%string.

(** A positive double [m * 2^e] that is not an integer. *)
Definition frac_to_string (m e : Z) : string :=
  let '(s, j) := shortest_ratio (NFrac m e) m (2 ^ (- e)) in
  let '(s', j') := strip_zeros (dec_fuel s) s j in
  digits_to_string s' j'.

Definition number_to_string (x : jsnum) : string :=
  match x with
  | NNaN => "NaN"
  | NPosInf => "Infinity"
  | NNegInf => "-Infinity"
  | NFin z =>
      if z =? 0 then "0"
      else if z <? 0 then ("-" ++ pos_to_string (- z))%string
      else pos_to_string z
  | NFrac m e =>
      if m <? 0 then ("-" ++ frac_to_string (- m) e)%string else frac_to_string m e
  end.

(** ** StringToNumber *)

(** StrWhiteSpaceChar and LineTerminator among the code units below 256. *)
Definition is_js_space (c : ascii) : bool :=
  match nat_of_ascii c with
  | 9 | 10 | 11 | 12 | 13 | 32 | 160 => true
  | _ => false
  end%nat.

Definition trim_start (l : list ascii) : list ascii := snd (span is_js_space l).

Definition trim (l : list ascii) : list ascii := rev (trim_start (rev (trim_start l))).

(** The value of a digit in radix [radix] (2, 8, 10 or 16). *)
Definition radix_digit (radix : Z) (c : ascii) : option Z :=
  let n := code c in
  let v := if (48 <=? n) && (n <=? 57) then n - 48
           else if (97 <=? n) && (n <=? 102) then n - 87
           else if (65 <=? n) && (n <=? 70) then n - 55
           else 99 in
  if v <? radix then Some v else None.

Fixpoint radix_value_acc (radix acc : Z) (l : list ascii) : option Z :=
  match l with
  | [] => Some acc
  | c :: r =>
      match radix_digit radix c with
      | Some d => radix_value_acc radix (acc * radix + d) r
      | None => None
      end
  end.

(** The value of a non-empty digit string. *)
Definition radix_value (radix : Z) (l : list ascii) : option Z :=
  match l with [] => None | _ => radix_value_acc radix 0 l end.

Definition is_exp_mark (c : ascii) : bool := (c =? "e")%char || (c =? "E")%char.

(** An optional ExponentPart ([e] or [E], an optional sign, digits): its
    value, [0] when absent, [None] when [l] is not one. *)
Definition exponent_value (l : list ascii) : option Z :=
  match l with
  | [] => Some 0
  | c :: r =>
      if is_exp_mark c then
        match r with
        | "+"%char :: r' => radix_value 10 r'
        | "-"%char :: r' => option_map Z.opp (radix_value 10 r')
        | _ => radix_value 10 r
        end
      else None
  end.

(** StrUnsignedDecimalLiteral without its [Infinity] alternative
    ([digits [. [digits]] [exponent]] or [. digits [exponent]]), as the
    ratio [p / q] it denotes; [None] when [l] is not one. *)
Definition unsigned_decimal_ratio (l : list ascii) : option (Z * Z) :=
  let '(ds, rest) := span is_dec_digit l in
  let '(fs, r2) := match rest with
                   | "."%char :: r => span is_dec_digit r
                   | _ => ([], rest)
                   end in
  match radix_value 10 (ds ++ fs), exponent_value r2 with
  | Some n, Some x => Some (pow10_ratio n (x - Z.of_nat (length fs)))
  | _, _ => None
  end.

(** StrDecimalLiteral without [Infinity]: an optional sign first. *)
Definition str_decimal_ratio (l : list ascii) : option (Z * Z) :=
  match l with
  | "-"%char :: r => option_map (fun pq => (- fst pq, snd pq)) (unsigned_decimal_ratio r)
  | "+"%char :: r => unsigned_decimal_ratio r
  | _ => unsigned_decimal_ratio l
  end.

(** The integer literals: optional sign and decimal digits, or a
    sign-less [0x], [0o] or [0b] literal. *)
Definition int_literal (l : list ascii) : option Z :=
  match l with
  | "0"%char :: x :: r =>
      if (x =? "x")%char || (x =? "X")%char then radix_value 16 r
      else if (x =? "o")%char || (x =? "O")%char then radix_value 8 r
      else if (x =? "b")%char || (x =? "B")%char then radix_value 2 r
      else radix_value 10 l
  | "-"%char :: r => option_map Z.opp (radix_value 10 r)
  | "+"%char :: r => radix_value 10 r
  | _ => radix_value 10 l
  end.

(** [Number(s)] for a string [s]: the integer literals are rounded as
    integers, the decimal literals as the ratio they denote, and a string
    that is no numeric literal gives NaN. *)
Definition string_to_number (s : string) : jsnum :=
  let l := trim (chars s) in
  match l with
  | [] => NFin 0
  | _ =>
      let t := of_chars l in
      if (t =? "Infinity")%string || (t =? "+Infinity")%string then NPosInf
      else if (t =? "-Infinity")%string then NNegInf
      else match int_literal l with
           | Some z => round_double z
           | None =>
               match str_decimal_ratio l with
               | Some (p, q) => round_rat p q
               | None => NNaN
               end
           end
  end.

(** A decimal digit character, as a proposition. *)
Definition is_digit_char (c : ascii) : Prop := is_dec_digit c = true.

(** ** Rounding: exactness and lower bounds *)

Lemma round_mag_small a : a <= 2 ^ 53 -> round_mag a = a.
Proof.
  intros H. unfold round_mag.
  destruct (Z_le_gt_dec a 0) as [Hn|Hp].
  - rewrite Z.log2_nonpos by lia. reflexivity.
  - destruct (Z.eq_dec a (2 ^ 53)) as [->|Hne]; [reflexivity|].
    assert (Z.log2 a < 53) by (apply Z.log2_lt_pow2; lia).
    case_if; zbool; lia.
Qed.

(** Rounding never goes below the largest multiple of the last kept bit. *)
Lemma round_mag_floor a :
  0 < Z.log2 a - 52 ->
  a / 2 ^ (Z.log2 a - 52) * 2 ^ (Z.log2 a - 52) <= round_mag a.
Proof.
  intros Hs. unfold round_mag.
  set (s := Z.log2 a - 52) in *.
  case_if; zbool; [lia|].
  rewrite Z.shiftr_div_pow2, !Z.shiftl_mul_pow2 by lia.
  apply Z.mul_le_mono_nonneg_r; [lia|].
  repeat case_if; lia.
Qed.

(** Past 53 bits, the rounded magnitude is a multiple of the last kept
    bit. *)
Lemma round_mag_multiple a :
  0 < Z.log2 a - 52 -> round_mag a mod 2 ^ (Z.log2 a - 52) = 0.
Proof.
  intros Hs. unfold round_mag. set (s := Z.log2 a - 52) in *.
  case_if; zbool; [lia|]. rewrite Z.shiftl_mul_pow2 by lia. apply Z.mod_mul.
  apply Z.pow_nonzero; lia.
Qed.

(** A magnitude whose bits past the 53rd are zero is left as it is. *)
Lemma round_mag_exact a :
  0 < Z.log2 a - 52 -> a mod 2 ^ (Z.log2 a - 52) = 0 -> round_mag a = a.
Proof.
  intros Hs Hr. unfold round_mag. set (s := Z.log2 a - 52) in *.
  assert (Hp : 0 < 2 ^ s) by (apply Z.pow_pos_nonneg; lia).
  assert (Hh : 0 < 2 ^ (s - 1)) by (apply Z.pow_pos_nonneg; lia).
  case_if; zbool; [lia|].
  rewrite Z.shiftr_div_pow2, !Z.shiftl_mul_pow2 by lia.
  pose proof (Z.div_mod a (2 ^ s) ltac:(lia)) as Hd. rewrite Hr, Z.add_0_r in Hd.
  rewrite Z.mul_1_l. replace (a - a / 2 ^ s * 2 ^ s) with 0 by lia.
  rewrite (proj2 (Z.ltb_lt 0 _) Hh). lia.
Qed.

(** Rounding to 53 significant bits leaves a nonnegative integer unchanged
    exactly when it is in the binary64 format. *)
Lemma round_mag_fixed a :
  0 <= a ->
  round_mag a = a <-> Z.log2 a <= 52 \/ a mod 2 ^ (Z.log2 a - 52) = 0.
Proof.
  intros Ha. destruct (Z_le_gt_dec (Z.log2 a - 52) 0) as [Hs|Hs].
  - split; [intros; left; lia|]. intros _. unfold round_mag.
    now rewrite (proj2 (Z.leb_le _ 0) Hs).
  - split.
    + intros Hm. right. rewrite <- Hm at 1. apply round_mag_multiple. lia.
    + intros [H|H]; [lia|]. apply round_mag_exact; [lia | exact H].
Qed.

Lemma is_double_iff z :
  is_double z = true <-> round_mag (Z.abs z) = Z.abs z /\ Z.abs z < double_limit.
Proof.
  unfold is_double. rewrite (round_mag_fixed (Z.abs z) (Z.abs_nonneg z)).
  rewrite andb_true_iff, orb_true_iff, Z.ltb_lt, Z.leb_le, Z.eqb_eq. tauto.
Qed.

Lemma le_floor_mult x v m : 0 < m -> x mod m = 0 -> x <= v -> x <= v / m * m.
Proof.
  intros Hm Hx Hxv.
  rewrite (Z.div_mod x m) by lia. rewrite Hx, Z.add_0_r, (Z.mul_comm m).
  apply Z.mul_le_mono_nonneg_r; [lia|].
  apply Z.div_le_mono; lia.
Qed.

Lemma round_mag_pow2_lower a : 0 < a -> 2 ^ Z.log2 a <= round_mag a.
Proof.
  intros Ha. pose proof (Z.log2_spec a Ha) as Hsp.
  destruct (Z_le_gt_dec (Z.log2 a - 52) 0) as [Hs|Hs].
  - unfold round_mag. case_if; zbool; lia.
  - eapply Z.le_trans; [|apply round_mag_floor; lia].
    apply le_floor_mult; [apply Z.pow_pos_nonneg; lia| |lia].
    replace (Z.log2 a) with ((Z.log2 a - 52) + 52) at 1 by lia.
    rewrite Z.pow_add_r, Z.mul_comm by lia. apply Z.mod_mul. apply Z.pow_nonzero; lia.
Qed.

Lemma round_mag_ge_2_53 a : 2 ^ 53 <= a -> 2 ^ 53 <= round_mag a.
Proof.
  intros H. pose proof (round_mag_pow2_lower a ltac:(lia)).
  assert (53 <= Z.log2 a) by (apply Z.log2_le_pow2; lia).
  pose proof (Z.pow_le_mono_r 2 53 (Z.log2 a)). lia.
Qed.

Lemma round_mag_ge_1e21 a : 10 ^ 21 <= a -> 10 ^ 21 <= round_mag a.
Proof.
  intros H. assert (69 <= Z.log2 a) by (apply Z.log2_le_pow2; lia).
  destruct (Z.eq_dec (Z.log2 a) 69) as [E|E].
  - eapply Z.le_trans; [|apply round_mag_floor; lia].
    rewrite E. apply le_floor_mult; [lia|reflexivity|lia].
  - pose proof (round_mag_pow2_lower a ltac:(lia)).
    pose proof (Z.pow_le_mono_r 2 70 (Z.log2 a)). lia.
Qed.

(** A non-positive argument is left alone, so a positive result comes from
    a positive argument. *)
Lemma round_mag_pos a : 0 < round_mag a -> 0 < a.
Proof.
  intros H. destruct (Z_le_gt_dec a 0); [|lia].
  rewrite round_mag_small in H; lia.
Qed.

Lemma round_double_fin_pos a :
  0 <= a -> round_mag a < double_limit -> round_double a = NFin (round_mag a).
Proof.
  intros Ha Hl. unfold round_double. rewrite Z.abs_eq by lia.
  case_if; zbool; [lia|].
  destruct (Z.eq_dec a 0) as [->|Hne]; [reflexivity|].
  rewrite Z.sgn_pos by lia. f_equal; lia.
Qed.

Lemma round_double_fin_neg a :
  0 <= a -> round_mag a < double_limit -> round_double (- a) = NFin (- round_mag a).
Proof.
  intros Ha Hl. unfold round_double. rewrite Z.abs_opp, Z.abs_eq by lia.
  case_if; zbool; [lia|].
  destruct (Z.eq_dec a 0) as [->|Hne]; [reflexivity|].
  rewrite Z.sgn_neg by lia. f_equal; lia.
Qed.

(** ** Decimal digits *)

Lemma dec_digit_cases c :
  is_dec_digit c = true ->
  In c ["0"; "1"; "2"; "3"; "4"; "5"; "6"; "7"; "8"; "9"]%char.
Proof.
  destruct c as [[] [] [] [] [] [] [] []]; vm_compute; intuition discriminate.
Qed.

Lemma radix_digit_char d : 0 <= d < 10 -> radix_digit 10 (digit_char d) = Some d.
Proof.
  intros H. unfold radix_digit, digit_char. rewrite code_chr by lia.
  replace ((48 <=? 48 + d) && (48 + d <=? 57)) with true
    by (symmetry; apply andb_true_intro; split; apply Z.leb_le; lia).
  case_if; zbool; [f_equal|]; lia.
Qed.

Lemma radix_value_acc_app r acc l m :
  radix_value_acc r acc (l ++ m) =
  match radix_value_acc r acc l with Some a => radix_value_acc r a m | None => None end.
Proof.
  revert acc. induction l as [|c l IH]; intros acc; simpl; [reflexivity|].
  destruct (radix_digit r c); [apply IH | reflexivity].
Qed.

Lemma digits_rev_value f n :
  0 <= n < 10 ^ Z.of_nat f -> radix_value_acc 10 0 (rev (digits_rev f n)) = Some n.
Proof.
  revert n. induction f as [|f IH]; intros n Hn.
  { simpl in *. f_equal. lia. }
  rewrite Nat2Z.inj_succ, Z.pow_succ_r in Hn by lia.
  cbn [digits_rev rev]. rewrite radix_value_acc_app.
  assert (Hd : 0 <= n mod 10 < 10) by (apply Z.mod_pos_bound; lia).
  case_if; zbool; simpl.
  - rewrite radix_digit_char by lia. f_equal. rewrite Z.mod_small by lia. lia.
  - rewrite IH; simpl.
    + rewrite radix_digit_char by lia. f_equal. pose proof (Z.div_mod n 10 ltac:(lia)). lia.
    + split; [apply Z.div_pos; lia | apply Z.div_lt_upper_bound; lia].
Qed.

Lemma digits_rev_digits f n : 0 <= n -> Forall is_digit_char (digits_rev f n).
Proof.
  revert n. induction f as [|f IH]; intros n Hn; simpl; constructor.
  - apply digit_char_is_digit, Z.mod_pos_bound; lia.
  - case_if; [constructor | apply IH, Z.div_pos; lia].
Qed.

Lemma dec_fuel_enough n : 0 <= n -> n < 10 ^ Z.of_nat (dec_fuel n).
Proof.
  intros Hn. unfold dec_fuel. rewrite Nat2Z.inj_succ, Z2Nat.id by apply Z.log2_nonneg.
  destruct (Z.eq_dec n 0) as [->|Hne]; [reflexivity|].
  pose proof (Z.log2_spec n ltac:(lia)) as [_ H].
  eapply Z.lt_le_trans; [exact H|].
  apply Z.pow_le_mono_l. pose proof (Z.log2_nonneg n). lia.
Qed.

Lemma dec_chars_value n : 0 <= n -> radix_value 10 (dec_chars n) = Some n.
Proof.
  intros Hn. unfold radix_value, dec_chars.
  pose proof (digits_rev_value (dec_fuel n) n) as H.
  destruct (rev (digits_rev (dec_fuel n) n)) eqn:E.
  - unfold dec_fuel in E. simpl in E. destruct (_ <? 10); simpl in E;
      [discriminate | now apply app_eq_nil in E as [_ ?]].
  - apply H. split; [lia | apply dec_fuel_enough; lia].
Qed.

Lemma dec_chars_digits n : 0 <= n -> Forall is_digit_char (dec_chars n).
Proof. intros Hn. apply Forall_rev, digits_rev_digits, Hn. Qed.

Lemma digits_rev_last f n :
  0 < n < 10 ^ Z.of_nat f -> exists d l, digits_rev f n = l ++ [digit_char d] /\ 1 <= d < 10.
Proof.
  revert n. induction f as [|f IH]; intros n Hn; [simpl in Hn; lia|].
  rewrite Nat2Z.inj_succ, Z.pow_succ_r in Hn by lia. simpl. case_if; zbool.
  - exists (n mod 10), []. rewrite Z.mod_small by lia. split; [reflexivity | lia].
  - destruct (IH (n / 10)) as (d & l & -> & Hd).
    + split; [apply Z.div_str_pos | apply Z.div_lt_upper_bound]; lia.
    + exists d, (digit_char (n mod 10) :: l). split; [reflexivity | assumption].
Qed.

(** A positive number has no leading zero. *)
Lemma dec_chars_lead n : 0 < n -> exists d r, dec_chars n = digit_char d :: r /\ 1 <= d < 10.
Proof.
  intros Hn. unfold dec_chars.
  destruct (digits_rev_last (dec_fuel n) n) as (d & l & -> & Hd);
    [split; [lia | apply dec_fuel_enough; lia]|].
  exists d, (rev l). rewrite rev_app_distr. split; [reflexivity | assumption].
Qed.

(** ** Parsing digit strings *)

Lemma trim_start_id l : Forall (fun c => is_js_space c = false) l -> trim_start l = l.
Proof.
  intros H. destruct H as [|c l Hc _]; unfold trim_start; simpl; [reflexivity | now rewrite Hc].
Qed.

Lemma trim_id l : Forall (fun c => is_js_space c = false) l -> trim l = l.
Proof.
  intros H. unfold trim.
  rewrite (trim_start_id l), (trim_start_id (rev l)) by (try apply Forall_rev; assumption).
  apply rev_involutive.
Qed.

Lemma digit_not_space c : is_digit_char c -> is_js_space c = false.
Proof. intros H. apply dec_digit_cases in H. simpl in H. intuition (subst; reflexivity). Qed.

Lemma digits_not_space l :
  Forall is_digit_char l -> Forall (fun c => is_js_space c = false) l.
Proof. apply Forall_impl, digit_not_space. Qed.

Lemma int_literal_digits l : Forall is_digit_char l -> int_literal l = radix_value 10 l.
Proof.
  intros H. destruct H as [|c l Hc Hl]; [reflexivity|].
  apply dec_digit_cases in Hc. simpl in Hc.
  destruct Hl as [|x r Hx _].
  - intuition (subst; reflexivity).
  - apply dec_digit_cases in Hx. simpl in Hx. intuition (subst; reflexivity).
Qed.

Lemma string_to_number_digits l v :
  Forall is_digit_char l -> radix_value 10 l = Some v ->
  string_to_number (of_chars l) = round_double v.
Proof.
  intros Hd Hv. unfold string_to_number.
  rewrite list_ascii_of_string_of_list_ascii, trim_id by now apply digits_not_space.
  rewrite int_literal_digits, Hv by assumption.
  destruct Hd as [|c l Hc _]; [discriminate|].
  apply dec_digit_cases in Hc. simpl in Hc. intuition (subst; reflexivity).
Qed.

Lemma string_to_number_neg_digits l v :
  Forall is_digit_char l -> radix_value 10 l = Some v ->
  string_to_number (of_chars ("-"%char :: l)) = round_double (- v).
Proof.
  intros Hd Hv. unfold string_to_number.
  rewrite list_ascii_of_string_of_list_ascii, trim_id
    by (constructor; [reflexivity | now apply digits_not_space]).
  change (int_literal ("-"%char :: l)) with (option_map Z.opp (radix_value 10 l)).
  rewrite Hv.
  destruct Hd as [|c l Hc _]; [discriminate|].
  apply dec_digit_cases in Hc. simpl in Hc. intuition (subst; reflexivity).
Qed.

(** ** Shortest digits *)

Lemma shortest_loop_fits f m d k :
  round_mag m = m ->
  let '(s, e) := shortest_loop f m d k in round_mag (s * 10 ^ e) = m.
Proof.
  intros Hm. revert k. induction f as [|f IH]; intros k; simpl.
  - now rewrite Z.mul_1_r.
  - destruct (fits m (m / 10 ^ (d - k)) (d - k)) eqn:E1,
             (fits m (m / 10 ^ (d - k) + 1) (d - k)) eqn:E2;
      unfold fits in *; zbool; try apply IH; repeat case_if; assumption.
Qed.

(** A positive double below 10^21 prints as the plain decimal digits of an
    integer that rounds back to it. *)
Lemma pos_to_string_dec m :
  0 < m -> round_mag m = m -> m < 10 ^ 21 ->
  exists v, pos_to_string m = dec_string v /\ round_mag v = m /\ 0 < v.
Proof.
  intros Hp Hm Hb. unfold pos_to_string, shortest.
  pose proof (shortest_loop_fits (Z.to_nat (ndigits m)) m (ndigits m) 1 Hm) as H.
  destruct (shortest_loop _ m (ndigits m) 1) as [s e].
  case_if; zbool.
  - exists (s * 10 ^ e). split; [reflexivity|]. split; [assumption|].
    apply round_mag_pos. lia.
  - pose proof (round_mag_ge_1e21 (s * 10 ^ e)). lia.
Qed.

Lemma pos_to_string_safe m : 0 < m < 2 ^ 53 -> pos_to_string m = dec_string m.
Proof.
  intros Hm.
  destruct (pos_to_string_dec m) as (v & Hs & Hr & Hv); try lia;
    [apply round_mag_small; lia|].
  assert (v < 2 ^ 53).
  { destruct (Z_lt_le_dec v (2 ^ 53)) as [|Hge]; [assumption|].
    pose proof (round_mag_ge_2_53 v Hge). lia. }
  rewrite round_mag_small in Hr by lia. now subst.
Qed.

Lemma string_to_number_dec v :
  0 <= v -> string_to_number (dec_string v) = round_double v.
Proof.
  intros Hv. apply string_to_number_digits; [apply dec_chars_digits | apply dec_chars_value]; lia.
Qed.

Lemma string_to_number_neg_dec v :
  0 <= v -> string_to_number ("-" ++ dec_string v)%string = round_double (- v).
Proof.
  intros Hv. apply string_to_number_neg_digits;
    [apply dec_chars_digits | apply dec_chars_value]; lia.
Qed.

(** ** Bounds: where double arithmetic is exact *)

Lemma is_double_small z : Z.abs z <= 2 ^ 53 -> is_double z = true.
Proof.
  intros H. apply is_double_iff. rewrite round_mag_small by lia. split; [reflexivity|].
  unfold double_limit. eapply Z.le_lt_trans; [exact H | now apply Z.pow_lt_mono_r].
Qed.

(** Every integer of magnitude at most 2^53 is a double: the conversion
    to a Number leaves it unchanged. *)
Lemma round_double_exact z : Z.abs z <= 2 ^ 53 -> round_double z = NFin z.
Proof.
  intros H. unfold round_double. rewrite round_mag_small by lia.
  case_if; zbool; unfold double_limit in *; [lia|].
  f_equal. rewrite Z.mul_comm. apply Z.abs_sgn.
Qed.

Lemma num_mul_exact a b :
  Z.abs (a * b) <= 2 ^ 53 -> num_mul (NFin a) (NFin b) = NFin (a * b).
Proof. intros H. apply round_double_exact, H. Qed.

(** Below 2^53 a number prints as its plain decimal notation. *)
Lemma number_to_string_safe z :
  Z.abs z < 2 ^ 53 -> number_to_string (NFin z) = int_string z.
Proof.
  intros H. unfold number_to_string, int_string.
  destruct (Z.eq_dec z 0) as [->|Hz]; [reflexivity|].
  rewrite (proj2 (Z.eqb_neq z 0) Hz).
  case_if; zbool; rewrite pos_to_string_safe by lia; reflexivity.
Qed.

Lemma string_to_number_int_string n :
  Z.abs n <= 2 ^ 53 -> string_to_number (int_string n) = NFin n.
Proof.
  intros H. unfold int_string. case_if; zbool.
  - rewrite string_to_number_neg_dec, Z.opp_involutive by lia.
    apply round_double_exact. lia.
  - rewrite string_to_number_dec by lia. apply round_double_exact. lia.
Qed.

(** ** Round trip of Number::toString through StringToNumber *)

(** ** Rounding a ratio and rounding an integer *)

Lemma ratio_log2_one a : 0 < a -> ratio_log2 a 1 = Z.log2 a.
Proof.
  intros Ha. unfold ratio_log2. cbv zeta. rewrite Z.log2_1, Z.sub_0_r.
  pose proof (Z.log2_nonneg a). pose proof (Z.log2_spec a Ha).
  replace (0 <=? Z.log2 a) with true by (symmetry; apply Z.leb_le; lia).
  replace (a <? 1 * 2 ^ Z.log2 a) with false by (symmetry; apply Z.ltb_ge; lia).
  reflexivity.
Qed.

Lemma div_round_even_exact c b : 0 < b -> div_round_even (c * b) b = c.
Proof.
  intros Hb. unfold div_round_even. cbv zeta. rewrite Z.div_mul, Z.mod_mul by lia.
  case_if; zbool; lia.
Qed.

Lemma dyadic_shift m k : 0 < k -> dyadic (m * 2 ^ k) (- k) = NFin m.
Proof.
  intros Hk. unfold dyadic. cbv zeta. case_if; zbool; [lia|].
  rewrite Z.opp_involutive, (Z.gcd_comm (m * 2 ^ k)), (Z.mul_comm m), Z.gcd_mul_diag_l,
    Z.log2_pow2 by lia.
  case_if; zbool; [|lia]. f_equal. rewrite Z.mul_comm. apply Z.div_mul. lia.
Qed.

(** [round_mag] keeps 53 bits by shifting; it is the rounding of the
    ratio [a / 2^s] to an integer. *)
Lemma round_mag_div_round a :
  0 < Z.log2 a - 52 ->
  round_mag a = div_round_even a (2 ^ (Z.log2 a - 52)) * 2 ^ (Z.log2 a - 52).
Proof.
  intros Hs. unfold round_mag, div_round_even. cbv zeta. set (s := Z.log2 a - 52) in *.
  case_if; zbool; [lia|].
  rewrite Z.shiftr_div_pow2, !Z.shiftl_mul_pow2, Z.mul_1_l by lia.
  assert (Hp : 2 ^ s = 2 * 2 ^ (s - 1)) by (rewrite <- Z.pow_succ_r by lia; f_equal; lia).
  rewrite (Z.mod_eq a (2 ^ s)) by lia.
  set (q := a / 2 ^ s). replace (a - q * 2 ^ s) with (a - 2 ^ s * q) by ring.
  repeat case_if; zbool; try lia; reflexivity.
Qed.

(** The rounding of a ratio over one is the rounding of the integer. *)
Lemma round_rat_one z : round_rat z 1 = round_double z.
Proof.
  unfold round_rat, round_double.
  destruct (Z.eq_dec z 0) as [->|Hz]; [reflexivity|].
  rewrite (proj2 (Z.eqb_neq _ _) Hz).
  assert (Ha : 0 < Z.abs z) by lia.
  pose proof (Z.log2_nonneg (Z.abs z)) as Hl0.
  unfold round_ratio. rewrite ratio_log2_one by exact Ha.
  destruct (Z_le_gt_dec (Z.log2 (Z.abs z) - 52) 0) as [Hle|Hgt].
  - assert (Hs : Z.abs z < 2 ^ 53) by (apply Z.log2_lt_pow2; lia).
    rewrite round_mag_small, Z.max_l by lia.
    replace (double_limit <=? Z.abs z) with false
      by (symmetry; apply Z.leb_gt; unfold double_limit; lia).
    destruct (Z.eq_dec (Z.log2 (Z.abs z) - 52) 0) as [E|Ne].
    + rewrite E. cbn [Z.leb Z.compare Z.pow Z.mul andb].
      rewrite Z.mul_1_r, <- (Z.mul_1_r (Z.abs z)), div_round_even_exact, Z.mul_1_r by lia.
      replace (double_limit <=? Z.abs z) with false
        by (symmetry; apply Z.leb_gt; unfold double_limit; lia).
      unfold dyadic. simpl. now rewrite Z.mul_1_r.
    + set (k := - (Z.log2 (Z.abs z) - 52)).
      replace (Z.log2 (Z.abs z) - 52) with (- k) by (unfold k; lia).
      replace (0 <=? - k) with false by (symmetry; apply Z.leb_gt; unfold k; lia).
      rewrite <- (Z.mul_1_r (Z.abs z * 2 ^ k)), div_round_even_exact by lia.
      simpl andb. rewrite Z.mul_assoc, dyadic_shift by (unfold k; lia). reflexivity.
  - rewrite Z.max_l by lia. set (e := Z.log2 (Z.abs z) - 52) in *.
    rewrite round_mag_div_round by (unfold e in Hgt; lia). fold e.
    replace (0 <=? e) with true by (symmetry; apply Z.leb_le; lia).
    rewrite Z.mul_1_l. simpl andb.
    case_if; [reflexivity|].
    unfold dyadic. replace (0 <=? e) with true by (symmetry; apply Z.leb_le; lia).
    f_equal. ring.
Qed.

(** ** Which integers are Numbers *)

(** C24: converting an integer to a Number gives back the same integer
    exactly when the integer is in the binary64 format: below 2^1024 in
    magnitude with at most 53 significant bits.  Past 2^53 this fails for
    some integers (2^53 + 1 rounds to 2^53). *)
Theorem round_double_fixed_iff z : round_double z = NFin z <-> is_double z = true.
Proof.
  rewrite is_double_iff. unfold round_double. split.
  - destruct (double_limit <=? round_mag (Z.abs z)) eqn:E; [destruct (z <? 0); discriminate|].
    zbool. intros Hz. injection Hz as Hz.
    assert (Hm : round_mag (Z.abs z) = Z.abs z).
    { destruct (Z.eq_dec z 0) as [->|Hne]; [reflexivity|].
      destruct (Z_lt_le_dec z 0).
      + rewrite Z.sgn_neg in Hz by lia. rewrite Z.abs_neq in * by lia. lia.
      + rewrite Z.sgn_pos in Hz by lia. rewrite Z.abs_eq in * by lia. lia. }
    split; [exact Hm | lia].
  - intros [H1 H2]. rewrite H1.
    destruct (double_limit <=? Z.abs z) eqn:E; zbool; [lia|].
    f_equal. rewrite Z.mul_comm. apply Z.abs_sgn.
Qed.

Lemma int_string_nonempty n : int_string n <> EmptyString.
Proof.
  unfold int_string. case_if; zbool; [discriminate|].
  unfold dec_string. pose proof (dec_chars_value n ltac:(lia)) as H.
  destruct (dec_chars n); [discriminate | simpl; discriminate].
Qed.

(** ** Instances at concrete inputs *)

Lemma round_double_fixed_iff_witness :
  is_double (2 ^ 53 + 2) = true /\ round_double (2 ^ 53 + 2) = NFin (2 ^ 53 + 2).
Proof. split; [reflexivity | apply (round_double_fixed_iff (2 ^ 53 + 2)); reflexivity]. Defined.

End JsNumber.
