(* ===== verification/NumberRoundtrip.v ===== *)
(** * Number::toString read back by StringToNumber

    [number_to_string] of [JsNumber] prints a double with the fewest
    significant digits that round back to it, in one of four layouts
    ([digits_to_string] and [exponent_form]); [string_to_number] reads a
    decimal literal as the ratio it denotes, rounded to a double
    ([round_rat]).  This file proves that reading the printed text gives
    the double back, for every finite double, integral or not.

    The proof has three parts: 17 significant digits always suffice
    ([fits_at_17], from the bound [round_rat_near] on how far a ratio may
    be from a double and still round to it), so the search for the
    shortest digits succeeds; rounding depends on the ratio only
    ([round_rat_scale]), so trailing zeros and the sign do not matter;
    and each of the four layouts reads back as the digits times the power
    of ten it denotes ([int_layout_parse], [point_layout_parse],
    [small_layout_parse], [exp_layout_parse]). *)

From Stdlib Require Import String Ascii List ZArith Lia Bool Zdivisibility.
From S2P Require Import Prelude JsNumber.
Import ListNotations JsNumber.

Module NumberRoundtrip.

Local Open Scope Z_scope.

(** A finite double: an integer [z] that [is_double], or [m * 2^e] in
    lowest terms with [|m| < 2^53] and [-1074 <= e < 0]. *)
Definition is_finite_double (x : jsnum) : bool :=
  match x with
  | NFin z => is_double z
  | NFrac m e => (0 <? Z.abs m) && (Z.abs m <? 2 ^ 53) && Z.odd m && (-1074 <=? e) && (e <? 0)
  | _ => false
  end.

(** A double that is not an integer, in lowest terms. *)
Definition frac_double (m e : Z) : Prop :=
  0 < m < 2 ^ 53 /\ Z.odd m = true /\ -1074 <= e < 0.

(** The double the digits [s] times [10^j] denote. *)
Definition round_dec (s j : Z) : jsnum := let '(p, q) := pow10_ratio s j in round_rat p q.

(** [-x]. *)
Definition jsnum_neg (x : jsnum) : jsnum :=
  match x with
  | NFin z => NFin (- z)
  | NFrac m e => NFrac (- m) e
  | NNaN => NNaN
  | NPosInf => NNegInf
  | NNegInf => NPosInf
  end.

(** The shape of a printed number, as the JSON number grammar has it: an
    integer part ([0], or a nonzero digit and digits), an optional
    fraction (a point and digits) and an optional exponent ([e], a sign
    and digits). *)
Definition int_part (i : list ascii) : Prop :=
  i = ["0"%char] \/
  exists d r, i = digit_char d :: r /\ 1 <= d <= 9 /\ Forall is_digit_char r.

Definition frac_part (f : list ascii) : Prop :=
  f = [] \/ exists c ds, f = "."%char :: c :: ds /\ Forall is_digit_char (c :: ds).

Definition exp_part (x : list ascii) : Prop :=
  x = [] \/ exists sg c ds, x = "e"%char :: sg :: c :: ds /\
    (sg = "+"%char \/ sg = "-"%char) /\ Forall is_digit_char (c :: ds).

Definition decimal_layout (l : list ascii) : Prop :=
  exists i f x, l = i ++ f ++ x /\ int_part i /\ frac_part f /\ exp_part x.

Ltac split_conds :=
  repeat match goal with
  | H : _ && _ = true |- _ => apply andb_prop in H as [? ?]
  | H : _ && _ = false |- _ => apply andb_false_iff in H as [?|?]
  end; zbool.

(** [a / b] compared with [2^s], by cross multiplication. *)
Lemma lt_pow2_scale a b s K :
  0 < b -> 0 <= K -> 0 <= K + s ->
  ((if 0 <=? s then a <? b * 2 ^ s else a * 2 ^ (- s) <? b) = true <-> a * 2 ^ K < b * 2 ^ (K + s)).
Proof.
  intros Hb HK HKs. case_if; zbool; rewrite Z.ltb_lt.
  - rewrite Z.add_comm, Z.pow_add_r by lia. rewrite Z.mul_assoc.
    pose proof (Z.pow_pos_nonneg 2 K). split; intros; nia.
  - replace K with ((K + s) + - s) at 1 by lia. rewrite Z.pow_add_r by lia.
    pose proof (Z.pow_pos_nonneg 2 (K + s)). split; intros; nia.
Qed.

(** [ratio_log2 a b] is [floor (log2 (a / b))]: [2^r <= a / b < 2^(r+1)],
    cross multiplied by [2^K] for any [K] that makes the powers integral. *)
Lemma ratio_log2_spec a b K :
  0 < a -> 0 < b -> 0 <= K -> 0 <= K + ratio_log2 a b ->
  b * 2 ^ (K + ratio_log2 a b) <= a * 2 ^ K < b * 2 ^ (K + ratio_log2 a b + 1).
Proof.
  intros Ha Hb HK. unfold ratio_log2.
  pose proof (Z.log2_spec a Ha) as [Ha1 Ha2]. pose proof (Z.log2_spec b Hb) as [Hb1 Hb2].
  pose proof (Z.log2_nonneg a). pose proof (Z.log2_nonneg b).
  rewrite <- Z.add_1_r in Ha2, Hb2.
  set (t := Z.log2 a - Z.log2 b). cbv zeta.
  destruct (if 0 <=? t then a <? b * 2 ^ t else a * 2 ^ (- t) <? b) eqn:T; intros HKr.
  - apply (lt_pow2_scale a b t K Hb HK ltac:(lia)) in T.
    split; [|now replace (K + (t - 1) + 1) with (K + t) by lia].
    assert (E : 2 ^ (Z.log2 b + 1) * 2 ^ (K + (t - 1)) = 2 ^ Z.log2 a * 2 ^ K)
      by (rewrite <- !Z.pow_add_r by lia; f_equal; unfold t; lia).
    pose proof (Z.pow_pos_nonneg 2 (K + (t - 1)) ltac:(lia) ltac:(lia)).
    pose proof (Z.pow_pos_nonneg 2 K ltac:(lia) HK). nia.
  - assert (Hn : ~ (a * 2 ^ K < b * 2 ^ (K + t))).
    { rewrite <- (lt_pow2_scale a b t K Hb HK HKr). congruence. }
    split; [lia|].
    assert (E : 2 ^ (Z.log2 a + 1) * 2 ^ K = 2 ^ Z.log2 b * 2 ^ (K + t + 1))
      by (rewrite <- !Z.pow_add_r by lia; f_equal; unfold t; lia).
    pose proof (Z.pow_pos_nonneg 2 (K + t + 1) ltac:(lia) ltac:(lia)).
    pose proof (Z.pow_pos_nonneg 2 K ltac:(lia) HK). nia.
Qed.

(** Rounding [a / b] to the nearest integer gives [c] when [c] is
    strictly closer than one half. *)
Lemma div_round_even_near a b c : 0 < b -> 2 * Z.abs (a - c * b) < b -> div_round_even a b = c.
Proof.
  intros Hb Hd. unfold div_round_even.
  destruct (Z_le_gt_dec (c * b) a) as [Hle|Hgt].
  - assert (Hq : a / b = c) by (symmetry; apply Z.div_unique with (a - c * b); lia).
    assert (Hr : a mod b = a - c * b) by (symmetry; apply Z.mod_unique with c; lia).
    rewrite Hq, Hr. case_if; zbool; lia.
  - assert (Hq : a / b = c - 1) by (symmetry; apply Z.div_unique with (a - (c - 1) * b); lia).
    assert (Hr : a mod b = a - (c - 1) * b) by (symmetry; apply Z.mod_unique with (c - 1); lia).
    rewrite Hq, Hr. case_if; zbool; [lia|]. case_if; zbool; lia.
Qed.

Lemma gcd_odd_pow2 m n : Z.odd m = true -> 0 <= n -> Z.gcd m (2 ^ n) = 1.
Proof.
  intros Hm Hn. apply Z.coprime_pow_r; [exact Hn|]. symmetry.
  apply Z.coprime_prime_l; [exact Z.prime_2|]. intros [k Hk].
  rewrite Hk, Z.mul_comm, Z.odd_mul in Hm. discriminate.
Qed.

(** [m * 2^k * 2^(e-k)] in lowest terms is [m * 2^e] for an odd [m]. *)
Lemma dyadic_odd m k e :
  Z.odd m = true -> 0 <= k -> e < 0 -> dyadic (m * 2 ^ k) (e - k) = NFrac m e.
Proof.
  intros Hm Hk He. unfold dyadic.
  replace (0 <=? e - k) with false by (symmetry; apply Z.leb_gt; lia).
  assert (Hg : Z.gcd (m * 2 ^ k) (2 ^ (- (e - k))) = 2 ^ k).
  { replace (- (e - k)) with (k + - e) by lia. rewrite Z.pow_add_r by lia.
    rewrite (Z.mul_comm m), Z.gcd_mul_mono_l_nonneg by (apply Z.pow_nonneg; lia).
    rewrite gcd_odd_pow2 by (assumption || lia). apply Z.mul_1_r. }
  cbv zeta. rewrite Hg, Z.log2_pow2, Z.div_mul by (lia || (apply Z.pow_nonzero; lia)).
  replace (e - k + k) with e by lia. now replace (e =? 0) with false by (symmetry; apply Z.eqb_neq; lia).
Qed.

Lemma pow2_53_lt_1e16 : 2 ^ 53 < 10 ^ 16.
Proof. reflexivity. Qed.

(** The rounding of a ratio that lies within [x / (2 * 10^16)] of a
    double [x = m * 2^e] that is not an integer is [x]: the distance is
    below half a unit in the last place of [x], also on the finer side
    of a power of two. *)
Lemma round_rat_near p q m e :
  0 < p -> 0 < q -> 0 < m < 2 ^ 53 -> Z.odd m = true -> -1074 <= e < 0 ->
  2 * 10 ^ 16 * Z.abs (p * 2 ^ (- e) - m * q) <= m * q ->
  round_rat p q = NFrac m e.
Proof.
  intros Hp Hq Hm Hodd He Hd.
  set (N := - e) in *. set (P := p * 2 ^ N) in *. set (r := ratio_log2 p q).
  pose proof pow2_53_lt_1e16 as H53.
  assert (HN : 0 < 2 ^ N) by (apply Z.pow_pos_nonneg; lia).
  assert (Hlow : (2 * 10 ^ 16 - 1) * (m * q) <= 2 * 10 ^ 16 * P) by lia.
  assert (Hup : 2 * 10 ^ 16 * P <= (2 * 10 ^ 16 + 1) * (m * q)) by lia.
  (* A: the exponent of [p / q] is not far below that of [x] *)
  assert (HA : 0 <= r + N + 1).
  { destruct (Z_le_gt_dec 0 (r + N + 1)) as [|Hlt]; [assumption|].
    pose proof (ratio_log2_spec p q (- r) Hp Hq ltac:(lia) ltac:(fold r; lia)) as [_ Hs].
    fold r in Hs. replace (- r + r + 1) with 1 in Hs by lia. rewrite Z.pow_1_r in Hs.
    replace (- r) with (N + (- r - N)) in Hs by lia. rewrite Z.pow_add_r in Hs by lia.
    assert (4 <= 2 ^ (- r - N)) by (change 4 with (2 ^ 2); apply Z.pow_le_mono_r; lia).
    rewrite Z.mul_assoc in Hs. fold P in Hs. nia. }
  (* B: nor above it *)
  assert (HB : r <= 52 - N).
  { destruct (Z_le_gt_dec r (52 - N)) as [|Hgt]; [assumption|].
    pose proof (ratio_log2_spec p q N Hp Hq ltac:(lia) ltac:(fold r; lia)) as [Hs _].
    fold r P in Hs.
    assert (2 ^ 53 <= 2 ^ (N + r)) by (apply Z.pow_le_mono_r; lia). nia. }
  (* C: the mantissa of [x] fits the binade of [p / q] *)
  remember (r + N + 1) as j eqn:Hjdef.
  assert (HC : m <= 2 ^ j).
  { pose proof (ratio_log2_spec p q (N + 1) Hp Hq ltac:(lia) ltac:(fold r; lia)) as [_ Hs].
    fold r in Hs. replace (N + 1 + r + 1) with (1 + j) in Hs by lia.
    rewrite !Z.pow_add_r, Z.pow_1_r in Hs by lia. fold P in Hs.
    assert (Hj : 2 ^ j <= 2 ^ 53) by (apply Z.pow_le_mono_r; lia).
    assert (P < q * 2 ^ j) by lia. nia. }
  (* D: the exponent [round_ratio] chooses is at most that of [x] *)
  set (eh := Z.max (r - 52) (-1074)).
  set (k := - N - eh).
  assert (Hk0 : 0 <= k) by (unfold k, eh; lia).
  assert (Hmk : m * 2 ^ k <= 2 ^ 53).
  { assert (2 ^ k <= 2 ^ (52 - N - r)) by (apply Z.pow_le_mono_r; unfold k, eh; lia).
    assert (E : 2 ^ j * 2 ^ (52 - N - r) = 2 ^ 53) by (rewrite <- Z.pow_add_r by lia; f_equal; lia).
    assert (0 < 2 ^ (52 - N - r)) by (apply Z.pow_pos_nonneg; lia). nia. }
  (* E: the mantissa rounds to that of [x] *)
  assert (Hround : div_round_even (p * 2 ^ (- eh)) q = m * 2 ^ k).
  { apply div_round_even_near; [lia|].
    replace (- eh) with (N + k) by (unfold k; lia). rewrite Z.pow_add_r, Z.mul_assoc by lia. fold P.
    replace (P * 2 ^ k - m * 2 ^ k * q) with (2 ^ k * (P - m * q)) by ring.
    assert (Hk : 0 < 2 ^ k) by (apply Z.pow_pos_nonneg; lia).
    rewrite Z.abs_mul, (Z.abs_eq (2 ^ k)) by lia.
    assert (2 ^ k * (2 * 10 ^ 16 * Z.abs (P - m * q)) <= 2 ^ k * (m * q))
      by (apply Z.mul_le_mono_nonneg_l; lia).
    assert (m * 2 ^ k * q <= 2 ^ 53 * q) by (apply Z.mul_le_mono_nonneg_r; lia).
    lia. }
  (* F: in lowest terms *)
  unfold round_rat. replace (p =? 0) with false by (symmetry; apply Z.eqb_neq; lia).
  rewrite Z.abs_eq by lia. unfold round_ratio. fold r. fold eh. cbv zeta.
  replace (0 <=? eh) with false by (symmetry; apply Z.leb_gt; unfold eh; lia).
  rewrite Hround. simpl andb. cbv iota.
  rewrite Z.sgn_pos, Z.mul_1_l by lia. replace eh with (e - k) by (unfold k, N; lia).
  apply dyadic_odd; assumption || lia.
Qed.

(** ** The search for the shortest digits *)

Lemma digits_rev_length f n :
  0 < n < 10 ^ Z.of_nat f ->
  let d := Z.of_nat (length (digits_rev f n)) in 10 ^ (d - 1) <= n < 10 ^ d.
Proof.
  cbv zeta. revert n. induction f as [|f IH]; intros n Hn; [simpl in Hn; lia|].
  rewrite Nat2Z.inj_succ, Z.pow_succ_r in Hn by lia. cbn [digits_rev]. case_if; zbool.
  - cbn [length]. simpl Z.of_nat. lia.
  - cbn [length]. rewrite Nat2Z.inj_succ.
    destruct (IH (n / 10)) as [H1 H2].
    + split; [apply Z.div_str_pos | apply Z.div_lt_upper_bound]; lia.
    + set (d := Z.of_nat (length (digits_rev f (n / 10)))) in *.
      assert (0 <= d) by (unfold d; lia).
      replace (Z.succ d - 1) with d by lia. rewrite Z.pow_succ_r by lia.
      pose proof (Z.div_mod n 10 ltac:(lia)). pose proof (Z.mod_pos_bound n 10 ltac:(lia)).
      destruct (Z.eq_dec d 0) as [->|Hd0]; [change (10 ^ 0) with 1 in H2; lia|].
      replace d with (Z.succ (d - 1)) at 1 by lia. rewrite Z.pow_succ_r by lia. lia.
Qed.

Lemma ndigits_spec n : 0 < n -> 10 ^ (ndigits n - 1) <= n < 10 ^ ndigits n.
Proof.
  intros Hn. unfold ndigits, dec_chars. rewrite length_rev.
  apply digits_rev_length. split; [lia | apply dec_fuel_enough; lia].
Qed.

Lemma ndigits_pos n : 0 < n -> 1 <= ndigits n.
Proof.
  intros Hn. pose proof (ndigits_spec n Hn) as [_ H].
  destruct (Z_le_gt_dec 1 (ndigits n)) as [|Hlt]; [assumption|].
  destruct (Z.eq_dec (ndigits n) 0) as [E|Hne]; [rewrite E in H; simpl in H; lia|].
  rewrite Z.pow_neg_r in H by lia. lia.
Qed.

(** [dec_exponent a b] is at most one more than the exponent of [a / b]:
    [10^(n-1) <= a / b]. *)
Lemma dec_exponent_low a b :
  0 < a -> 0 < b ->
  let n := dec_exponent a b in
  if 0 <=? n - 1 then b * 10 ^ (n - 1) <= a else b <= a * 10 ^ (1 - n).
Proof.
  intros Ha Hb. unfold dec_exponent.
  pose proof (ndigits_spec a Ha) as [Ha1 _]. pose proof (ndigits_spec b Hb) as [_ Hb2].
  pose proof (ndigits_pos a Ha). pose proof (ndigits_pos b Hb).
  set (t := ndigits a - ndigits b). cbv zeta.
  destruct (if 0 <=? t then a <? b * 10 ^ t else a * 10 ^ (- t) <? b) eqn:T.
  - case_if; zbool.
    + assert (Ep : 10 ^ ndigits b * 10 ^ (t - 1) = 10 ^ (ndigits a - 1))
        by (rewrite <- Z.pow_add_r by lia; f_equal; unfold t; lia).
      assert (0 < 10 ^ (t - 1)) by (apply Z.pow_pos_nonneg; lia). nia.
    + assert (Ep : 10 ^ (ndigits a - 1) * 10 ^ (1 - t) = 10 ^ ndigits b)
        by (rewrite <- Z.pow_add_r by lia; f_equal; unfold t; lia).
      assert (0 < 10 ^ (1 - t)) by (apply Z.pow_pos_nonneg; lia). nia.
  - replace (t + 1 - 1) with t by lia. replace (1 - (t + 1)) with (- t) by lia.
    case_if; zbool; lia.
Qed.

(** Of [A / B] rounded down and rounded up, one is within [B / 2]. *)
Lemma floor_or_ceil_near A B :
  0 < B -> 2 * Z.abs (A / B * B - A) <= B \/ 2 * Z.abs ((A / B + 1) * B - A) <= B.
Proof.
  intros HB. pose proof (Z.div_mod A B ltac:(lia)). pose proof (Z.mod_pos_bound A B HB).
  destruct (Z_le_gt_dec (2 * (A mod B)) B); [left | right]; nia.
Qed.

Lemma jsnum_eqb_refl x : jsnum_eqb x x = true.
Proof. destruct x; simpl; rewrite ?Z.eqb_refl; reflexivity. Qed.

(** Seventeen significant digits suffice: at the seventeenth precision
    one of the two neighbours of [m * 2^e] rounds back to it. *)
Lemma fits_at_17 m e :
  frac_double m e ->
  let b := 2 ^ (- e) in
  let j := dec_exponent m b - 17 in
  fits_ratio (NFrac m e) (scaled_floor m b j) j || fits_ratio (NFrac m e) (scaled_floor m b j + 1) j = true.
Proof.
  intros (Hm & Hodd & He). cbv zeta.
  set (N := - e). set (b := 2 ^ N). set (n := dec_exponent m b).
  assert (Hb : 0 < b) by (apply Z.pow_pos_nonneg; lia).
  pose proof (dec_exponent_low m b ltac:(lia) Hb) as Hlow. fold n in Hlow.
  assert (Hfit : forall c P Q, round_rat P Q = NFrac m e -> pow10_ratio c (n - 17) = (P, Q) ->
                 fits_ratio (NFrac m e) c (n - 17) = true).
  { intros c P Q HR Hpq. unfold fits_ratio. rewrite Hpq, HR. apply jsnum_eqb_refl. }
  unfold scaled_floor, pow10_ratio in *. case_if; zbool.
  - (* [10^(n-17)] is an integer *)
    set (B := b * 10 ^ (n - 17)).
    assert (HB : 0 < B) by (unfold B; pose proof (Z.pow_pos_nonneg 10 (n - 17)); nia).
    assert (HL : B * 10 ^ 16 <= m).
    { replace (0 <=? n - 1) with true in Hlow by (symmetry; apply Z.leb_le; lia).
      unfold B. replace (n - 1) with ((n - 17) + 16) in Hlow by lia.
      rewrite Z.pow_add_r in Hlow by lia. lia. }
    assert (Hc : forall c, 2 * Z.abs (c * B - m) <= B -> round_rat (c * 10 ^ (n - 17)) 1 = NFrac m e).
    { intros c Hc. assert (0 < c) by nia.
      apply round_rat_near; [apply Z.mul_pos_pos; [lia | apply Z.pow_pos_nonneg; lia] | lia | lia
                            | exact Hodd | lia |].
      rewrite Z.mul_1_r. fold N b.
      replace (c * 10 ^ (n - 17) * b) with (c * B) by (unfold B; ring). nia. }
    apply orb_true_intro.
    destruct (floor_or_ceil_near m B HB) as [H|H]; [left|right];
      (eapply Hfit; [apply Hc, H | reflexivity]).
  - (* [10^(17-n)] is an integer *)
    set (A := m * 10 ^ (- (n - 17))).
    assert (HA : 0 < A) by (unfold A; pose proof (Z.pow_pos_nonneg 10 (- (n - 17))); nia).
    assert (Hp : 0 < 10 ^ (- (n - 17))) by (apply Z.pow_pos_nonneg; lia).
    assert (HL : b * 10 ^ 16 <= A).
    { unfold A. destruct (0 <=? n - 1) eqn:En; zbool.
      - assert (Ep : 10 ^ (n - 1) * 10 ^ (- (n - 17)) = 10 ^ 16)
          by (rewrite <- Z.pow_add_r by lia; f_equal; lia). nia.
      - assert (Ep : 10 ^ (1 - n) * 10 ^ 16 = 10 ^ (- (n - 17)))
          by (rewrite <- Z.pow_add_r by lia; f_equal; lia). nia. }
    assert (Hc : forall c, 2 * Z.abs (c * b - A) <= b -> round_rat c (10 ^ (- (n - 17))) = NFrac m e).
    { intros c Hc. assert (0 < c) by nia.
      apply round_rat_near; [lia | lia | lia | exact Hodd | lia |].
      fold N b. unfold A in Hc. nia. }
    apply orb_true_intro.
    destruct (floor_or_ceil_near A b Hb) as [H|H]; [left|right];
      (eapply Hfit; [apply Hc, H | reflexivity]).
Qed.

Lemma shortest_ratio_loop_fits f x a b n k :
  1 <= k <= 17 -> 17 < k + Z.of_nat f ->
  fits_ratio x (scaled_floor a b (n - 17)) (n - 17)
  || fits_ratio x (scaled_floor a b (n - 17) + 1) (n - 17) = true ->
  let '(s, j) := shortest_ratio_loop f x a b n k in fits_ratio x s j = true.
Proof.
  revert k. induction f as [|f IH]; intros k Hk Hf H17; [simpl in Hf; lia|].
  cbn [shortest_ratio_loop].
  destruct (fits_ratio x (scaled_floor a b (n - k)) (n - k)) eqn:E1,
           (fits_ratio x (scaled_floor a b (n - k) + 1) (n - k)) eqn:E2; try assumption.
  - destruct (pow10_ratio 1 (n - k)). repeat case_if; assumption.
  - destruct (Z.eq_dec k 17) as [->|Hne]; [rewrite E1, E2 in H17; discriminate|].
    apply IH; [lia | rewrite Nat2Z.inj_succ in Hf; lia | exact H17].
Qed.

Lemma shortest_ratio_fits m e :
  frac_double m e ->
  let '(s, j) := shortest_ratio (NFrac m e) m (2 ^ (- e)) in fits_ratio (NFrac m e) s j = true.
Proof.
  intros Hx. apply shortest_ratio_loop_fits; [lia | simpl; lia | exact (fits_at_17 m e Hx)].
Qed.

(** ** The rounding of a ratio depends on the ratio only *)

Lemma ratio_log2_scale a b c : 0 < a -> 0 < b -> 0 < c -> ratio_log2 (a * c) (b * c) = ratio_log2 a b.
Proof.
  intros Ha Hb Hc. set (r := ratio_log2 a b). set (r' := ratio_log2 (a * c) (b * c)).
  set (K := Z.max 0 (Z.max (- r) (- r'))).
  pose proof (ratio_log2_spec a b K Ha Hb ltac:(lia) ltac:(fold r; lia)) as [H1 H2].
  pose proof (ratio_log2_spec (a * c) (b * c) K ltac:(lia) ltac:(lia) ltac:(lia) ltac:(fold r'; lia))
    as [H3 H4]. fold r r' in H1, H2, H3, H4.
  assert (H3' : b * 2 ^ (K + r') <= a * 2 ^ K) by nia.
  assert (H4' : a * 2 ^ K < b * 2 ^ (K + r' + 1)) by nia.
  destruct (Z.lt_trichotomy r r') as [Hlt|[Heq|Hgt]]; [exfalso| exact (eq_sym Heq) |exfalso].
  - assert (2 ^ (K + r + 1) <= 2 ^ (K + r')) by (apply Z.pow_le_mono_r; lia). nia.
  - assert (2 ^ (K + r' + 1) <= 2 ^ (K + r)) by (apply Z.pow_le_mono_r; lia). nia.
Qed.

Lemma div_round_even_scale a b c : 0 < b -> 0 < c -> div_round_even (a * c) (b * c) = div_round_even a b.
Proof.
  intros Hb Hc. unfold div_round_even.
  rewrite Z.div_mul_cancel_r, Z.mul_mod_distr_r by lia.
  replace (2 * (a mod b * c) <? b * c) with (2 * (a mod b) <? b)
    by (apply Bool.eq_iff_eq_true; rewrite !Z.ltb_lt; nia).
  replace (b * c <? 2 * (a mod b * c)) with (b <? 2 * (a mod b))
    by (apply Bool.eq_iff_eq_true; rewrite !Z.ltb_lt; nia).
  reflexivity.
Qed.

Lemma round_ratio_scale a b c : 0 < a -> 0 < b -> 0 < c -> round_ratio (a * c) (b * c) = round_ratio a b.
Proof.
  intros Ha Hb Hc. unfold round_ratio. rewrite ratio_log2_scale by lia. cbv zeta.
  f_equal. case_if; zbool.
  - rewrite <- Z.mul_assoc, (Z.mul_comm c), Z.mul_assoc.
    apply div_round_even_scale; [apply Z.mul_pos_pos; [lia | apply Z.pow_pos_nonneg; lia] | lia].
  - rewrite <- Z.mul_assoc, (Z.mul_comm c), Z.mul_assoc. apply div_round_even_scale; lia.
Qed.

Lemma round_rat_scale p q c : 0 < q -> 0 < c -> round_rat (p * c) (q * c) = round_rat p q.
Proof.
  intros Hq Hc. unfold round_rat.
  destruct (Z.eq_dec p 0) as [->|Hp]; [reflexivity|].
  replace (p * c =? 0) with false by (symmetry; apply Z.eqb_neq; nia).
  replace (p =? 0) with false by (symmetry; apply Z.eqb_neq; lia).
  rewrite Z.abs_mul, (Z.abs_eq c), round_ratio_scale by lia.
  destruct (round_ratio (Z.abs p) q) as [mm ee].
  rewrite Z.sgn_mul, (Z.sgn_pos c), Z.mul_1_r by lia.
  replace (p * c <? 0) with (p <? 0) by (apply Bool.eq_iff_eq_true; rewrite !Z.ltb_lt; nia).
  reflexivity.
Qed.

Lemma fits_ratio_round_dec x s j : fits_ratio x s j = jsnum_eqb (round_dec s j) x.
Proof. unfold fits_ratio, round_dec. now destruct (pow10_ratio s j). Qed.

Lemma jsnum_eqb_eq x y : jsnum_eqb x y = true -> x = y.
Proof.
  destruct x, y; simpl; intros H; try discriminate; try reflexivity;
    [apply Z.eqb_eq in H; now subst | apply andb_prop in H as [H1 H2];
     apply Z.eqb_eq in H1, H2; now subst].
Qed.

Lemma round_dec_shift s t j : 0 <= t -> round_dec (s * 10 ^ t) j = round_dec s (j + t).
Proof.
  intros Ht. unfold round_dec, pow10_ratio.
  assert (H10 : forall x, 0 <= x -> 0 < 10 ^ x) by (intros; apply Z.pow_pos_nonneg; lia).
  case_if; zbool; case_if; zbool.
  - f_equal. rewrite <- Z.mul_assoc, <- Z.pow_add_r by lia. f_equal. f_equal. lia.
  - lia.
  - rewrite <- (round_rat_scale (s * 10 ^ (j + t)) 1 (10 ^ (- j))) by (lia || apply H10; lia).
    f_equal; [|lia]. rewrite <- Z.mul_assoc, <- Z.pow_add_r by lia. f_equal. f_equal. lia.
  - rewrite <- (round_rat_scale s (10 ^ (- (j + t))) (10 ^ t)) by (apply H10; lia).
    rewrite <- Z.pow_add_r by lia. f_equal. f_equal. lia.
Qed.

Lemma strip_zeros_value f s e :
  let '(s', e') := strip_zeros f s e in e <= e' /\ s = s' * 10 ^ (e' - e) /\ (0 < s -> 0 < s').
Proof.
  revert s e. induction f as [|f IH]; intros s e; simpl.
  - rewrite Z.sub_diag, Z.mul_1_r. lia.
  - destruct ((s mod 10 =? 0) && (0 <? s)) eqn:Hz; [|rewrite Z.sub_diag, Z.mul_1_r; lia].
    apply andb_prop in Hz as [Hz Hs]. zbool.
    specialize (IH (s / 10) (e + 1)). destruct (strip_zeros f (s / 10) (e + 1)) as [s' e'].
    destruct IH as (H1 & H2 & H3). split; [lia|]. split.
    + pose proof (Z.div_mod s 10 ltac:(lia)) as Hdm. rewrite Hz, Z.add_0_r in Hdm.
      replace (e' - e) with (Z.succ (e' - (e + 1))) by lia. rewrite Z.pow_succ_r by lia. nia.
    + intros _. apply H3. pose proof (Z.div_mod s 10 ltac:(lia)). apply Z.div_str_pos. lia.
Qed.

Lemma div_round_even_nonneg a b : 0 <= a -> 0 < b -> 0 <= div_round_even a b.
Proof.
  intros Ha Hb. unfold div_round_even. pose proof (Z.div_pos a b Ha Hb). repeat case_if; lia.
Qed.

(** A ratio that is not positive does not round to a positive double. *)
Lemma round_rat_nonpos p q m e : p <= 0 -> 0 < q -> round_rat p q = NFrac m e -> m <= 0.
Proof.
  intros Hp Hq. unfold round_rat.
  destruct (Z.eq_dec p 0) as [->|Hne]; [discriminate|].
  replace (p =? 0) with false by (symmetry; apply Z.eqb_neq; lia).
  destruct (round_ratio (Z.abs p) q) as [mm ee] eqn:R.
  assert (Hmm : 0 <= mm).
  { unfold round_ratio in R. cbv zeta in R. injection R as <- _.
    case_if; apply div_round_even_nonneg; try apply Z.mul_nonneg_nonneg; try apply Z.mul_pos_pos;
      try apply Z.pow_nonneg; try apply Z.pow_pos_nonneg; zbool; lia. }
  rewrite Z.sgn_neg by lia. case_if; [case_if; discriminate|].
  unfold dyadic. case_if; [discriminate|]. cbv zeta. case_if; [discriminate|].
  intros H. assert (Hm2 : (-1 * mm) / Z.gcd (-1 * mm) (2 ^ (- ee)) = m) by congruence. rewrite <- Hm2. apply Z.div_le_upper_bound; [|lia].
  assert (Z.gcd (-1 * mm) (2 ^ (- ee)) <> 0).
  { intros Hg. apply Z.gcd_eq_0 in Hg as [_ Hg]. zbool.
    assert (0 < 2 ^ (- ee)) by (apply Z.pow_pos_nonneg; lia). lia. }
  pose proof (Z.gcd_nonneg (-1 * mm) (2 ^ (- ee))). lia.
Qed.

Lemma round_dec_pos s j m e : round_dec s j = NFrac m e -> 0 < m -> 0 < s.
Proof.
  intros H Hm. destruct (Z_lt_le_dec 0 s) as [|Hs]; [assumption|]. exfalso.
  unfold round_dec, pow10_ratio in H. destruct (0 <=? j) eqn:Ej; zbool.
  - apply round_rat_nonpos in H; [lia | | lia]. pose proof (Z.pow_nonneg 10 j ltac:(lia)). nia.
  - apply round_rat_nonpos in H; [lia | lia | apply Z.pow_pos_nonneg; lia].
Qed.

(** The digits [frac_to_string] prints denote a ratio that rounds back
    to the double. *)
Lemma frac_to_string_digits m e :
  frac_double m e ->
  exists s j, frac_to_string m e = digits_to_string s j /\ 0 < s /\ round_dec s j = NFrac m e.
Proof.
  intros Hx. unfold frac_to_string. pose proof (shortest_ratio_fits m e Hx) as Hf.
  destruct (shortest_ratio (NFrac m e) m (2 ^ (- e))) as [s j].
  rewrite fits_ratio_round_dec in Hf. apply jsnum_eqb_eq in Hf.
  assert (Hs : 0 < s) by (apply (round_dec_pos s j m e Hf); destruct Hx; lia).
  pose proof (strip_zeros_value (dec_fuel s) s j) as Hz.
  destruct (strip_zeros (dec_fuel s) s j) as [s' j']. destruct Hz as (H1 & H2 & H3).
  exists s', j'. split; [reflexivity|]. split; [auto|].
  rewrite <- Hf, H2, round_dec_shift by lia. f_equal. lia.
Qed.

(** ** Negation *)

Lemma dyadic_opp x e : dyadic (- x) e = jsnum_neg (dyadic x e).
Proof.
  unfold dyadic. case_if; [simpl; f_equal; ring|]. zbool. cbv zeta.
  rewrite Z.gcd_opp_l.
  assert (Hg : Z.gcd x (2 ^ (- e)) <> 0).
  { intros Hg. apply Z.gcd_eq_0 in Hg as [_ Hg].
    assert (0 < 2 ^ (- e)) by (apply Z.pow_pos_nonneg; lia). lia. }
  rewrite Z.div_opp_l_z by first [exact Hg | apply (proj2 (Z.mod_divide _ _ Hg)), Z.gcd_divide_l].
  case_if; reflexivity.
Qed.

Lemma round_rat_opp p q : round_rat (- p) q = jsnum_neg (round_rat p q).
Proof.
  unfold round_rat. destruct (Z.eq_dec p 0) as [->|Hp]; [reflexivity|].
  replace (- p =? 0) with false by (symmetry; apply Z.eqb_neq; lia).
  replace (p =? 0) with false by (symmetry; apply Z.eqb_neq; lia).
  rewrite Z.abs_opp. destruct (round_ratio (Z.abs p) q) as [mm ee].
  case_if.
  - destruct (Z_lt_le_dec p 0).
    + replace (- p <? 0) with false by (symmetry; apply Z.ltb_ge; lia).
      replace (p <? 0) with true by (symmetry; apply Z.ltb_lt; lia). reflexivity.
    + replace (- p <? 0) with true by (symmetry; apply Z.ltb_lt; lia).
      replace (p <? 0) with false by (symmetry; apply Z.ltb_ge; lia). reflexivity.
  - rewrite Z.sgn_opp, Z.mul_opp_l. apply dyadic_opp.
Qed.

Lemma round_dec_opp s j : round_dec (- s) j = jsnum_neg (round_dec s j).
Proof.
  unfold round_dec, pow10_ratio. case_if; rewrite <- round_rat_opp; f_equal; ring.
Qed.

(** ** Reading the printed digits back *)

Lemma radix_digit_dec c : is_digit_char c -> exists d, radix_digit 10 c = Some d.
Proof. intros H. apply dec_digit_cases in H. simpl in H. intuition (subst; eexists; reflexivity). Qed.

Lemma radix_value_acc_digits acc l :
  Forall is_digit_char l -> exists v, radix_value_acc 10 acc l = Some v.
Proof.
  intros H. revert acc. induction H as [|c l Hc _ IH]; intros acc; [eexists; reflexivity|].
  simpl. destruct (radix_digit_dec c Hc) as [d ->]. apply IH.
Qed.

(** Digits followed by a character that is no digit are no number. *)
Lemma radix_value_acc_stop acc l c r :
  Forall is_digit_char l -> radix_digit 10 c = None -> radix_value_acc 10 acc (l ++ c :: r) = None.
Proof.
  intros Hl Hc. rewrite radix_value_acc_app. destruct (radix_value_acc_digits acc l Hl) as [v ->].
  simpl. now rewrite Hc.
Qed.

Lemma radix_value_acc_zeros a t : radix_value_acc 10 a (repeat "0"%char t) = Some (a * 10 ^ Z.of_nat t).
Proof.
  revert a. induction t as [|t IH]; intros a; [simpl; f_equal; lia|].
  change (repeat "0"%char (S t)) with ("0"%char :: repeat "0"%char t).
  cbn [radix_value_acc]. replace (radix_digit 10 "0"%char) with (Some 0) by reflexivity.
  rewrite IH. f_equal. rewrite Nat2Z.inj_succ, Z.pow_succ_r by lia. lia.
Qed.

Lemma radix_value_acc_zero_prefix t l :
  radix_value_acc 10 0 (repeat "0"%char t ++ l) = radix_value_acc 10 0 l.
Proof. induction t as [|t IH]; [reflexivity | exact IH]. Qed.

Lemma dec_chars_acc s : 0 <= s -> radix_value_acc 10 0 (dec_chars s) = Some s.
Proof.
  intros Hs. pose proof (dec_chars_value s Hs) as H. unfold radix_value in H.
  destruct (dec_chars s); [discriminate | exact H].
Qed.

Lemma zeros_digits t : Forall is_digit_char (zeros t).
Proof. apply Forall_forall. intros c Hc. apply repeat_spec in Hc. now subst. Qed.

Lemma digits_forallb l : Forall is_digit_char l -> forallb is_dec_digit l = true.
Proof. intros H. apply forallb_forall. intros c Hc. exact (proj1 (Forall_forall _ _) H c Hc). Qed.

Lemma digit_not_infinity c r :
  is_digit_char c ->
  ((of_chars (c :: r) =? "Infinity") || (of_chars (c :: r) =? "+Infinity"))%string = false /\
  (of_chars (c :: r) =? "-Infinity")%string = false /\
  ((of_chars ("-"%char :: c :: r) =? "Infinity") || (of_chars ("-"%char :: c :: r) =? "+Infinity"))%string
    = false /\
  (of_chars ("-"%char :: c :: r) =? "-Infinity")%string = false.
Proof. intros H. apply dec_digit_cases in H. simpl in H. intuition (subst; reflexivity). Qed.

Lemma str_decimal_digit c r :
  is_digit_char c -> str_decimal_ratio (c :: r) = unsigned_decimal_ratio (c :: r).
Proof. intros H. apply dec_digit_cases in H. simpl in H. intuition (subst; reflexivity). Qed.

(** A text that starts with a digit, is no integer literal and is a
    decimal literal reads as the rounding of the ratio it denotes, and
    with a minus sign before it as the opposite. *)
Lemma string_to_number_decimal c r p q :
  is_digit_char c -> Forall (fun x => is_js_space x = false) (c :: r) ->
  int_literal (c :: r) = None -> radix_value 10 (c :: r) = None ->
  unsigned_decimal_ratio (c :: r) = Some (p, q) ->
  string_to_number (of_chars (c :: r)) = round_rat p q /\
  string_to_number (of_chars ("-"%char :: c :: r)) = round_rat (- p) q.
Proof.
  intros Hc Hs Hi Hr Hu. destruct (digit_not_infinity c r Hc) as (H1 & H2 & H3 & H4).
  unfold string_to_number. rewrite !list_ascii_of_string_of_list_ascii.
  rewrite !trim_id by (repeat constructor; auto; inversion Hs; auto).
  cbv zeta. rewrite H1, H2, H3, H4. split.
  - rewrite Hi, str_decimal_digit, Hu by exact Hc. reflexivity.
  - change (int_literal ("-"%char :: c :: r)) with (option_map Z.opp (radix_value 10 (c :: r))).
    rewrite Hr. change (str_decimal_ratio ("-"%char :: c :: r))
      with (option_map (fun pq => (- fst pq, snd pq)) (unsigned_decimal_ratio (c :: r))).
    rewrite Hu. reflexivity.
Qed.

Lemma decimal_text_round c r s j :
  is_digit_char c -> Forall (fun x => is_js_space x = false) (c :: r) ->
  int_literal (c :: r) = None -> radix_value 10 (c :: r) = None ->
  unsigned_decimal_ratio (c :: r) = Some (pow10_ratio s j) ->
  string_to_number (of_chars (c :: r)) = round_dec s j /\
  string_to_number (of_chars ("-"%char :: c :: r)) = jsnum_neg (round_dec s j).
Proof.
  intros Hc Hs Hi Hr Hu. rewrite <- round_dec_opp. unfold round_dec.
  destruct (pow10_ratio s j) as [p q] eqn:E.
  destruct (string_to_number_decimal c r p q Hc Hs Hi Hr Hu) as [-> ->]. split; [reflexivity|].
  replace (pow10_ratio (- s) j) with (- p, q); [reflexivity|].
  unfold pow10_ratio in *. case_if; inversion E; f_equal; ring.
Qed.

Lemma int_literal_lead d r :
  1 <= d <= 9 -> int_literal (digit_char d :: r) = radix_value 10 (digit_char d :: r).
Proof.
  intros Hd. assert (d = 1 \/ d = 2 \/ d = 3 \/ d = 4 \/ d = 5 \/ d = 6 \/ d = 7 \/ d = 8 \/ d = 9)
    by lia. intuition (subst; reflexivity).
Qed.

Lemma is_digit_char_digit d : 0 <= d < 10 -> is_digit_char (digit_char d).
Proof. apply digit_char_is_digit. Qed.

Lemma Forall_firstn_skipn {A} (P : A -> Prop) n l :
  Forall P l -> Forall P (firstn n l) /\ Forall P (skipn n l).
Proof. intros H. rewrite <- (firstn_skipn n l) in H. now apply Forall_app in H. Qed.

Lemma span_digits_all l : Forall is_digit_char l -> span is_dec_digit l = (l, []).
Proof.
  intros H. rewrite <- (app_nil_r l) at 1. apply span_all; [apply digits_forallb, H | exact I].
Qed.

(** The shape of the digits of a positive number. *)
Lemma dec_chars_facts s :
  0 < s -> exists d rest, dec_chars s = digit_char d :: rest /\ 1 <= d <= 9 /\
    Forall is_digit_char (digit_char d :: rest) /\ radix_value_acc 10 0 (dec_chars s) = Some s.
Proof.
  intros Hs. destruct (dec_chars_lead s Hs) as (d & rest & E & Hd). exists d, rest.
  rewrite <- E. repeat split; try lia; [apply dec_chars_digits; lia | apply dec_chars_acc; lia].
Qed.

(** Positional notation with a point inside the digits. *)
Lemma point_layout_parse s n :
  0 < s -> 0 < n < Z.of_nat (length (dec_chars s)) ->
  let l := firstn (Z.to_nat n) (dec_chars s) ++ "."%char :: skipn (Z.to_nat n) (dec_chars s) in
  string_to_number (of_chars l) = round_dec s (n - Z.of_nat (length (dec_chars s))) /\
  string_to_number (of_chars ("-"%char :: l)) =
    jsnum_neg (round_dec s (n - Z.of_nat (length (dec_chars s)))).
Proof.
  intros Hs Hn. cbv zeta. destruct (dec_chars_facts s Hs) as (d & rest & E & Hd & Hall & Hv).
  rewrite E in *. set (ds := digit_char d :: rest) in *.
  destruct (Forall_firstn_skipn _ (Z.to_nat n) ds Hall) as [Hf Hk].
  destruct (Z.to_nat n) as [|n'] eqn:En; [lia|].
  change (firstn (S n') ds) with (digit_char d :: firstn n' rest).
  apply decimal_text_round.
  - apply is_digit_char_digit. lia.
  - rewrite app_comm_cons. apply Forall_app. split; [apply digits_not_space; exact Hf|].
    constructor; [reflexivity | apply digits_not_space; exact Hk].
  - rewrite int_literal_lead by exact Hd. unfold radix_value.
    rewrite app_comm_cons. apply radix_value_acc_stop; [exact Hf | reflexivity].
  - unfold radix_value. rewrite app_comm_cons. apply radix_value_acc_stop; [exact Hf | reflexivity].
  - unfold unsigned_decimal_ratio. rewrite app_comm_cons.
    rewrite span_all by (try apply digits_forallb; auto). cbn iota beta.
    rewrite span_digits_all by exact Hk. change (digit_char d :: firstn n' rest) with (firstn (S n') ds).
    rewrite firstn_skipn. unfold radix_value. subst ds. rewrite Hv. simpl exponent_value.
    rewrite length_skipn. do 2 f_equal. lia.
Qed.

(** Positional notation of an integer: the digits, then zeros. *)
Lemma int_layout_parse s t :
  0 < s -> 0 <= t ->
  let l := dec_chars s ++ zeros t in
  string_to_number (of_chars l) = round_dec s t /\
  string_to_number (of_chars ("-"%char :: l)) = jsnum_neg (round_dec s t).
Proof.
  intros Hs Ht. cbv zeta. destruct (dec_chars_facts s Hs) as (d & rest & E & Hd & Hall & Hv).
  assert (Hl : Forall is_digit_char (dec_chars s ++ zeros t))
    by (apply Forall_app; split; [rewrite E; exact Hall | apply zeros_digits]).
  assert (Hr : radix_value 10 (dec_chars s ++ zeros t) = Some (s * 10 ^ t)).
  { unfold radix_value. rewrite radix_value_acc_app, Hv.
    unfold zeros. rewrite radix_value_acc_zeros, Z2Nat.id by exact Ht. now rewrite E. }
  rewrite <- round_dec_opp. unfold round_dec, pow10_ratio.
  rewrite (proj2 (Z.leb_le 0 t) Ht), !round_rat_one.
  rewrite (string_to_number_digits _ _ Hl Hr), (string_to_number_neg_digits _ _ Hl Hr).
  split; f_equal; ring.
Qed.

(** Positional notation below one: [0.], zeros, then the digits. *)
Lemma small_layout_parse s z :
  0 < s -> 0 <= z ->
  let l := "0"%char :: "."%char :: zeros z ++ dec_chars s in
  string_to_number (of_chars l) = round_dec s (- z - Z.of_nat (length (dec_chars s))) /\
  string_to_number (of_chars ("-"%char :: l)) =
    jsnum_neg (round_dec s (- z - Z.of_nat (length (dec_chars s)))).
Proof.
  intros Hs Hz. cbv zeta. destruct (dec_chars_facts s Hs) as (d & rest & E & Hd & Hall & Hv).
  assert (Hk : Forall is_digit_char (zeros z ++ dec_chars s))
    by (apply Forall_app; split; [apply zeros_digits | rewrite E; exact Hall]).
  apply decimal_text_round; [reflexivity | | reflexivity | reflexivity |].
  - constructor; [reflexivity|]. constructor; [reflexivity|]. now apply digits_not_space.
  - unfold unsigned_decimal_ratio. change (span is_dec_digit ("0"%char :: "."%char :: zeros z ++ dec_chars s))
      with (["0"%char], "."%char :: zeros z ++ dec_chars s). cbn iota beta.
    rewrite span_digits_all by exact Hk. unfold radix_value.
    change (["0"%char] ++ zeros z ++ dec_chars s) with (repeat "0"%char (S (Z.to_nat z)) ++ dec_chars s).
    rewrite radix_value_acc_zero_prefix, Hv. simpl exponent_value.
    rewrite length_app. unfold zeros. rewrite repeat_length. cbn [repeat app]. do 2 f_equal. lia.
Qed.

Lemma exp_text_chars mant (x : Z) :
  (of_chars mant ++ "e" ++ (if (x <? 0)%Z then "-" else "+") ++ dec_string (Z.abs x))%string =
  of_chars (mant ++ "e"%char :: (if x <? 0 then "-"%char else "+"%char) :: dec_chars (Z.abs x)).
Proof. rewrite of_chars_app. unfold dec_string. now destruct (x <? 0). Qed.

Lemma exponent_value_sign x :
  exponent_value ("e"%char :: (if x <? 0 then "-"%char else "+"%char) :: dec_chars (Z.abs x)) =
  Some x.
Proof.
  pose proof (dec_chars_value (Z.abs x) (Z.abs_nonneg x)) as Hv.
  destruct (Z.ltb_spec x 0); cbn [exponent_value];
    change (is_exp_mark "e"%char) with true; cbv iota; rewrite Hv; simpl option_map; f_equal; lia.
Qed.

(** Exponent notation: the first digit, the point and the other digits
    when there are any, [e], the sign and the digits of the exponent. *)
Lemma exp_layout_parse s x :
  0 < s ->
  let ds := dec_chars s in
  let mant := match ds with [c] => [c] | c :: rest => c :: "."%char :: rest | [] => [] end in
  let l := mant ++ "e"%char :: (if x <? 0 then "-"%char else "+"%char) :: dec_chars (Z.abs x) in
  string_to_number (of_chars l) = round_dec s (x + 1 - Z.of_nat (length ds)) /\
  string_to_number (of_chars ("-"%char :: l)) = jsnum_neg (round_dec s (x + 1 - Z.of_nat (length ds))).
Proof.
  intros Hs. cbv zeta. destruct (dec_chars_facts s Hs) as (d & rest & E & Hd & Hall & Hv).
  rewrite E in *. set (T := "e"%char :: _ :: dec_chars (Z.abs x)).
  assert (HT : Forall (fun c => is_js_space c = false) T).
  { constructor; [reflexivity|]. constructor; [now destruct (x <? 0)|].
    apply digits_not_space, dec_chars_digits, Z.abs_nonneg. }
  assert (Hrad : forall c r, radix_digit 10 c = None ->
            radix_value 10 (digit_char d :: c :: r) = None)
    by (intros c r Hc; apply (radix_value_acc_stop 0 [digit_char d] c r); [inversion Hall; auto | exact Hc]).
  inversion Hall as [|? ? Hd1 Hr]; subst.
  destruct rest as [|c2 r'].
  - apply (decimal_text_round (digit_char d) T); [exact Hd1 | constructor; [now apply digit_not_space | exact HT]
      | rewrite int_literal_lead by exact Hd; now apply Hrad | now apply Hrad |].
    unfold unsigned_decimal_ratio.
    change (digit_char d :: T) with ([digit_char d] ++ T).
    rewrite span_all by (reflexivity || (apply digits_forallb; repeat constructor; assumption)).
    unfold T. cbn iota beta. rewrite app_nil_r. unfold radix_value. rewrite Hv, exponent_value_sign.
    do 2 f_equal. simpl. lia.
  - apply (decimal_text_round (digit_char d) ("."%char :: (c2 :: r') ++ T)); [exact Hd1 | | rewrite int_literal_lead by exact Hd; now apply Hrad
      | now apply Hrad |].
    + constructor; [now apply digit_not_space|]. constructor; [reflexivity|].
      apply Forall_app. split; [now apply digits_not_space | exact HT].
    + unfold unsigned_decimal_ratio.
      change (digit_char d :: "."%char :: (c2 :: r') ++ T)
        with ([digit_char d] ++ "."%char :: (c2 :: r') ++ T).
      rewrite span_all by (reflexivity || (apply digits_forallb; repeat constructor; assumption)).
      unfold T. cbn iota beta. rewrite span_all by (reflexivity || (apply digits_forallb; exact Hr)).
      change ([digit_char d] ++ c2 :: r') with (digit_char d :: c2 :: r'). unfold radix_value. rewrite Hv, exponent_value_sign.
      do 2 f_equal. simpl length. lia.
Qed.

(** The layout [digits_to_string s j] reads back as [s * 10^j] rounded,
    and with a minus sign in front as its negation. *)
Lemma digits_to_string_parse s j :
  0 < s ->
  string_to_number (digits_to_string s j) = round_dec s j /\
  string_to_number ("-" ++ digits_to_string s j)%string = jsnum_neg (round_dec s j).
Proof.
  intros Hs. unfold digits_to_string. cbv zeta.
  set (k := Z.of_nat (length (dec_chars s))).
  destruct ((k <=? k + j) && (k + j <=? 21)) eqn:C1.
  { split_conds. destruct (int_layout_parse s (k + j - k) Hs) as [A B]; [lia|].
    replace (k + j - k) with j in * by lia. exact (conj A B). }
  destruct ((0 <? k + j) && (k + j <=? 21)) eqn:C2.
  { destruct (point_layout_parse s (k + j) Hs) as [A B]; [split_conds; lia|].
    fold k in A, B. replace (k + j - k) with j in * by lia. exact (conj A B). }
  destruct ((-6 <? k + j) && (k + j <=? 0)) eqn:C3.
  { destruct (small_layout_parse s (- (k + j)) Hs) as [A B]; [split_conds; lia|].
    fold k in A, B. replace (- - (k + j) - k) with j in * by lia. exact (conj A B). }
  rewrite exp_text_chars. destruct (exp_layout_parse s (k + j - 1) Hs) as [A B].
  fold k in A, B. replace (k + j - 1 + 1 - k) with j in * by lia. exact (conj A B).
Qed.

Lemma round_dec_nonneg s j : 0 <= j -> round_dec s j = round_double (s * 10 ^ j).
Proof.
  intros Hj. unfold round_dec, pow10_ratio. rewrite (proj2 (Z.leb_le 0 j) Hj).
  apply round_rat_one.
Qed.

(** Exponent notation [d.ddde+x] of a number at least 10^21 reads back
    as the number rounded. *)
Lemma exponent_form_parse s e :
  0 < s * 10 ^ e ->
  string_to_number (exponent_form s e) = round_double (s * 10 ^ e) /\
  string_to_number ("-" ++ exponent_form s e)%string = round_double (- (s * 10 ^ e)).
Proof.
  intros Hv. assert (He : 0 <= e) by (destruct (Z_le_gt_dec 0 e); [lia|];
    rewrite Z.pow_neg_r in Hv by lia; lia).
  assert (Hs : 0 < s) by (pose proof (Z.pow_pos_nonneg 10 e); nia).
  unfold exponent_form. pose proof (strip_zeros_value (dec_fuel s) s e) as Hz.
  destruct (strip_zeros (dec_fuel s) s e) as [s' e']. destruct Hz as (He' & Hss & Hp).
  specialize (Hp Hs).
  assert (Hk : 1 <= Z.of_nat (length (dec_chars s'))).
  { destruct (dec_chars_facts s' Hp) as (d & r & -> & _). simpl. lia. }
  set (k := Z.of_nat (length (dec_chars s'))) in *. cbv zeta.
  replace ("e+" ++ dec_string (k + e' - 1))%string
    with ("e" ++ (if (k + e' - 1 <? 0)%Z then "-" else "+") ++ dec_string (Z.abs (k + e' - 1)))%string
    by (rewrite Z.abs_eq, (proj2 (Z.ltb_ge _ 0)) by lia; reflexivity).
  rewrite exp_text_chars. destruct (exp_layout_parse s' (k + e' - 1) Hp) as [A B].
  fold k in A, B. replace (k + e' - 1 + 1 - k) with e' in A, B by lia.
  assert (Hv' : s * 10 ^ e = s' * 10 ^ e')
    by (rewrite Hss, <- Z.mul_assoc, <- Z.pow_add_r by lia; f_equal; f_equal; lia).
  rewrite Hv'. split; [rewrite A; apply round_dec_nonneg; lia|].
  transitivity (jsnum_neg (round_dec s' e')); [exact B|].
  rewrite <- round_dec_opp, round_dec_nonneg by lia. f_equal. ring.
Qed.

(** A positive integral double prints as a text that reads back as an
    integer rounding to it, in positional or in exponent notation. *)
Lemma pos_to_string_reads m :
  0 < m -> round_mag m = m ->
  exists v, string_to_number (pos_to_string m) = round_double v /\
    string_to_number ("-" ++ pos_to_string m)%string = round_double (- v) /\
    round_mag v = m /\ 0 <= v.
Proof.
  intros Hp Hm. unfold pos_to_string, shortest.
  pose proof (shortest_loop_fits (Z.to_nat (ndigits m)) m (ndigits m) 1 Hm) as H.
  destruct (shortest_loop _ m (ndigits m) 1) as [s e].
  assert (Hv : 0 < s * 10 ^ e) by (apply round_mag_pos; lia).
  exists (s * 10 ^ e). case_if; zbool.
  - rewrite string_to_number_dec, string_to_number_neg_dec by lia. repeat split; lia.
  - destruct (exponent_form_parse s e Hv) as [A B]. repeat split; auto; lia.
Qed.

Lemma frac_to_string_reads m e :
  frac_double m e ->
  string_to_number (frac_to_string m e) = NFrac m e /\
  string_to_number ("-" ++ frac_to_string m e)%string = NFrac (- m) e.
Proof.
  intros Hx. destruct (frac_to_string_digits m e Hx) as (s & j & -> & Hs & Hr).
  destruct (digits_to_string_parse s j Hs) as [A B]. rewrite A, B, Hr. now split.
Qed.

(** Number::toString followed by StringToNumber is the identity on every
    finite double. *)
Lemma number_to_string_reads x :
  is_finite_double x = true -> string_to_number (number_to_string x) = x.
Proof.
  destruct x as [z|m e| | |]; cbv beta iota delta [is_finite_double number_to_string]; try discriminate.
  - intros Hd. apply is_double_iff in Hd as [? ?]. unfold double_limit in *.
    destruct (Z.eq_dec z 0) as [->|Hz]; [reflexivity|].
    rewrite (proj2 (Z.eqb_neq z 0) Hz). case_if; zbool.
    + rewrite Z.abs_neq in * by lia.
      destruct (pos_to_string_reads (- z)) as (v & _ & -> & Hr & Hv); try lia.
      rewrite round_double_fin_neg by (unfold double_limit; lia). f_equal. lia.
    + rewrite Z.abs_eq in * by lia.
      destruct (pos_to_string_reads z) as (v & -> & _ & Hr & Hv); try lia.
      rewrite round_double_fin_pos by (unfold double_limit; lia). now f_equal.
  - intros Hd. split_conds. case_if; zbool.
    + rewrite Z.abs_neq in * by lia.
      destruct (frac_to_string_reads (- m) e) as [_ ->];
        [repeat split; try lia; now rewrite Z.odd_opp | now rewrite Z.opp_involutive].
    + rewrite Z.abs_eq in * by lia.
      apply frac_to_string_reads. repeat split; auto; lia.
Qed.

(** ** The printed text is a JSON number *)

Lemma dec_chars_nonempty v : 0 <= v -> exists c r, dec_chars v = c :: r.
Proof.
  intros Hv. pose proof (dec_chars_value v Hv) as H. unfold radix_value in H.
  destruct (dec_chars v) as [|c r]; [discriminate | eauto].
Qed.

Lemma exp_part_sign x : exp_part ("e"%char :: (if x <? 0 then "-"%char else "+"%char) :: dec_chars (Z.abs x)).
Proof.
  right. destruct (dec_chars_nonempty (Z.abs x) (Z.abs_nonneg x)) as (c & r & E).
  exists (if x <? 0 then "-"%char else "+"%char), c, r. rewrite E. repeat split.
  - destruct (x <? 0); auto.
  - rewrite <- E. apply dec_chars_digits, Z.abs_nonneg.
Qed.

Lemma int_part_lead d r : 1 <= d <= 9 -> Forall is_digit_char (digit_char d :: r) -> int_part (digit_char d :: r).
Proof. intros Hd Hr. right. exists d, r. inversion Hr. auto. Qed.

Lemma layout_int s t : 0 < s -> decimal_layout (dec_chars s ++ zeros t).
Proof.
  intros Hs. destruct (dec_chars_facts s Hs) as (d & r & E & Hd & Hall & _).
  exists (dec_chars s ++ zeros t), [], []. rewrite !app_nil_r. repeat split; try now left.
  rewrite E. apply int_part_lead; [exact Hd|]. rewrite app_comm_cons. apply Forall_app.
  split; [exact Hall | apply zeros_digits].
Qed.

Lemma layout_point s n :
  0 < s -> 0 < n < Z.of_nat (length (dec_chars s)) ->
  decimal_layout (firstn (Z.to_nat n) (dec_chars s) ++ "."%char :: skipn (Z.to_nat n) (dec_chars s)).
Proof.
  intros Hs Hn. destruct (dec_chars_facts s Hs) as (d & r & E & Hd & Hall & _).
  destruct (Forall_firstn_skipn _ (Z.to_nat n) _ Hall) as [Hf Hk]. rewrite E in *.
  destruct (skipn (Z.to_nat n) (digit_char d :: r)) as [|c ds] eqn:Es.
  { apply (f_equal (@length ascii)) in Es. rewrite length_skipn in Es. cbn [length] in Es, Hn. lia. }
  destruct (Z.to_nat n) as [|n'] eqn:En; [lia|].
  exists (firstn (S n') (digit_char d :: r)), ("."%char :: c :: ds), []. rewrite app_nil_r.
  repeat split; try now left.
  - apply int_part_lead; assumption.
  - right. eauto.
Qed.

Lemma layout_small s z : 0 < s -> decimal_layout ("0"%char :: "."%char :: zeros z ++ dec_chars s).
Proof.
  intros Hs. destruct (dec_chars_facts s Hs) as (d & r & E & _ & Hall & _).
  assert (Hk : Forall is_digit_char (zeros z ++ dec_chars s))
    by (apply Forall_app; split; [apply zeros_digits | rewrite E; exact Hall]).
  destruct (zeros z ++ dec_chars s) as [|c ds] eqn:Ez.
  { apply (f_equal (@length ascii)) in Ez. rewrite length_app, E in Ez. simpl in Ez. lia. }
  exists ["0"%char], ("."%char :: c :: ds), []. rewrite app_nil_r.
  repeat split; [now left | right; eauto | now left].
Qed.

Lemma layout_exp s x :
  0 < s ->
  decimal_layout (match dec_chars s with [c] => [c] | c :: rest => c :: "."%char :: rest | [] => [] end
                  ++ "e"%char :: (if x <? 0 then "-"%char else "+"%char) :: dec_chars (Z.abs x)).
Proof.
  intros Hs. destruct (dec_chars_facts s Hs) as (d & r & E & Hd & Hall & _). rewrite E.
  inversion Hall as [|? ? Hd1 Hr]; subst.
  assert (Hi : int_part [digit_char d]) by (apply int_part_lead; auto).
  destruct r as [|c r].
  - exists [digit_char d], [], ("e"%char :: (if x <? 0 then "-"%char else "+"%char) :: dec_chars (Z.abs x)).
    repeat split; [exact Hi | now left | apply exp_part_sign].
  - exists [digit_char d], ("."%char :: c :: r), ("e"%char :: (if x <? 0 then "-"%char else "+"%char) :: dec_chars (Z.abs x)).
    repeat split; [exact Hi | right; eauto | apply exp_part_sign].
Qed.

Lemma digits_to_string_layout s j :
  0 < s -> exists l, digits_to_string s j = of_chars l /\ decimal_layout l.
Proof.
  intros Hs. unfold digits_to_string. cbv zeta.
  set (k := Z.of_nat (length (dec_chars s))).
  destruct ((k <=? k + j) && (k + j <=? 21)) eqn:C1; [eexists; split; [reflexivity | now apply layout_int]|].
  destruct ((0 <? k + j) && (k + j <=? 21)) eqn:C2.
  { eexists; split; [reflexivity | apply layout_point; [exact Hs | split_conds; lia]]. }
  destruct ((-6 <? k + j) && (k + j <=? 0)) eqn:C3; [eexists; split; [reflexivity | now apply layout_small]|].
  rewrite exp_text_chars. eexists; split; [reflexivity | now apply layout_exp].
Qed.

Lemma exponent_form_layout s e :
  0 < s * 10 ^ e -> exists l, exponent_form s e = of_chars l /\ decimal_layout l.
Proof.
  intros Hv. assert (He : 0 <= e) by (destruct (Z_le_gt_dec 0 e); [lia|];
    rewrite Z.pow_neg_r in Hv by lia; lia).
  assert (Hs : 0 < s) by (pose proof (Z.pow_pos_nonneg 10 e); nia).
  unfold exponent_form. pose proof (strip_zeros_value (dec_fuel s) s e) as Hz.
  destruct (strip_zeros (dec_fuel s) s e) as [s' e']. destruct Hz as (He' & _ & Hp).
  specialize (Hp Hs).
  assert (Hk : 1 <= Z.of_nat (length (dec_chars s'))).
  { destruct (dec_chars_facts s' Hp) as (d & r & -> & _). simpl. lia. }
  set (k := Z.of_nat (length (dec_chars s'))) in *. cbv zeta.
  replace ("e+" ++ dec_string (k + e' - 1))%string
    with ("e" ++ (if (k + e' - 1 <? 0)%Z then "-" else "+") ++ dec_string (Z.abs (k + e' - 1)))%string
    by (rewrite Z.abs_eq, (proj2 (Z.ltb_ge _ 0)) by lia; reflexivity).
  rewrite exp_text_chars. eexists; split; [reflexivity | now apply layout_exp].
Qed.

Lemma pos_to_string_layout m :
  0 < m -> round_mag m = m -> exists l, pos_to_string m = of_chars l /\ decimal_layout l.
Proof.
  intros Hp Hm. unfold pos_to_string, shortest.
  pose proof (shortest_loop_fits (Z.to_nat (ndigits m)) m (ndigits m) 1 Hm) as H.
  destruct (shortest_loop _ m (ndigits m) 1) as [s e].
  assert (Hv : 0 < s * 10 ^ e) by (apply round_mag_pos; lia).
  case_if; [|now apply exponent_form_layout].
  exists (dec_chars (s * 10 ^ e)). split; [reflexivity|].
  rewrite <- (app_nil_r (dec_chars _)). change [] with (zeros 0). now apply layout_int.
Qed.

(** Every finite double prints as an optional minus sign followed by a
    text of the JSON number grammar. *)
Lemma number_to_string_layout x :
  is_finite_double x = true ->
  exists (neg : bool) l, number_to_string x = of_chars ((if neg then ["-"%char] else []) ++ l) /\
    decimal_layout l.
Proof.
  destruct x as [z|m e| | |]; cbv beta iota delta [is_finite_double number_to_string]; try discriminate.
  - intros Hd. apply is_double_iff in Hd as [? ?].
    destruct (Z.eq_dec z 0) as [->|Hz].
    { exists false, ["0"%char]. split; [reflexivity|]. exists ["0"%char], [], []. repeat split; now left. }
    rewrite (proj2 (Z.eqb_neq z 0) Hz). case_if; zbool.
    + rewrite Z.abs_neq in * by lia. destruct (pos_to_string_layout (- z)) as (l & -> & Hl); try lia.
      now exists true, l.
    + rewrite Z.abs_eq in * by lia. destruct (pos_to_string_layout z) as (l & -> & Hl); try lia.
      now exists false, l.
  - intros Hd. split_conds.
    assert (Hf : forall m', frac_double m' e -> exists l, frac_to_string m' e = of_chars l /\ decimal_layout l).
    { intros m' Hm'. destruct (frac_to_string_digits m' e Hm') as (s & j & -> & Hs & _).
      now apply digits_to_string_layout. }
    case_if; zbool.
    + rewrite Z.abs_neq in * by lia. destruct (Hf (- m)) as (l & -> & Hl);
        [repeat split; try lia; now rewrite Z.odd_opp|]. now exists true, l.
    + rewrite Z.abs_eq in * by lia. destruct (Hf m) as (l & -> & Hl); [repeat split; auto; lia|].
      now exists false, l.
Qed.

(** C25: every finite double, integral or not, printed by
    [Number::toString] (shortest round-trip digits, positional or exponent
    notation) is read back by [Number(s)] as the same double (round
    trip). *)
Theorem number_to_string_roundtrip x :
  is_finite_double x = true -> string_to_number (number_to_string x) = x.
Proof. exact (number_to_string_reads x). Qed.

(** ** Witnesses *)

(** The double nearest to 0.1 prints as [0.1] and reads back. *)
Lemma number_to_string_roundtrip_witness :
  is_finite_double (NFrac 3602879701896397 (-55)) = true /\
  number_to_string (NFrac 3602879701896397 (-55)) = "0.1"%string /\
  string_to_number (number_to_string (NFrac 3602879701896397 (-55))) = NFrac 3602879701896397 (-55).
Proof.
  split; [reflexivity|]. split; [vm_compute; reflexivity|].
  apply number_to_string_roundtrip. reflexivity.
Defined.

End NumberRoundtrip.
