(* ===== verification/JsValue.v ===== *)
(** * JavaScript values, conversions and plain objects

    The values that flow through api.js: arguments supplied by the UI
    (form values, product objects, image files), JSON bodies returned by
    the backend, and the objects the module builds ([payload],
    [searchParams], request parameters).  This file holds
    - [jsval]: undefined, null, booleans, numbers ([JsNumber.jsnum]),
      strings, plain objects, arrays and binary blobs (the image [File]);
    - [to_boolean] ([!!x], api.js lines 78-81), [to_string] ([ToString]:
      ["Bearer " + token] lines 17, 37, 53, 98, the template literal of
      line 94, the values of [URLSearchParams] lines 66, 83, 152) and
      [to_number] ([Number(x)], lines 80-81);
    - plain objects as property lists in creation order, the property
      order of [[OwnPropertyKeys]] (array indices ascending, then the other
      keys in creation order), property update [obj_set], object spread
      [spread_into] ([{ ...productObject, imageUrl }] line 9,
      [{ ...values, timestamp }] lines 29-32, the conditional spreads of
      lines 77-82) and property reads [get_prop] ([(await
      response.json()).url] line 155, [const { token, isAdmin } = body]
      line 134).
    Inherited properties are not modelled: the program reads only [url],
    [token] and [isAdmin], which no built-in prototype defines.
*)

From Stdlib Require Import String Ascii List ZArith Lia Bool Permutation.
From S2P Require Import Prelude JsNumber.
Import ListNotations.
Import JsNumber.

Module JsValue.

Local Open Scope string_scope.
Local Open Scope list_scope.
Local Set Warnings "-register-all".

Inductive jsval : Type :=
| JUndefined
| JNull
| JBool (b : bool)
| JNumber (n : jsnum)
| JString (s : string)
| JObject (props : list (string * jsval))
| JArray (elems : list jsval)
| JBlob (data : list Byte.byte).

Abbreviation props := (list (string * jsval)).

(** ** Conversions *)

(** [ToBoolean], the meaning of [!!x]. *)
Definition to_boolean (v : jsval) : bool :=
  match v with
  | JUndefined | JNull => false
  | JBool b => b
  | JNumber (NFin z) => negb (z =? 0)%Z
  | JNumber NNaN => false
  | JNumber _ => true
  | JString s => negb (s =? EmptyString)%string
  | JObject _ | JArray _ | JBlob _ => true
  end.

(** [ToString]; an array is joined with commas, its [undefined] and
    [null] elements printing as the empty string. *)
Fixpoint to_string (v : jsval) : string :=
  match v with
  | JUndefined => "undefined"
  | JNull => "null"
  | JBool true => "true"
  | JBool false => "false"
  | JNumber n => number_to_string n
  | JString s => s
  | JObject _ => "[object Object]"
  | JArray es =>
      String.concat ","
        ((fix elems (l : list jsval) : list string :=
            match l with
            | [] => []
            | (JUndefined | JNull) :: r => EmptyString :: elems r
            | e :: r => to_string e :: elems r
            end) es)
  | JBlob _ => "[object Blob]"
  end.

(** [ToNumber]; objects, arrays and blobs go through their string form. *)
Definition to_number (v : jsval) : jsnum :=
  match v with
  | JUndefined => NNaN
  | JNull => NFin 0
  | JBool b => NFin (if b then 1 else 0)
  | JNumber n => n
  | JString s => string_to_number s
  | JObject _ | JArray _ | JBlob _ => string_to_number (to_string v)
  end.

(** ** Plain objects *)

Fixpoint prop_lookup (k : string) (ps : props) : option jsval :=
  match ps with
  | [] => None
  | (k', v) :: r => if (k =? k')%string then Some v else prop_lookup k r
  end.

(** [o[k] = v]: an existing property keeps its place, a new one is added
    last. *)
Fixpoint obj_set (ps : props) (k : string) (v : jsval) : props :=
  match ps with
  | [] => [(k, v)]
  | (k', v') :: r => if (k =? k')%string then (k', v) :: r else (k', v') :: obj_set r k v
  end.

(** A key that is an array index: the canonical decimal form of an
    integer below 2^32 - 1. *)
Definition array_index (k : string) : option Z :=
  match chars k with
  | [] => None
  | ["0"%char] => Some 0%Z
  | "0"%char :: _ => None
  | l => match radix_value 10 l with
         | Some i => if (i <? 2 ^ 32 - 1)%Z then Some i else None
         | None => None
         end
  end.

Definition is_index_key (k : string) : bool :=
  match array_index k with Some _ => true | None => false end.

Definition index_of (k : string) : Z :=
  match array_index k with Some i => i | None => 0%Z end.

Fixpoint insert_by_index {A} (kv : string * A) (ps : list (string * A)) : list (string * A) :=
  match ps with
  | [] => [kv]
  | kv' :: r =>
      if (index_of (fst kv) <=? index_of (fst kv'))%Z then kv :: ps
      else kv' :: insert_by_index kv r
  end.

Definition sort_by_index {A} (ps : list (string * A)) : list (string * A) :=
  fold_right insert_by_index [] ps.

(** The properties in [[OwnPropertyKeys]] order: array indices
    ascending, then the other keys in creation order. *)
Definition ordered_props {A} (ps : list (string * A)) : list (string * A) :=
  sort_by_index (filter (fun kv => is_index_key (fst kv)) ps)
  ++ filter (fun kv => negb (is_index_key (fst kv))) ps.

Definition set_all (target : props) (src : props) : props :=
  fold_left (fun acc kv => obj_set acc (fst kv) (snd kv)) src target.

Definition index_string (i : nat) : string := dec_string (Z.of_nat i).

Fixpoint indexed {A} (i : nat) (l : list A) : list (string * A) :=
  match l with
  | [] => []
  | x :: r => (index_string i, x) :: indexed (S i) r
  end.

(** [{ ...target, ...src }]: CopyDataProperties.  Strings and arrays
    contribute their indices; [undefined], [null], booleans, numbers and
    blobs contribute nothing. *)
Definition spread_into (target : props) (src : jsval) : props :=
  match src with
  | JObject ps => set_all target (ordered_props ps)
  | JArray es => set_all target (indexed 0 es)
  | JString s => set_all target (indexed 0 (map (fun c => JString (String c EmptyString)) (chars s)))
  | _ => target
  end.

(** [v.k]; [None] is the [TypeError] of reading a property of [undefined]
    or [null]. *)
Definition get_prop (v : jsval) (k : string) : option jsval :=
  match v with
  | JUndefined | JNull => None
  | JObject ps => Some (match prop_lookup k ps with Some x => x | None => JUndefined end)
  | JArray es =>
      Some (if (k =? "length")%string then JNumber (NFin (Z.of_nat (length es)))
            else match array_index k with
                 | Some i => nth (Z.to_nat i) es JUndefined
                 | None => JUndefined
                 end)
  | JString s =>
      Some (if (k =? "length")%string then JNumber (NFin (Z.of_nat (String.length s)))
            else match array_index k with
                 | Some i => match String.get (Z.to_nat i) s with
                             | Some c => JString (String c EmptyString)
                             | None => JUndefined
                             end
                 | None => JUndefined
                 end)
  | _ => Some JUndefined
  end.

(** The own property [k] of an object value. *)
Definition obj_get (v : jsval) (k : string) : option jsval :=
  match v with JObject ps => prop_lookup k ps | _ => None end.

(** The keys of a property list are distinct. *)
Definition wf_props (ps : props) : Prop := NoDup (map fst ps).

(** ** Induction through nested arrays and objects *)

Section Nested.
Variable P : jsval -> Prop.
Hypothesis HUndefined : P JUndefined.
Hypothesis HNull : P JNull.
Hypothesis HBool : forall b, P (JBool b).
Hypothesis HNumber : forall n, P (JNumber n).
Hypothesis HString : forall s, P (JString s).
Hypothesis HObject : forall ps, Forall (fun kv => P (snd kv)) ps -> P (JObject ps).
Hypothesis HArray : forall es, Forall P es -> P (JArray es).
Hypothesis HBlob : forall d, P (JBlob d).

Fixpoint jsval_nested_ind (v : jsval) : P v :=
  match v with
  | JUndefined => HUndefined
  | JNull => HNull
  | JBool b => HBool b
  | JNumber n => HNumber n
  | JString s => HString s
  | JObject ps =>
      HObject ps ((fix props_ind (l : props) : Forall (fun kv => P (snd kv)) l :=
                     match l with
                     | [] => Forall_nil _
                     | kv :: r => Forall_cons kv (jsval_nested_ind (snd kv)) (props_ind r)
                     end) ps)
  | JArray es =>
      HArray es ((fix elems_ind (l : list jsval) : Forall P l :=
                    match l with
                    | [] => Forall_nil _
                    | x :: r => Forall_cons x (jsval_nested_ind x) (elems_ind r)
                    end) es)
  | JBlob d => HBlob d
  end.
End Nested.

(** ** Property lists: lookup, update and order *)

Lemma prop_lookup_obj_set_eq ps k v : prop_lookup k (obj_set ps k v) = Some v.
Proof.
  induction ps as [|[k' v'] r IH]; simpl.
  - now rewrite String.eqb_refl.
  - destruct (String.eqb_spec k k') as [->|Hne]; simpl.
    + now rewrite String.eqb_refl.
    + apply String.eqb_neq in Hne. now rewrite Hne.
Qed.

Lemma prop_lookup_obj_set_ne ps k k' v :
  k <> k' -> prop_lookup k' (obj_set ps k v) = prop_lookup k' ps.
Proof.
  intros Hne. induction ps as [|[k0 v0] r IH]; simpl.
  - apply String.eqb_neq in Hne. now rewrite String.eqb_sym, Hne.
  - destruct (String.eqb_spec k k0) as [->|Hne0]; simpl.
    + destruct (String.eqb_spec k' k0); [congruence | reflexivity].
    + now rewrite IH.
Qed.

#[export] Hint Rewrite prop_lookup_obj_set_eq : js.

(** Updating an existing key keeps the key order; a new key goes last. *)
Lemma obj_set_keys ps k v :
  map fst (obj_set ps k v) = if in_dec string_dec k (map fst ps) then map fst ps
                             else map fst ps ++ [k].
Proof.
  induction ps as [|[k' v'] r IH]; simpl; [reflexivity|].
  destruct (String.eqb_spec k k') as [->|Hne]; simpl.
  - destruct (string_dec k' k'); [reflexivity | congruence].
  - rewrite IH. destruct (string_dec k' k); [congruence|].
    destruct (in_dec string_dec k (map fst r)); reflexivity.
Qed.

Lemma obj_set_wf ps k v : wf_props ps -> wf_props (obj_set ps k v).
Proof.
  unfold wf_props. intros H. rewrite obj_set_keys.
  destruct (in_dec string_dec k (map fst ps)) as [|Hn]; [assumption|].
  apply NoDup_app; [assumption | repeat constructor; auto |].
  intros x Hx [<-|[]]. contradiction.
Qed.

Lemma prop_lookup_notin k ps : ~ In k (map fst ps) -> prop_lookup k ps = None.
Proof.
  induction ps as [|[k' v] r IH]; simpl; intros Hn; [reflexivity|].
  destruct (String.eqb_spec k k'); [subst; tauto | apply IH; tauto].
Qed.

(** Copying distinct properties onto [t]: the copied ones win. *)
Lemma prop_lookup_set_all t src k :
  wf_props src ->
  prop_lookup k (set_all t src) =
  match prop_lookup k src with Some v => Some v | None => prop_lookup k t end.
Proof.
  revert t. induction src as [|[k0 v0] r IH]; intros t Hwf; simpl; [reflexivity|].
  inv Hwf. rewrite IH by assumption.
  destruct (String.eqb_spec k k0) as [->|Hne].
  - rewrite prop_lookup_notin by assumption. apply prop_lookup_obj_set_eq.
  - destruct (prop_lookup k r); [reflexivity|]. now apply prop_lookup_obj_set_ne.
Qed.

Lemma insert_by_index_perm {A} (kv : string * A) ps : Permutation (insert_by_index kv ps) (kv :: ps).
Proof.
  induction ps as [|kv' r IH]; simpl; [reflexivity|].
  case_if; [reflexivity|].
  eapply perm_trans; [apply perm_skip, IH | apply perm_swap].
Qed.

Lemma sort_by_index_perm {A} (ps : list (string * A)) : Permutation (sort_by_index ps) ps.
Proof.
  induction ps as [|kv r IH]; simpl; [reflexivity|].
  eapply perm_trans; [apply insert_by_index_perm | apply perm_skip, IH].
Qed.

Lemma filter_split_perm {A} (p : A -> bool) l :
  Permutation (filter p l ++ filter (fun x => negb (p x)) l) l.
Proof.
  induction l as [|x r IH]; simpl; [reflexivity|].
  destruct (p x); simpl.
  - apply perm_skip, IH.
  - symmetry. eapply perm_trans; [apply perm_skip; symmetry; exact IH|].
    apply Permutation_middle.
Qed.

Lemma ordered_props_perm {A} (ps : list (string * A)) : Permutation (ordered_props ps) ps.
Proof.
  unfold ordered_props. eapply perm_trans; [|apply filter_split_perm].
  apply Permutation_app_tail, sort_by_index_perm.
Qed.

Lemma ordered_props_wf ps : wf_props ps -> wf_props (ordered_props ps).
Proof.
  unfold wf_props. intros H. eapply Permutation_NoDup; [|exact H].
  apply Permutation_map. symmetry. apply ordered_props_perm.
Qed.

Lemma prop_lookup_perm k ps ps' :
  Permutation ps ps' -> wf_props ps -> prop_lookup k ps = prop_lookup k ps'.
Proof.
  unfold wf_props. induction 1 as [|[k0 v0] l l' _ IH|[k1 v1] [k2 v2] l|l l' l'' H1 IH1 _ IH2];
    intros Hwf; simpl in *.
  - reflexivity.
  - inv Hwf. now rewrite IH.
  - inv Hwf. destruct (String.eqb_spec k k2), (String.eqb_spec k k1); subst; try reflexivity.
    exfalso. simpl in *. tauto.
  - rewrite IH1 by assumption. apply IH2.
    eapply Permutation_NoDup; [apply Permutation_map, H1 | assumption].
Qed.

(** Spreading an object with distinct keys into a fresh object copies
    every property. *)
Lemma spread_object_lookup ps k :
  wf_props ps -> prop_lookup k (spread_into [] (JObject ps)) = prop_lookup k ps.
Proof.
  intros Hwf. simpl. rewrite prop_lookup_set_all by now apply ordered_props_wf.
  rewrite <- prop_lookup_perm with (ps := ps) by (try apply Permutation_sym, ordered_props_perm; assumption).
  now destruct (prop_lookup k ps).
Qed.

Lemma obj_set_notin ps k v :
  prop_lookup k ps = None -> obj_set ps k v = ps ++ [(k, v)].
Proof.
  induction ps as [|[k' v'] r IH]; simpl; intros Hn; [reflexivity|].
  destruct (String.eqb_spec k k'); [discriminate|]. now rewrite IH.
Qed.

(** Setting properties with fresh keys appends them in order. *)
Lemma set_all_fresh acc ps :
  NoDup (map fst acc ++ map fst ps) -> set_all acc ps = acc ++ ps.
Proof.
  revert acc. induction ps as [|[k v] ps IH]; intros acc H; simpl; [now rewrite app_nil_r|].
  unfold set_all in *. simpl. rewrite obj_set_notin.
  - rewrite IH; [now rewrite <- app_assoc|]. rewrite map_app, <- app_assoc. exact H.
  - apply prop_lookup_notin. simpl in H. apply NoDup_remove_2 in H.
    intros Hin. apply H, in_or_app. now left.
Qed.

Lemma obj_set_no_index ps k v :
  is_index_key k = false -> forallb (fun kv => negb (is_index_key (fst kv))) ps = true ->
  forallb (fun kv => negb (is_index_key (fst kv))) (obj_set ps k v) = true.
Proof.
  intros Hk. induction ps as [|[k' v'] ps IH]; simpl; [now rewrite Hk|].
  intros H. apply andb_prop in H as [H1 H2]. destruct (k =? k')%string; simpl; rewrite H1; auto.
Qed.

(** A property of every value survives an update by a value that has it. *)
Lemma obj_set_forallb (p : jsval -> bool) ps k v :
  p v = true -> forallb (fun kv => p (snd kv)) ps = true ->
  forallb (fun kv => p (snd kv)) (obj_set ps k v) = true.
Proof.
  intros Hv. induction ps as [|[k' v'] ps IH]; simpl; [now rewrite Hv|].
  intros H. apply andb_prop in H as [H1 H2]. destruct (k =? k')%string; simpl; rewrite ?Hv, ?H1; auto.
Qed.

(** A property that is not an array index stays last in key order. *)
Lemma ordered_props_snoc {A} (ps : list (string * A)) k v :
  is_index_key k = false -> ordered_props (ps ++ [(k, v)]) = ordered_props ps ++ [(k, v)].
Proof.
  intros Hk. unfold ordered_props. rewrite !filter_app. simpl. rewrite Hk. simpl.
  rewrite app_nil_r, app_assoc. reflexivity.
Qed.

(** Without array-index keys the key order is the creation order. *)
Lemma ordered_props_no_index {A} (ps : list (string * A)) :
  forallb (fun kv => negb (is_index_key (fst kv))) ps = true -> ordered_props ps = ps.
Proof.
  intros H. unfold ordered_props.
  enough (filter (fun kv => is_index_key (fst kv)) ps = [] /\
          filter (fun kv => negb (is_index_key (fst kv))) ps = ps) as [-> ->] by reflexivity.
  induction ps as [|[k x] r IH]; simpl in *; [split; reflexivity|].
  destruct (is_index_key k); simpl in *; [discriminate|].
  destruct (IH H) as [-> ->]. split; reflexivity.
Qed.

End JsValue.
