(* ===== verification/Json.v ===== *)
(** * JSON.stringify

    Request bodies are built with [JSON.stringify] (api.js lines 19, 39,
    114, 129).  [json_stringify] follows SerializeJSONProperty of
    ECMA-262 25.5.2: [undefined] has no serialisation (a property holding
    it is left out of its object, an array element holding it prints as
    [null], and at top level the result is [undefined], modelled as
    [None]); non-finite numbers print as [null]; object members follow
    the [[OwnPropertyKeys]] order of [JsValue.ordered_props]; a blob has
    no enumerable own property and prints as [{}].  Strings are quoted by
    QuoteJSONString (ECMA-262 25.5.2.3). *)

From Stdlib Require Import String Ascii List ZArith Lia Bool.
From S2P Require Import Prelude JsNumber JsValue.
Import ListNotations.
Import JsNumber JsValue.

Module Json.

Local Open Scope string_scope.
Local Open Scope list_scope.

(** The double quote character. *)
Definition dquote : ascii := ascii_of_nat 34.

Definition hex_lower (d : Z) : ascii :=
  if (d <? 10)%Z then digit_char d else chr (87 + d).

(** The escape of one code unit. *)
Definition quote_char (c : ascii) : list ascii :=
  match nat_of_ascii c with
  | 8 => chars "\b"
  | 9 => chars "\t"
  | 10 => chars "\n"
  | 12 => chars "\f"
  | 13 => chars "\r"
  | 34 => ["\"%char; dquote]
  | 92 => ["\"%char; "\"%char]
  | n => if (n <? 32)%nat
         then chars "\u00" ++ [hex_lower (Z.of_nat n / 16); hex_lower (Z.of_nat n mod 16)]
         else [c]
  end.

Definition quote (s : string) : string :=
  of_chars ([dquote] ++ flat_map quote_char (chars s) ++ [dquote]).

(** The members of an object: [key:value] for the properties whose value
    has a serialisation. *)
Definition json_members (ser : list (string * option string)) : list string :=
  flat_map (fun kv => match snd kv with
                      | Some s => [(quote (fst kv) ++ ":" ++ s)%string]
                      | None => []
                      end) ser.

Fixpoint json_stringify (v : jsval) : option string :=
  match v with
  | JUndefined => None
  | JNull => Some "null"
  | JBool true => Some "true"
  | JBool false => Some "false"
  | JNumber (NNaN | NPosInf | NNegInf) => Some "null"
  | JNumber n => Some (number_to_string n)
  | JString s => Some (quote s)
  | JObject ps =>
      let ser := map (fun '(k, x) => (k, json_stringify x)) ps in
      Some ("{" ++ String.concat "," (json_members (ordered_props ser)) ++ "}")%string
  | JArray es =>
      let elems := map (fun x => match json_stringify x with
                                 | Some s => s
                                 | None => "null"
                                 end) es in
      Some ("[" ++ String.concat "," elems ++ "]")%string
  | JBlob _ => Some "{}"
  end.

(** ** Members whose value is undefined *)

(** A last property holding [undefined] leaves no trace in the output. *)
Lemma json_stringify_undefined_last ps k :
  is_index_key k = false ->
  json_stringify (JObject (ps ++ [(k, JUndefined)])) = json_stringify (JObject ps).
Proof.
  intros Hk. simpl. rewrite map_app. simpl. rewrite ordered_props_snoc by assumption.
  unfold json_members. rewrite flat_map_app. simpl. now rewrite app_nil_r.
Qed.

End Json.
