(* ===== verification/JsonParse.v ===== *)
(** * JSON.parse

    [await response.json()] (api.js lines 60, 72, 89, 132, 155) reads the
    body of a response as JSON: [JSON.parse] of the body text (ECMA-262
    25.5.1).  The backend reads the JSON bodies the client sends
    ([JSON.stringify], lines 19, 39, 114, 129) with the same grammar.
    This file holds the parser of the JSON text grammar (ECMA-404):
    - white space: space, tab, line feed, carriage return;
    - the literals [null], [true], [false];
    - numbers [-? (0 | [1-9][0-9]* ) (.[0-9]+)? ([eE][+-]?[0-9]+)?],
      whose value is the Number value of the lexeme ([JsNumber]);
    - strings between double quotes, with the one-letter escapes of
      a double quote, a backslash, a slash and b, f, n, r, t, the
      escape u with four hexadecimal digits, and no raw control
      character;
    - arrays and objects; a repeated key keeps its first position and
      takes its last value (CreateDataProperty).
    [parse_value] takes fuel: every nested value and every element
    consumes at least one character, so the length of the text plus one
    is enough ([json_parse]).  The strings of the development hold code
    units up to U+00FF, as everywhere else; a u escape above U+00FF
    cannot be held and is not accepted. *)

From Stdlib Require Import String Ascii List ZArith Lia Bool.
From S2P Require Import Prelude JsNumber NumberRoundtrip JsValue Json.
Import ListNotations.
Import JsNumber NumberRoundtrip JsValue Json.

Module JsonParse.

Local Open Scope string_scope.
Local Open Scope list_scope.

Definition is_json_ws (c : ascii) : bool :=
  let n := nat_of_ascii c in (n =? 32)%nat || (n =? 9)%nat || (n =? 10)%nat || (n =? 13)%nat.

Definition skip_ws (l : list ascii) : list ascii := snd (span is_json_ws l).

(** The character a one-letter escape stands for. *)
Definition simple_escape (e : ascii) : option ascii :=
  match nat_of_ascii e with
  | 34 => Some dquote
  | 92 => Some "\"%char
  | 47 => Some "/"%char
  | 98 => Some (ascii_of_nat 8)
  | 102 => Some (ascii_of_nat 12)
  | 110 => Some (ascii_of_nat 10)
  | 114 => Some (ascii_of_nat 13)
  | 116 => Some (ascii_of_nat 9)
  | _ => None
  end.

(** Four hexadecimal digits, either case. *)
Definition hex4 (h1 h2 h3 h4 : ascii) : option Z :=
  match radix_digit 16 h1, radix_digit 16 h2, radix_digit 16 h3, radix_digit 16 h4 with
  | Some a, Some b, Some c, Some d => Some (((a * 16 + b) * 16 + c) * 16 + d)%Z
  | _, _, _, _ => None
  end.

(** The characters of a string after its opening quote, up to the
    closing quote, and the text after it. *)
Fixpoint parse_chars (l : list ascii) : option (list ascii * list ascii) :=
  match l with
  | [] => None
  | c :: r =>
      if (c =? dquote)%char then Some ([], r)
      else if (c =? "\")%char then
        match r with
        | e :: r' =>
            match simple_escape e with
            | Some c' => option_map (fun sr => (c' :: fst sr, snd sr)) (parse_chars r')
            | None =>
                if (e =? "u")%char then
                  match r' with
                  | h1 :: h2 :: h3 :: h4 :: r'' =>
                      match hex4 h1 h2 h3 h4 with
                      | Some n =>
                          if (n <? 256)%Z
                          then option_map (fun sr => (chr n :: fst sr, snd sr)) (parse_chars r'')
                          else None
                      | None => None
                      end
                  | _ => None
                  end
                else None
            end
        | [] => None
        end
      else if (code c <? 32)%Z then None
      else option_map (fun sr => (c :: fst sr, snd sr)) (parse_chars r)
  end.

Definition is_digit19 (c : ascii) : bool := is_dec_digit c && negb (c =? "0")%char.

(** The integer part of a number: [0] or a non-zero digit and digits. *)
Definition scan_int (l : list ascii) : option (list ascii * list ascii) :=
  match l with
  | "0"%char :: r => Some (["0"%char], r)
  | c :: _ => if is_digit19 c then Some (span is_dec_digit l) else None
  | [] => None
  end.

(** The optional fraction: a point and at least one digit. *)
Definition scan_frac (l : list ascii) : option (list ascii * list ascii) :=
  match l with
  | "."%char :: r =>
      let '(ds, r') := span is_dec_digit r in
      match ds with [] => None | _ => Some ("."%char :: ds, r') end
  | _ => Some ([], l)
  end.

(** The optional exponent: [e] or [E], an optional sign, digits. *)
Definition scan_exp (l : list ascii) : option (list ascii * list ascii) :=
  match l with
  | c :: r =>
      if is_exp_mark c then
        let '(sg, r1) := match r with
                         | s :: r1 => if (s =? "+")%char || (s =? "-")%char then ([s], r1) else ([], r)
                         | [] => ([], r)
                         end in
        let '(ds, r2) := span is_dec_digit r1 in
        match ds with [] => None | _ => Some (c :: sg ++ ds, r2) end
      else Some ([], l)
  | [] => Some ([], [])
  end.

(** The lexeme of a number and the text after it. *)
Definition scan_number (l : list ascii) : option (list ascii * list ascii) :=
  let '(sg, l1) := match l with "-"%char :: r => (["-"%char], r) | _ => ([], l) end in
  match scan_int l1 with
  | Some (i, l2) =>
      match scan_frac l2 with
      | Some (f, l3) =>
          match scan_exp l3 with
          | Some (e, l4) => Some (sg ++ i ++ f ++ e, l4)
          | None => None
          end
      | None => None
      end
  | None => None
  end.

(** The elements of an array after its first one starts, each read by
    [pv], up to the closing bracket; [g] bounds their number. *)
Fixpoint parse_elements (pv : list ascii -> option (jsval * list ascii))
    (g : nat) (acc : list jsval) (l : list ascii) : option (jsval * list ascii) :=
  match g with
  | O => None
  | S g' =>
      match pv l with
      | Some (v, l2) =>
          match skip_ws l2 with
          | ","%char :: l3 => parse_elements pv g' (acc ++ [v]) (skip_ws l3)
          | "]"%char :: l3 => Some (JArray (acc ++ [v]), l3)
          | _ => None
          end
      | None => None
      end
  end.

(** The members of an object after its first one starts, each value read
    by [pv], up to the closing brace; a member is added to the object
    built so far as [obj_set] does. *)
Fixpoint parse_members (pv : list ascii -> option (jsval * list ascii))
    (g : nat) (acc : props) (l : list ascii) : option (jsval * list ascii) :=
  match g with
  | O => None
  | S g' =>
      match l with
      | q :: l2 =>
          if (q =? dquote)%char then
            match parse_chars l2 with
            | Some (k, l3) =>
                match skip_ws l3 with
                | ":"%char :: l4 =>
                    match pv (skip_ws l4) with
                    | Some (v, l5) =>
                        let acc' := obj_set acc (of_chars k) v in
                        match skip_ws l5 with
                        | ","%char :: l6 => parse_members pv g' acc' (skip_ws l6)
                        | "}"%char :: l6 => Some (JObject acc', l6)
                        | _ => None
                        end
                    | None => None
                    end
                | _ => None
                end
            | None => None
            end
          else None
      | [] => None
      end
  end.

(** [l] starts with [p]. *)
Fixpoint prefix (p l : list ascii) : bool :=
  match p, l with
  | [], _ => true
  | a :: p', b :: l' => (a =? b)%char && prefix p' l'
  | _ :: _, [] => false
  end.

(** The literal names [null], [true] and [false]. *)
Definition literal (l : list ascii) : option (jsval * list ascii) :=
  if prefix (chars "null") l then Some (JNull, skipn 4 l)
  else if prefix (chars "true") l then Some (JBool true, skipn 4 l)
  else if prefix (chars "false") l then Some (JBool false, skipn 5 l)
  else None.

(** A value at the start of [l] (no white space before it) and the text
    after it, dispatched on its first character. *)
Fixpoint parse_value (fuel : nat) (l : list ascii) : option (jsval * list ascii) :=
  match fuel with
  | O => None
  | S f =>
      match l with
      | [] => None
      | c :: r =>
          if (c =? "[")%char then
            match skip_ws r with
            | c' :: r' =>
                if (c' =? "]")%char then Some (JArray [], r')
                else parse_elements (parse_value f) f [] (c' :: r')
            | [] => None
            end
          else if (c =? "{")%char then
            match skip_ws r with
            | c' :: r' =>
                if (c' =? "}")%char then Some (JObject [], r')
                else parse_members (parse_value f) f [] (c' :: r')
            | [] => None
            end
          else if (c =? dquote)%char then
            option_map (fun sr => (JString (of_chars (fst sr)), snd sr)) (parse_chars r)
          else
            match literal l with
            | Some vr => Some vr
            | None =>
                match scan_number l with
                | Some (lex, r') => Some (JNumber (string_to_number (of_chars lex)), r')
                | None => None
                end
            end
      end
  end.

(** [JSON.parse(text)]: [None] is the [SyntaxError] it throws. *)
Definition json_parse (text : string) : option jsval :=
  let l := chars text in
  match parse_value (S (length l)) (skip_ws l) with
  | Some (v, r) => match skip_ws r with [] => Some v | _ => None end
  | None => None
  end.

(** ** Values that survive a round trip

    The values [JSON.stringify] prints and [JSON.parse] reads back as
    they were: no [undefined] and no blob (which print as nothing and as
    [{}]), integral numbers below 10^21 in magnitude (their printing is
    the plain decimal notation), objects whose keys are distinct and no
    array index (so that the printed order is the creation order). *)

Fixpoint keys_distinct (ks : list string) : bool :=
  match ks with
  | [] => true
  | k :: r => negb (existsb (String.eqb k) r) && keys_distinct r
  end.

Fixpoint json_canonical (v : jsval) : bool :=
  match v with
  | JNull | JBool _ | JString _ => true
  | JNumber x => is_finite_double x
  | JArray es => forallb json_canonical es
  | JObject ps =>
      keys_distinct (map fst ps)
      && forallb (fun kv => negb (is_index_key (fst kv))) ps
      && forallb (fun kv => json_canonical (snd kv)) ps
  | _ => false
  end.

(** The text that may follow a value inside a JSON text. *)
Definition follows (rest : list ascii) : Prop :=
  match rest with
  | [] => True
  | c :: _ => c = ","%char \/ c = "]"%char \/ c = "}"%char
  end.

(** [s] is a text that [parse_value] reads as [v] whatever follows it,
    given fuel above its length, and that starts with no white space and
    no closing bracket. *)
Definition encodes (v : jsval) (s : string) : Prop :=
  (exists c r, chars s = c :: r /\ is_json_ws c = false /\ (c =? "]")%char = false) /\
  forall fuel rest, (length (chars s) < fuel)%nat -> follows rest ->
    parse_value fuel (chars s ++ rest) = Some (v, rest).

(** Every object of a value, at any depth, has distinct keys. *)
Fixpoint json_wf (v : jsval) : bool :=
  match v with
  | JObject ps => keys_distinct (map fst ps) && forallb (fun kv => json_wf (snd kv)) ps
  | JArray es => forallb json_wf es
  | _ => true
  end.

(** A value that [JSON.stringify] leaves out of an object. *)
Definition is_undefined (v : jsval) : bool := match v with JUndefined => true | _ => false end.

(** The members [JSON.stringify] prints, in their order. *)
Definition drop_undefined (ps : props) : props := filter (fun kv => negb (is_undefined (snd kv))) ps.

Definition digit_chars : list ascii := ["0"; "1"; "2"; "3"; "4"; "5"; "6"; "7"; "8"; "9"]%char.

(** The text of one member: its quoted key, a colon and the text of its
    value. *)
Definition member_text (kv : string * jsval) (m : string) : Prop :=
  exists x, m = (quote (fst kv) ++ ":" ++ x)%string /\ encodes (snd kv) x.

(** A sample login reply, with an escaped quote, a negative number, the
    double nearest 0.1, 10^21 (printed as 1e+21) and
    nested values. *)
Definition login_reply : jsval :=
  JObject [("token", JString ("a" ++ String dquote "b")); ("isAdmin", JBool true);
           ("items", JArray [JNumber (NFin 2); JNumber (NFin (-150)); JNull; JObject [];
                             JNumber (NFrac 3602879701896397 (-55)); JNumber (NFin (10 ^ 21))])].

(** A login reply that repeats its [token] key. *)
Definition duplicate_token_reply : string :=
  "{" ++ quote "token" ++ ":" ++ quote "T1" ++ "," ++ quote "isAdmin" ++ ":false,"
  ++ quote "token" ++ ":" ++ quote "T2" ++ "}".

(** ** Characters and strings *)

Lemma skip_ws_cons c r : is_json_ws c = false -> skip_ws (c :: r) = c :: r.
Proof. intros H. unfold skip_ws. simpl. now rewrite H. Qed.

Lemma chars_quote s : chars (quote s) = dquote :: flat_map quote_char (chars s) ++ [dquote].
Proof. unfold quote. now rewrite list_ascii_of_string_of_list_ascii. Qed.

(** The escape of one character reads back as that character. *)
Lemma parse_chars_quote_char c rest :
  parse_chars (quote_char c ++ rest) = option_map (fun sr => (c :: fst sr, snd sr)) (parse_chars rest).
Proof. destruct c as [[] [] [] [] [] [] [] []]; reflexivity. Qed.

Lemma parse_chars_quoted l rest :
  parse_chars (flat_map quote_char l ++ dquote :: rest) = Some (l, rest).
Proof.
  induction l as [|c l IH]; [reflexivity|].
  simpl. rewrite <- app_assoc, parse_chars_quote_char, IH. reflexivity.
Qed.

Lemma parse_chars_quote s rest :
  parse_chars (flat_map quote_char (chars s) ++ [dquote] ++ rest) = Some (chars s, rest).
Proof. apply parse_chars_quoted. Qed.

(** ** Numbers *)

Lemma parse_value_scan f c r :
  In c ("-"%char :: digit_chars) ->
  parse_value (S f) (c :: r) =
  match scan_number (c :: r) with
  | Some (lex, r') => Some (JNumber (string_to_number (of_chars lex)), r')
  | None => None
  end.
Proof. intros Hc. simpl in Hc. intuition (subst; reflexivity). Qed.

(** ** The lexeme of a printed number *)

(** [t] starts with one of the characters [stop] (or is empty): the text
    after a part of a number lexeme. *)
Definition stops (stop : list ascii) (t : list ascii) : Prop :=
  match t with [] => True | y :: _ => In y stop end.

Lemma stops_digit stop t :
  stops stop t -> forallb (fun y => negb (is_dec_digit y)) stop = true ->
  match t with [] => True | y :: _ => is_dec_digit y = false end.
Proof.
  destruct t as [|y t]; [trivial|]. simpl. intros Hy Hs.
  rewrite forallb_forall in Hs. specialize (Hs y Hy). now destruct (is_dec_digit y).
Qed.

Lemma follows_stops rest : follows rest -> stops [","; "]"; "}"]%char rest.
Proof. destruct rest as [|y rest]; simpl; [trivial | intuition (subst; auto)]. Qed.

Lemma stops_incl a b t : incl a b -> stops a t -> stops b t.
Proof. destruct t; simpl; auto. Qed.

Lemma follows_stops_more stop rest :
  incl [","; "]"; "}"]%char stop -> follows rest -> stops stop rest.
Proof. intros H Hf. exact (stops_incl _ _ _ H (follows_stops rest Hf)). Qed.

Lemma scan_exp_part x rest :
  exp_part x -> follows rest -> scan_exp (x ++ rest) = Some (x, rest).
Proof.
  intros Hx Hf. pose proof (stops_digit _ _ (follows_stops rest Hf) eq_refl) as Hd.
  destruct Hx as [->|(sg & c & ds & -> & Hsg & Hds)].
  - destruct rest as [|y rest]; [reflexivity|]. simpl in Hf. intuition (subst; reflexivity).
  - cbn [app]. change (c :: ds ++ rest) with ((c :: ds) ++ rest).
    destruct Hsg as [-> | ->]; cbn -[span app];
      rewrite span_all by (apply digits_forallb, Hds || exact Hd); reflexivity.
Qed.

Lemma scan_frac_part f x rest :
  frac_part f -> exp_part x -> follows rest -> scan_frac (f ++ x ++ rest) = Some (f, x ++ rest).
Proof.
  intros Hf Hx Hr.
  assert (Hs : stops ["e"; ","; "]"; "}"]%char (x ++ rest)).
  { destruct Hx as [->|(sg & c & ds & -> & _)]; [|now left].
    apply follows_stops_more; [intros y; simpl; tauto | exact Hr]. }
  destruct Hf as [->|(c & ds & -> & Hds)].
  - destruct (x ++ rest) as [|y t]; [reflexivity|]. simpl in Hs. intuition (subst; reflexivity).
  - change (("."%char :: c :: ds) ++ x ++ rest) with ("."%char :: (c :: ds) ++ x ++ rest).
    cbv beta iota delta [scan_frac].
    rewrite span_all by (apply digits_forallb, Hds || exact (stops_digit _ _ Hs eq_refl)).
    reflexivity.
Qed.

Lemma scan_int_digit19 c t : is_digit19 c = true -> scan_int (c :: t) = Some (span is_dec_digit (c :: t)).
Proof. destruct c as [[] [] [] [] [] [] [] []]; intros H; try reflexivity; discriminate. Qed.

Lemma sign_other l :
  match l with c :: _ => (c =? "-")%char = false | [] => True end ->
  match l with "-"%char :: r => (["-"%char], r) | _ => ([], l) end = ([], l).
Proof.
  destruct l as [|c t]; [reflexivity|].
  destruct c as [[] [] [] [] [] [] [] []]; intros H; try reflexivity; discriminate.
Qed.

Lemma digit19_lead d : (1 <= d <= 9)%Z ->
  is_digit19 (digit_char d) = true /\ (digit_char d =? "-")%char = false /\ In (digit_char d) digit_chars.
Proof.
  intros Hd. assert (d = 1 \/ d = 2 \/ d = 3 \/ d = 4 \/ d = 5 \/ d = 6 \/ d = 7 \/ d = 8 \/ d = 9)%Z
    by lia. intuition (subst; simpl; intuition).
Qed.

Lemma scan_int_part i t :
  int_part i -> stops ["."; "e"; ","; "]"; "}"]%char t -> scan_int (i ++ t) = Some (i, t).
Proof.
  intros [->|(d & r & -> & Hd & Hr)] Ht; [reflexivity|].
  destruct (digit19_lead d Hd) as (H19 & _). cbn [app]. rewrite scan_int_digit19 by exact H19.
  change (digit_char d :: r ++ t) with ((digit_char d :: r) ++ t).
  rewrite span_all; [reflexivity | | exact (stops_digit _ _ Ht eq_refl)].
  apply digits_forallb. constructor; [apply digit_char_is_digit; lia | exact Hr].
Qed.

(** A printed number, with or without its sign, is scanned up to its
    last character. *)
Lemma scan_number_layout (neg : bool) l rest :
  decimal_layout l -> follows rest ->
  scan_number ((if neg then ["-"%char] else []) ++ l ++ rest) =
  Some ((if neg then ["-"%char] else []) ++ l, rest).
Proof.
  intros (i & f & x & -> & Hi & Hf & Hx) Hr.
  assert (Hs : stops ["."; "e"; ","; "]"; "}"]%char (f ++ x ++ rest)).
  { destruct Hf as [->|(c & ds & -> & _)]; [|now left].
    destruct Hx as [->|(sg & c & ds & -> & _)]; [|now right; left].
    apply follows_stops_more; [intros y; simpl; tauto | exact Hr]. }
  rewrite <- !app_assoc. unfold scan_number. destruct neg.
  - cbn [app]. cbv iota beta. rewrite (scan_int_part i _ Hi Hs). cbv iota beta.
    rewrite (scan_frac_part f x rest Hf Hx Hr). cbv iota beta. now rewrite scan_exp_part.
  - cbn [app]. assert (Hm : exists c i', i = c :: i' /\ (c =? "-")%char = false).
    { destruct Hi as [->|(d & r & -> & Hd & _)]; [now do 2 eexists|].
      destruct (digit19_lead d Hd) as (_ & H & _). eauto. }
    destruct Hm as (c & i' & Ei & Hc).
    rewrite sign_other by (rewrite Ei; exact Hc). cbv iota beta.
    rewrite (scan_int_part i _ Hi Hs). cbv iota beta.
    rewrite (scan_frac_part f x rest Hf Hx Hr). cbv iota beta. now rewrite scan_exp_part.
Qed.

Lemma decimal_layout_head l :
  decimal_layout l -> exists c r, l = c :: r /\ In c digit_chars.
Proof.
  intros (i & f & x & -> & [->|(d & r & -> & Hd & _)] & _).
  - exists "0"%char, (f ++ x). split; [reflexivity | simpl; auto].
  - destruct (digit19_lead d Hd) as (_ & _ & H). exists (digit_char d), (r ++ f ++ x). auto.
Qed.

(** ** Texts of values *)

Lemma skip_ws_encodes v s rest : encodes v s -> skip_ws (chars s ++ rest) = chars s ++ rest.
Proof. intros [(c & r & -> & Hc & _) _]. now apply skip_ws_cons. Qed.

Lemma encodes_number x :
  is_finite_double x = true -> encodes (JNumber x) (number_to_string x).
Proof.
  intros Hx. pose proof (number_to_string_reads x Hx) as Hv.
  destruct (number_to_string_layout x Hx) as (neg & l & Hs & Hl). rewrite Hs in *.
  destruct (decimal_layout_head l Hl) as (c & r & El & Hc).
  unfold encodes. rewrite list_ascii_of_string_of_list_ascii. split.
  - rewrite El. destruct neg; [do 2 eexists; repeat split|].
    exists c, r. repeat split; simpl in Hc; intuition (subst; reflexivity).
  - intros [|k] rest Hk Hf; [simpl in Hk; lia|]. rewrite <- app_assoc.
    assert (Hsc : In (hd "0"%char ((if neg then ["-"%char] else []) ++ l)) ("-"%char :: digit_chars))
      by (destruct neg; [now left | rewrite El; now right]).
    destruct ((if neg then ["-"%char] else []) ++ l ++ rest) as [|c' t] eqn:Et;
      [destruct neg; rewrite El in Et; discriminate|].
    assert (Hh : c' = hd "0"%char ((if neg then ["-"%char] else []) ++ l))
      by (destruct neg; rewrite El in *; simpl in *; congruence).
    rewrite parse_value_scan by (rewrite Hh; exact Hsc). rewrite <- Et.
    rewrite scan_number_layout by assumption. now rewrite Hv.
Qed.

Lemma encodes_null : encodes JNull "null".
Proof.
  split; [do 2 eexists; repeat split | intros [|f] rest Hl _; [simpl in Hl; lia | reflexivity]].
Qed.

Lemma encodes_bool b : encodes (JBool b) (if b then "true" else "false").
Proof.
  split; destruct b; try (do 2 eexists; repeat split);
    intros [|f] rest Hl _; (simpl in Hl; lia) || reflexivity.
Qed.

Lemma encodes_string s : encodes (JString s) (quote s).
Proof.
  split; rewrite chars_quote; [do 2 eexists; repeat split|].
  intros [|f] rest Hl _; [simpl in Hl; lia|].
  simpl. rewrite <- app_assoc, parse_chars_quote. simpl.
  now rewrite string_of_list_ascii_of_string.
Qed.

(** ** Arrays and objects *)

Lemma chars_concat_cons sep x l :
  exists t, chars (String.concat sep (x :: l)) = chars x ++ t.
Proof.
  destruct l as [|y l]; [exists []; now rewrite app_nil_r|].
  exists (chars (sep ++ String.concat sep (y :: l))). apply chars_app.
Qed.

(** The pieces of a joined list are no longer than the whole, and there
    are no more of them than characters. *)
Lemma concat_length sep strs :
  Forall (fun x => chars x <> []) strs ->
  (length strs <= length (chars (String.concat sep strs)))%nat /\
  Forall (fun x => (length (chars x) <= length (chars (String.concat sep strs)))%nat) strs.
Proof.
  induction 1 as [|x l Hx Hl [IH1 IH2]]; [split; [simpl; lia | constructor]|].
  destruct l as [|y l].
  - simpl. split; [destruct (chars x); [congruence | simpl; lia] | repeat constructor].
  - change (String.concat sep (x :: y :: l)) with (x ++ sep ++ String.concat sep (y :: l))%string.
    rewrite !chars_app, !length_app.
    assert (1 <= length (chars x))%nat by (destruct (chars x); [congruence | simpl; lia]).
    split; [cbn [length] in *; lia|]. constructor; [lia|].
    eapply Forall_impl; [|exact IH2]. intros z Hz. cbv beta in *. lia.
Qed.

Lemma encodes_nonempty v x : encodes v x -> chars x <> [].
Proof. intros [(c & r & -> & _) _]. discriminate. Qed.

Lemma Forall2_bound {A} (R : A -> string -> Prop) es strs n f :
  Forall2 R es strs -> Forall (fun x => (length (chars x) <= n)%nat) strs -> (n < f)%nat ->
  Forall2 (fun e x => R e x /\ (length (chars x) < f)%nat) es strs.
Proof.
  induction 1; intros Hb Hn; [constructor|]. inversion Hb; subst.
  constructor; [split; [assumption | lia] | auto].
Qed.

Lemma parse_elements_concat f es strs acc g rest :
  Forall2 (fun e x => encodes e x /\ (length (chars x) < f)%nat) es strs ->
  strs <> [] -> (length strs <= g)%nat ->
  parse_elements (parse_value f) g acc (chars (String.concat "," strs) ++ "]"%char :: rest)
  = Some (JArray (acc ++ es), rest).
Proof.
  intros H. revert acc g.
  induction H as [|e x es strs [He Hl] Hall IH]; intros acc g Hne Hg; [congruence|].
  destruct g as [|g]; [simpl in Hg; lia|].
  destruct strs as [|y strs].
  - inversion Hall; subst. cbn [String.concat parse_elements].
    rewrite (proj2 He f) by (try assumption; simpl; tauto). reflexivity.
  - inversion Hall as [|e' y' es' strs' [He' _]]; subst.
    change (String.concat "," (x :: y :: strs)) with (x ++ "," ++ String.concat "," (y :: strs))%string.
    rewrite !chars_app, <- app_assoc. cbn [parse_elements list_ascii_of_string app].
    rewrite (proj2 He f) by (try assumption; simpl; tauto). rewrite skip_ws_cons by reflexivity.
    destruct (chars_concat_cons "," y strs) as [t Ht].
    rewrite Ht, <- app_assoc, (skip_ws_encodes _ _ _ He'), app_assoc, <- Ht.
    rewrite IH by (simpl in *; try lia; congruence). now rewrite <- app_assoc.
Qed.

(** Fuel above the length of a bracketed list covers each piece and
    their number. *)
Lemma bracket_bounds {A} (R : A -> string -> Prop) es strs (o cl : ascii) f :
  Forall2 (fun e x => R e x /\ chars x <> []) es strs ->
  (length (chars (String o EmptyString ++ String.concat "," strs ++ String cl EmptyString)) < S f)%nat ->
  Forall2 (fun e x => R e x /\ (length (chars x) < f)%nat) es strs /\ (length strs <= f)%nat.
Proof.
  intros H Hl. rewrite !chars_app, !length_app in Hl. cbn [list_ascii_of_string length] in Hl.
  destruct (concat_length "," strs) as [H1 H2].
  { clear Hl. induction H; constructor; [apply H | assumption]. }
  split; [|lia].
  eapply Forall2_impl; [|apply (Forall2_bound _ es strs _ f H H2); lia].
  intros e x [[? _] ?]. split; assumption.
Qed.

Lemma encodes_array es strs :
  Forall2 encodes es strs -> encodes (JArray es) ("[" ++ String.concat "," strs ++ "]").
Proof.
  intros H. split; [do 2 eexists; repeat split|].
  intros [|f] rest Hl _; [simpl in Hl; lia|].
  destruct (bracket_bounds encodes es strs "[" "]" f) as [Hb Hg]; [|exact Hl|].
  { eapply Forall2_impl; [|exact H]. intros e x Hx. split; [exact Hx | exact (encodes_nonempty _ _ Hx)]. }
  rewrite !chars_app, <- !app_assoc. cbn [list_ascii_of_string app].
  destruct strs as [|x strs]; [inversion H; subst; reflexivity|].
  inversion H as [|e x' es' strs' Hx Hrest]; subst.
  destruct (chars_concat_cons "," x strs) as [t Ht].
  destruct Hx as [(c & r & Hcr & Hc1 & Hc2) _].
  replace (chars (String.concat "," (x :: strs)) ++ "]"%char :: rest)
    with (c :: r ++ t ++ "]"%char :: rest) by (rewrite Ht, Hcr; simpl; now rewrite <- app_assoc).
  cbn [parse_value]. rewrite skip_ws_cons, Hc2 by assumption.
  replace (c :: r ++ t ++ "]"%char :: rest)
    with (chars (String.concat "," (x :: strs)) ++ "]"%char :: rest) by (rewrite Ht, Hcr; simpl; now rewrite <- app_assoc).
  apply (parse_elements_concat f (e :: es') (x :: strs) [] f rest); [assumption | discriminate | assumption].
Qed.

Lemma member_text_head kv m : member_text kv m -> exists r, chars m = dquote :: r.
Proof. intros (x & -> & _). rewrite chars_app, chars_quote. now eexists. Qed.

Lemma member_text_nonempty kv m : member_text kv m -> chars m <> [].
Proof. intros H. destruct (member_text_head kv m H) as [r ->]. discriminate. Qed.

Lemma skip_ws_member kv m Y : member_text kv m -> skip_ws (chars m ++ Y) = chars m ++ Y.
Proof. intros H. destruct (member_text_head kv m H) as [r ->]. now apply skip_ws_cons. Qed.

Lemma parse_members_step f g acc kv m Y :
  member_text kv m -> (length (chars m) < f)%nat -> follows Y ->
  parse_members (parse_value f) (S g) acc (chars m ++ Y) =
  match skip_ws Y with
  | ","%char :: l6 => parse_members (parse_value f) g (obj_set acc (fst kv) (snd kv)) (skip_ws l6)
  | "}"%char :: l6 => Some (JObject (obj_set acc (fst kv) (snd kv)), l6)
  | _ => None
  end.
Proof.
  intros (x & -> & Hx) Hl HY. destruct kv as [k v]; simpl fst in *; simpl snd in *.
  rewrite !chars_app, chars_quote, !length_app in *. rewrite <- !app_assoc. cbn [app].
  cbn [parse_members]. rewrite Ascii.eqb_refl, <- app_assoc, parse_chars_quote.
  cbn [list_ascii_of_string app]. rewrite skip_ws_cons by reflexivity. cbv beta iota zeta.
  rewrite (skip_ws_encodes _ _ _ Hx), (proj2 Hx f Y) by (try assumption; simpl in Hl; lia).
  cbv beta iota zeta. now rewrite string_of_list_ascii_of_string.
Qed.

(** The members are set one after the other: a repeated key keeps the
    place of its first occurrence and takes its last value. *)
Lemma parse_members_concat f ps ms acc g rest :
  Forall2 (fun kv m => member_text kv m /\ (length (chars m) < f)%nat) ps ms ->
  ms <> [] -> (length ms <= g)%nat ->
  parse_members (parse_value f) g acc (chars (String.concat "," ms) ++ "}"%char :: rest)
  = Some (JObject (set_all acc ps), rest).
Proof.
  intros H. revert acc g.
  induction H as [|kv m ps ms [Hm Hl] Hall IH]; intros acc g Hne Hg; [congruence|].
  destruct g as [|g]; [simpl in Hg; lia|].
  destruct ms as [|m' ms].
  - inversion Hall; subst. cbn [String.concat].
    rewrite (parse_members_step f g acc kv m) by (try assumption; simpl; tauto). reflexivity.
  - inversion Hall as [|kv' m'' ps' ms' [Hm' _]]; subst.
    change (String.concat "," (m :: m' :: ms)) with (m ++ "," ++ String.concat "," (m' :: ms))%string.
    rewrite !chars_app, <- app_assoc. cbn [list_ascii_of_string app].
    rewrite (parse_members_step f g acc kv m) by (try assumption; simpl; tauto).
    rewrite skip_ws_cons by reflexivity.
    destruct (chars_concat_cons "," m' ms) as [t Ht].
    rewrite Ht, <- app_assoc, (skip_ws_member _ _ _ Hm'), app_assoc, <- Ht.
    rewrite IH by (simpl in *; try lia; congruence). reflexivity.
Qed.

Lemma encodes_object_set_all ps ms :
  Forall2 member_text ps ms ->
  encodes (JObject (set_all [] ps)) ("{" ++ String.concat "," ms ++ "}").
Proof.
  intros H. split; [do 2 eexists; repeat split|].
  intros [|f] rest Hl _; [simpl in Hl; lia|].
  destruct (bracket_bounds member_text ps ms "{" "}" f) as [Hb Hg]; [|exact Hl|].
  { eapply Forall2_impl; [|exact H]. intros kv m Hm.
    split; [exact Hm | exact (member_text_nonempty _ _ Hm)]. }
  rewrite !chars_app, <- !app_assoc. cbn [list_ascii_of_string app].
  destruct ms as [|m ms]; [inversion H; subst; reflexivity|].
  inversion H as [|kv m' ps' ms' Hm Hrest]; subst.
  destruct (chars_concat_cons "," m ms) as [t Ht]. destruct (member_text_head _ _ Hm) as [r Hr].
  replace (chars (String.concat "," (m :: ms)) ++ "}"%char :: rest)
    with (dquote :: r ++ t ++ "}"%char :: rest) by (rewrite Ht, Hr; simpl; now rewrite <- app_assoc).
  cbn [parse_value]. rewrite skip_ws_cons by reflexivity. cbv beta iota.
  replace (dquote :: r ++ t ++ "}"%char :: rest)
    with (chars (String.concat "," (m :: ms)) ++ "}"%char :: rest) by (rewrite Ht, Hr; simpl; now rewrite <- app_assoc).
  apply (parse_members_concat f (kv :: ps') (m :: ms) [] f rest); auto; discriminate.
Qed.

Lemma encodes_object ps ms :
  Forall2 member_text ps ms -> NoDup (map fst ps) ->
  encodes (JObject ps) ("{" ++ String.concat "," ms ++ "}").
Proof.
  intros H Hnd. rewrite <- (app_nil_l ps) at 1. rewrite <- (set_all_fresh [] ps) by exact Hnd.
  now apply encodes_object_set_all.
Qed.

Lemma keys_distinct_NoDup ks : keys_distinct ks = true -> NoDup ks.
Proof.
  induction ks as [|k r IH]; simpl; intros H; constructor.
  - apply andb_prop in H as [H _]. intros Hin. apply negb_true_iff in H.
    rewrite (proj2 (existsb_exists _ _)) in H; [discriminate|].
    exists k. split; [assumption | apply String.eqb_refl].
  - apply IH. now apply andb_prop in H as [_ H].
Qed.

Lemma forallb_keys_map {B} (g : jsval -> B) (ps : props) :
  forallb (fun kv => negb (is_index_key (fst kv))) (map (fun '(k, x) => (k, g x)) ps)
  = forallb (fun kv => negb (is_index_key (fst kv))) ps.
Proof. induction ps as [|[k x] ps IH]; simpl; congruence. Qed.

(** The texts of the elements of an array of values that print. *)
Lemma elements_texts es :
  Forall (fun e => json_canonical e = true -> exists x, json_stringify e = Some x /\ encodes e x) es ->
  forallb json_canonical es = true ->
  exists strs, map (fun e => match json_stringify e with Some x => x | None => "null" end) es = strs
               /\ Forall2 encodes es strs.
Proof.
  induction 1 as [|e es He _ IH]; simpl; intros Hc; [exists []; split; constructor|].
  apply andb_prop in Hc as [Hc1 Hc2].
  destruct (He Hc1) as (x & -> & Hx). destruct (IH Hc2) as (strs & -> & Hs).
  exists (x :: strs). split; [reflexivity | constructor; assumption].
Qed.

(** The member texts of an object whose values print. *)
Lemma members_texts (ps : props) :
  Forall (fun kv => json_canonical (snd kv) = true ->
                    exists x, json_stringify (snd kv) = Some x /\ encodes (snd kv) x) ps ->
  forallb (fun kv => json_canonical (snd kv)) ps = true ->
  exists ms, json_members (map (fun '(k, x) => (k, json_stringify x)) ps) = ms
             /\ Forall2 member_text ps ms.
Proof.
  induction 1 as [|[k v] ps Hv _ IH]; simpl; intros Hc; [exists []; split; constructor|].
  apply andb_prop in Hc as [Hc1 Hc2].
  destruct (Hv Hc1) as (x & Hs & Hx). destruct (IH Hc2) as (ms & Hms & Hall).
  exists ((quote k ++ ":" ++ x)%string :: ms). cbn [map]. simpl in Hs. rewrite Hs.
  change (json_members ((k, Some x) :: ?ser)) with ((quote k ++ ":" ++ x)%string :: json_members ser).
  rewrite Hms.
  split; [reflexivity | constructor; [exists x; split; [reflexivity | exact Hx] | exact Hall]].
Qed.

(** Every value that survives a round trip prints as a text that
    [parse_value] reads back. *)
Lemma stringify_encodes v :
  json_canonical v = true -> exists x, json_stringify v = Some x /\ encodes v x.
Proof.
  induction v as [| | b | n | s | ps IH | es IH | d] using jsval_nested_ind;
    simpl; intros Hc; try discriminate.
  - eexists; split; [reflexivity | apply encodes_null].
  - exists (if b then "true" else "false"). split; [now destruct b | apply encodes_bool].
  - assert (Hn : json_stringify (JNumber n) = Some (number_to_string n))
      by (destruct n; try discriminate; reflexivity).
    eexists; split; [exact Hn | now apply encodes_number].
  - eexists; split; [reflexivity | apply encodes_string].
  - apply andb_prop in Hc as [Hc Hv]. apply andb_prop in Hc as [Hk Hi].
    destruct (members_texts ps IH Hv) as (ms & Hms & Hall).
    rewrite ordered_props_no_index by now rewrite forallb_keys_map. rewrite Hms.
    eexists; split; [reflexivity | now apply encodes_object, keys_distinct_NoDup].
  - destruct (elements_texts es IH Hc) as (strs & -> & Hall).
    eexists; split; [reflexivity | now apply encodes_array].
Qed.

(** ** Round trip *)

Lemma json_parse_encodes v s : encodes v s -> json_parse s = Some v.
Proof.
  intros He. unfold json_parse. rewrite <- (app_nil_r (chars s)), (skip_ws_encodes _ _ _ He).
  rewrite (proj2 He) by (try exact I; rewrite length_app; simpl; lia). reflexivity.
Qed.

Lemma keys_distinct_iff ks : keys_distinct ks = true <-> NoDup ks.
Proof.
  split; [apply keys_distinct_NoDup|].
  induction 1 as [|k r Hk _ IH]; simpl; [reflexivity|]. rewrite IH, andb_true_r.
  apply negb_true_iff, not_true_iff_false. intros Hex.
  apply existsb_exists in Hex as (k' & Hin & Heq). apply String.eqb_eq in Heq. subst. contradiction.
Qed.

(** Members holding [undefined] leave no trace in the printed object. *)
Lemma json_members_drop_undefined (ps : props) :
  json_members (map (fun '(k, x) => (k, json_stringify x)) ps)
  = json_members (map (fun '(k, x) => (k, json_stringify x)) (drop_undefined ps)).
Proof.
  unfold json_members, drop_undefined.
  induction ps as [|[k x] ps IH]; [reflexivity|]. destruct x; cbn [map filter flat_map snd fst negb is_undefined app json_stringify]; rewrite IH; reflexivity.
Qed.

Lemma stringify_drop_undefined ps :
  forallb (fun kv => negb (is_index_key (fst kv))) ps = true ->
  json_stringify (JObject ps) = json_stringify (JObject (drop_undefined ps)).
Proof.
  intros Hi. simpl. rewrite !ordered_props_no_index, json_members_drop_undefined;
    rewrite ?forallb_keys_map; [reflexivity | | exact Hi]. now apply forallb_filter.
Qed.

(** An object whose members are distinct non-index keys holding
    printable values or [undefined] prints as the text of its printable
    members. *)
Lemma json_parse_object_body ps :
  NoDup (map fst ps) ->
  forallb (fun kv => negb (is_index_key (fst kv))) ps = true ->
  forallb (fun kv => is_undefined (snd kv) || json_canonical (snd kv)) ps = true ->
  exists s, json_stringify (JObject ps) = Some s /\ json_parse s = Some (JObject (drop_undefined ps)).
Proof.
  intros Hd Hi Hv. rewrite stringify_drop_undefined by exact Hi.
  destruct (stringify_encodes (JObject (drop_undefined ps))) as (s & Hs & He).
  - simpl. rewrite (proj2 (keys_distinct_iff _)) by now apply NoDup_map_filter.
    unfold drop_undefined. rewrite forallb_filter by exact Hi. simpl.
    clear Hd Hi. induction ps as [|[k x] ps IH]; [reflexivity|].
    simpl in Hv |- *. apply andb_prop in Hv as [Hx Hv].
    destruct x; simpl in Hx |- *; rewrite ?Hx; auto.
  - exists s. split; [exact Hs | now apply json_parse_encodes].
Qed.

(** C26: [JSON.parse(JSON.stringify(v))] gives back [v] for every value
    without [undefined] or blobs whose numbers are finite doubles
    (integral or not, in positional or exponent notation) and whose
    objects have distinct keys that are no array index:
    the bodies api.js sends and the backend reads are the values it built
    (round trip). *)
Theorem json_parse_stringify v :
  json_canonical v = true -> exists s, json_stringify v = Some s /\ json_parse s = Some v.
Proof.
  intros Hc. destruct (stringify_encodes v Hc) as (s & Hs & He).
  exists s. split; [exact Hs | now apply json_parse_encodes].
Qed.

Lemma json_parse_stringify_witness :
  json_canonical login_reply = true /\
  exists s, json_stringify login_reply = Some s /\ json_parse s = Some login_reply.
Proof. split; [reflexivity | apply json_parse_stringify; reflexivity]. Defined.

(** ** Parsed objects have distinct keys *)

Section ParsedWf.
Variable pv : list ascii -> option (jsval * list ascii).
Hypothesis pv_wf : forall l v r, pv l = Some (v, r) -> json_wf v = true.

Lemma parse_elements_wf g acc l v r :
  forallb json_wf acc = true -> parse_elements pv g acc l = Some (v, r) -> json_wf v = true.
Proof.
  revert acc l. induction g as [|g IH]; intros acc l Hacc Hp; simpl in Hp; [discriminate|].
  destruct (pv l) as [[x l2]|] eqn:Hx; [|discriminate].
  assert (Hacc' : forallb json_wf (acc ++ [x]) = true)
    by (rewrite forallb_app, Hacc; simpl; now rewrite (pv_wf _ _ _ Hx)).
  destruct (skip_ws l2) as [|c l3]; [discriminate|].
  destruct (c =? ",")%char eqn:Ec; [apply Ascii.eqb_eq in Ec; subst; eapply IH; eassumption|].
  destruct (c =? "]")%char eqn:Eb; [apply Ascii.eqb_eq in Eb; subst; simpl in Hp; now inv Hp|].
  destruct c as [[] [] [] [] [] [] [] []]; discriminate.
Qed.

Lemma parse_members_wf g acc l v r :
  keys_distinct (map fst acc) = true -> forallb (fun kv => json_wf (snd kv)) acc = true ->
  parse_members pv g acc l = Some (v, r) -> json_wf v = true.
Proof.
  revert acc l. induction g as [|g IH]; intros acc l Hk Hacc Hp; simpl in Hp; [discriminate|].
  destruct l as [|q l2]; [discriminate|]. destruct (q =? dquote)%char; [|discriminate].
  destruct (parse_chars l2) as [[k l3]|]; [|discriminate].
  destruct (skip_ws l3) as [|c l4]; [discriminate|].
  destruct (c =? ":")%char eqn:Ec; [apply Ascii.eqb_eq in Ec; subst|
    destruct c as [[] [] [] [] [] [] [] []]; discriminate].
  destruct (pv (skip_ws l4)) as [[x l5]|] eqn:Hx; [|discriminate].
  assert (Hk' : keys_distinct (map fst (obj_set acc (of_chars k) x)) = true)
    by now apply keys_distinct_iff, obj_set_wf, keys_distinct_iff.
  assert (Hacc' : forallb (fun kv => json_wf (snd kv)) (obj_set acc (of_chars k) x) = true)
    by (apply obj_set_forallb; [exact (pv_wf _ _ _ Hx) | exact Hacc]).
  destruct (skip_ws l5) as [|c l6]; [discriminate|].
  destruct (c =? ",")%char eqn:Ec; [apply Ascii.eqb_eq in Ec; subst; eapply IH; eassumption|].
  destruct (c =? "}")%char eqn:Eb; [apply Ascii.eqb_eq in Eb; subst; simpl in Hp; inv Hp|
    destruct c as [[] [] [] [] [] [] [] []]; discriminate].
  simpl. now rewrite Hk', Hacc'.
Qed.

End ParsedWf.

Lemma literal_wf l v r : literal l = Some (v, r) -> json_wf v = true.
Proof. unfold literal. repeat case_if; intros H; inv H; reflexivity. Qed.

Lemma parse_value_wf fuel l v r : parse_value fuel l = Some (v, r) -> json_wf v = true.
Proof.
  revert l v r. induction fuel as [|f IH]; intros l v r Hp; [discriminate|].
  destruct l as [|c l]; [discriminate|]. cbn [parse_value] in Hp.
  destruct (c =? "[")%char.
  - destruct (skip_ws l) as [|c' r']; [discriminate|]. destruct (c' =? "]")%char; [now inv Hp|].
    exact (parse_elements_wf _ IH f [] _ _ _ eq_refl Hp).
  - destruct (c =? "{")%char.
    + destruct (skip_ws l) as [|c' r']; [discriminate|]. destruct (c' =? "}")%char; [now inv Hp|].
      exact (parse_members_wf _ IH f [] _ _ _ eq_refl eq_refl Hp).
    + destruct (c =? dquote)%char; [destruct (parse_chars l) as [[]|]; now inv Hp|].
      destruct (literal (c :: l)) as [[x r0]|] eqn:Hl; [inv Hp; exact (literal_wf _ _ _ Hl)|].
      destruct (scan_number (c :: l)) as [[]|]; now inv Hp.
Qed.

(** Every value [JSON.parse] returns has distinct keys in each of its
    objects, at every depth. *)
Lemma json_parse_wf s v : json_parse s = Some v -> json_wf v = true.
Proof.
  unfold json_parse. destruct (parse_value _ _) as [[x r]|] eqn:Hp; [|discriminate].
  destruct (skip_ws r); [|discriminate]. intros H. inv H. exact (parse_value_wf _ _ _ _ Hp).
Qed.

(** C29: [JSON.parse] of an object text whose members are the keys of
    [ps] with their printed values, in order and possibly repeated, is the
    object built by setting them one after the other
    (CreateDataProperty): a repeated key keeps the position of its first
    occurrence and takes its last value, so the properties api.js reads
    from a body ([url], [token], [isAdmin]) have the value sent last. *)
Theorem json_parse_repeated_keys (ps : props) :
  forallb (fun kv => json_canonical (snd kv)) ps = true ->
  json_parse ("{" ++ String.concat "," (json_members (map (fun '(k, x) => (k, json_stringify x)) ps))
              ++ "}") = Some (JObject (set_all [] ps)).
Proof.
  intros Hc. destruct (members_texts ps) as (ms & -> & Hall); [|exact Hc|].
  - apply Forall_forall. intros kv _. apply stringify_encodes.
  - apply json_parse_encodes, encodes_object_set_all, Hall.
Qed.

Lemma json_parse_repeated_keys_witness :
  forallb (fun kv => json_canonical (snd kv))
    [("token", JString "T1"); ("isAdmin", JBool false); ("token", JString "T2")] = true /\
  set_all [] [("token", JString "T1"); ("isAdmin", JBool false); ("token", JString "T2")] =
    [("token", JString "T2"); ("isAdmin", JBool false)] /\
  json_parse duplicate_token_reply = Some (JObject [("token", JString "T2"); ("isAdmin", JBool false)]).
Proof.
  split; [reflexivity|]. split; [reflexivity|].
  exact (json_parse_repeated_keys
           [("token", JString "T1"); ("isAdmin", JBool false); ("token", JString "T2")] eq_refl).
Defined.

End JsonParse.
