(* ===== verification/FormUrlencoded.v ===== *)
(** * URLSearchParams and the URL search setter

    [getTopProducts], [searchProducts] and [uploadImage] build their query
    with [url.search = new URLSearchParams(params).toString()] (api.js
    lines 64-66, 76-83, 150-152).  This file models, after the WHATWG URL
    standard:
    - [search_params_of_record]: [new URLSearchParams(record)], the
      record's keys in [[OwnPropertyKeys]] order with their values
      converted by [ToString];
    - [urlencoded_serialize]: the application/x-www-form-urlencoded
      serializer behind [toString()] (UTF-8 bytes, [+] for a space,
      [*-._] and alphanumerics kept, every other byte as [%XX]);
    - [urlencoded_parse]: the application/x-www-form-urlencoded parser
      (split on [&], split at the first [=], [+] to space,
      percent-decoding, UTF-8 decoding), the inverse the round-trip
      theorem is stated against;
    - [url_with_search]: the [search] setter of an [https] URL (an empty
      value clears the query; otherwise one leading [?] is dropped and the
      rest is percent-encoded with the special-query set).
    Strings hold code units below 256 ([JsValue]); UTF-8 decoding gives
    [None] for byte sequences that denote other code points.
*)

From Stdlib Require Import String Ascii List ZArith Lia Bool.
From S2P Require Import Prelude JsNumber JsValue.
Import ListNotations.
Import JsNumber JsValue.

Module FormUrlencoded.

Local Open Scope string_scope.
Local Open Scope list_scope.
Local Open Scope Z_scope.

(** ** UTF-8 *)

Definition utf8_unit (c : ascii) : list Z :=
  let n := code c in
  if n <? 128 then [n] else [192 + n / 64; 128 + n mod 64].

Definition utf8_encode (s : string) : list Z := flat_map utf8_unit (chars s).

Fixpoint utf8_decode (bs : list Z) : option (list ascii) :=
  match bs with
  | [] => Some []
  | b :: r =>
      if b <? 128 then option_map (cons (chr b)) (utf8_decode r)
      else if (194 <=? b) && (b <=? 195) then
        match r with
        | b2 :: r' =>
            if (128 <=? b2) && (b2 <? 192)
            then option_map (cons (chr ((b - 192) * 64 + (b2 - 128)))) (utf8_decode r')
            else None
        | [] => None
        end
      else None
  end.

(** ** The urlencoded serializer *)

Definition hex_upper (d : Z) : ascii := if d <? 10 then digit_char d else chr (55 + d).

Definition in_range (lo hi b : Z) : bool := (lo <=? b) && (b <=? hi).

(** The bytes the serializer leaves as they are: [*], [-], [.], digits,
    upper-case letters, [_] and lower-case letters. *)
Definition form_safe (b : Z) : bool :=
  (b =? 42) || (b =? 45) || (b =? 46) || in_range 48 57 b || in_range 65 90 b
  || (b =? 95) || in_range 97 122 b.

Definition byte_serialize (b : Z) : list ascii :=
  if b =? 32 then ["+"%char]
  else if form_safe b then [chr b]
  else ["%"%char; hex_upper (b / 16); hex_upper (b mod 16)].

Definition form_encode (s : string) : list ascii := flat_map byte_serialize (utf8_encode s).

Fixpoint join_with {A} (sep : A) (xs : list (list A)) : list A :=
  match xs with
  | [] => []
  | [x] => x
  | x :: r => x ++ sep :: join_with sep r
  end.

Definition urlencoded_serialize (pairs : list (string * string)) : string :=
  of_chars (join_with "&"%char
              (map (fun nv => form_encode (fst nv) ++ "="%char :: form_encode (snd nv)) pairs)).

(** [new URLSearchParams(record)]: every own enumerable key with the
    [ToString] of its value. *)
Definition search_params_of_record (ps : props) : list (string * string) :=
  map (fun kv => (fst kv, to_string (snd kv))) (ordered_props ps).

(** ** The urlencoded parser *)

Fixpoint split_on (sep : Z) (l : list Z) : list (list Z) :=
  match l with
  | [] => [[]]
  | b :: r =>
      if b =? sep then [] :: split_on sep r
      else match split_on sep r with
           | x :: xs => (b :: x) :: xs
           | [] => [[b]]
           end
  end.

Fixpoint split_first (sep : Z) (l : list Z) : list Z * list Z :=
  match l with
  | [] => ([], [])
  | b :: r => if b =? sep then ([], r) else let (a, c) := split_first sep r in (b :: a, c)
  end.

Definition hex_val (b : Z) : option Z :=
  if in_range 48 57 b then Some (b - 48)
  else if in_range 65 70 b then Some (b - 55)
  else if in_range 97 102 b then Some (b - 87)
  else None.

Fixpoint percent_decode (l : list Z) : list Z :=
  match l with
  | [] => []
  | b :: t =>
      if b =? 37 then
        match t with
        | h1 :: h2 :: r =>
            match hex_val h1, hex_val h2 with
            | Some x, Some y => (x * 16 + y) :: percent_decode r
            | _, _ => b :: percent_decode t
            end
        | _ => b :: percent_decode t
        end
      else b :: percent_decode t
  end.

Definition plus_to_space (b : Z) : Z := if b =? 43 then 32 else b.

Definition decode_component (l : list Z) : option string :=
  option_map of_chars (utf8_decode (percent_decode (map plus_to_space l))).

Fixpoint parse_sequences (seqs : list (list Z)) : option (list (string * string)) :=
  match seqs with
  | [] => Some []
  | [] :: r => parse_sequences r
  | sq :: r =>
      let (n, v) := split_first 61 sq in
      match decode_component n, decode_component v, parse_sequences r with
      | Some n', Some v', Some rest => Some ((n', v') :: rest)
      | _, _, _ => None
      end
  end.

Definition urlencoded_parse (s : string) : option (list (string * string)) :=
  parse_sequences (split_on 38 (utf8_encode s)).

(** ** The search setter of a special URL *)

(** The special-query percent-encode set: C0 controls, space, the double
    quote, [#], [<], [>], the apostrophe and everything above [~]. *)
Definition in_special_query_set (n : Z) : bool :=
  (n <? 33) || (126 <? n) || (n =? 34) || (n =? 35) || (n =? 60) || (n =? 62) || (n =? 39).

Definition special_query_encode (c : ascii) : list ascii :=
  if in_special_query_set (code c)
  then flat_map (fun b => ["%"%char; hex_upper (b / 16); hex_upper (b mod 16)]) (utf8_unit c)
  else [c].

Definition url_with_search (href search : string) : string :=
  match chars search with
  | [] => href
  | c :: r =>
      let input := if (c =? "?")%char then r else c :: r in
      href ++ of_chars ("?"%char :: flat_map special_query_encode input)
  end.

(** ** Checks used by the proofs *)

(** [chunk] percent-decodes to the single byte [b]. *)
Definition chunk_decodes (chunk : list Z) (b : Z) : bool :=
  match chunk with
  | [c] => negb (c =? 37) && (c =? b)
  | [p; h1; h2] =>
      (p =? 37) && match hex_val h1, hex_val h2 with
                   | Some x, Some y => x * 16 + y =? b
                   | _, _ => false
                   end
  | _ => false
  end.

(** The serialisation of byte [b] is ASCII, holds neither [&] nor [=], and
    decodes back to [b]. *)
Definition chunk_ok (b : Z) : bool :=
  let cs := map code (byte_serialize b) in
  chunk_decodes (map plus_to_space cs) b
  && forallb (fun c => (c <? 128) && negb (c =? 38) && negb (c =? 61)
                       && negb (in_special_query_set c) && negb (c =? 63)) cs.

(** A character the search setter keeps and that is not [?]. *)
Definition query_safe (c : ascii) : Prop :=
  in_special_query_set (code c) = false /\ code c <> 63.

Definition url_safe (c : ascii) : Prop :=
  code c < 128 /\ code c <> 38 /\ code c <> 61
  /\ in_special_query_set (code c) = false /\ code c <> 63.

(** ** UTF-8 round trip *)

Lemma utf8_unit_ascii c : code c < 128 -> utf8_unit c = [code c].
Proof. intros H. unfold utf8_unit. case_if; zbool; [reflexivity | lia]. Qed.

Lemma utf8_encode_ascii l :
  Forall (fun c => code c < 128) l -> utf8_encode (of_chars l) = map code l.
Proof.
  intros H. unfold utf8_encode. rewrite list_ascii_of_string_of_list_ascii.
  induction H as [|c l Hc _ IH]; simpl; [reflexivity|].
  now rewrite utf8_unit_ascii, IH.
Qed.

Lemma utf8_decode_unit c rest :
  utf8_decode (utf8_unit c ++ rest) = option_map (cons c) (utf8_decode rest).
Proof.
  pose proof (code_bound c) as Hc. unfold utf8_unit.
  case_if; zbool; cbn [app utf8_decode].
  - replace (code c <? 128) with true by (symmetry; apply Z.ltb_lt; lia).
    now rewrite chr_code.
  - assert (H2 : 2 <= code c / 64 < 4) by (split; [apply Z.div_le_lower_bound | apply Z.div_lt_upper_bound]; lia).
    assert (H3 : 0 <= code c mod 64 < 64) by (apply Z.mod_pos_bound; lia).
    replace (192 + code c / 64 <? 128) with false by (symmetry; apply Z.ltb_ge; lia).
    replace ((194 <=? 192 + code c / 64) && (192 + code c / 64 <=? 195)) with true
      by (symmetry; apply andb_true_intro; split; apply Z.leb_le; lia).
    replace ((128 <=? 128 + code c mod 64) && (128 + code c mod 64 <? 192)) with true
      by (symmetry; apply andb_true_intro; split; [apply Z.leb_le | apply Z.ltb_lt]; lia).
    replace ((192 + code c / 64 - 192) * 64 + (128 + code c mod 64 - 128)) with (code c)
      by (pose proof (Z.div_mod (code c) 64 ltac:(lia)); lia).
    now rewrite chr_code.
Qed.

Lemma utf8_decode_encode s : utf8_decode (utf8_encode s) = Some (chars s).
Proof.
  unfold utf8_encode. induction (chars s) as [|c l IH]; simpl; [reflexivity|].
  now rewrite utf8_decode_unit, IH.
Qed.

Lemma utf8_encode_bytes s : Forall (fun b => 0 <= b < 256) (utf8_encode s).
Proof.
  unfold utf8_encode. induction (chars s) as [|c l IH]; simpl; [constructor|].
  apply Forall_app; split; [|exact IH].
  pose proof (code_bound c). unfold utf8_unit.
  case_if; zbool.
  - constructor; [lia | constructor].
  - assert (0 <= code c / 64 < 4) by (split; [apply Z.div_pos | apply Z.div_lt_upper_bound]; lia).
    pose proof (Z.mod_pos_bound (code c) 64 ltac:(lia)).
    constructor; [lia|]. constructor; [lia | constructor].
Qed.

(** ** Percent-encoding round trip *)

Lemma chunk_decodes_spec chunk b rest :
  chunk_decodes chunk b = true -> percent_decode (chunk ++ rest) = b :: percent_decode rest.
Proof.
  destruct chunk as [|c [|h1 [|h2 [|x r]]]]; simpl; try discriminate.
  - intros H. apply andb_prop in H as [H1 H2]. apply negb_true_iff in H1.
    apply Z.eqb_eq in H2. subst. now rewrite H1.
  - intros H. apply andb_prop in H as [H1 H2]. zbool. subst.
    destruct (hex_val h1), (hex_val h2); try discriminate. zbool. now subst.
Qed.

Lemma chunk_ok_all b : 0 <= b < 256 -> chunk_ok b = true.
Proof.
  intros H.
  assert (Hall : forallb chunk_ok (map Z.of_nat (seq 0 256)) = true) by (vm_compute; reflexivity).
  rewrite forallb_forall in Hall. apply Hall, in_map_iff.
  exists (Z.to_nat b). split; [lia | apply in_seq; lia].
Qed.

Lemma byte_serialize_safe b : 0 <= b < 256 -> Forall url_safe (byte_serialize b).
Proof.
  intros H. pose proof (chunk_ok_all b H) as Hok. unfold chunk_ok in Hok.
  apply andb_prop in Hok as [_ Hok]. rewrite forallb_forall in Hok.
  apply Forall_forall. intros c Hc. specialize (Hok (code c) (in_map _ _ _ Hc)).
  repeat match goal with Hb : _ && _ = true |- _ => apply andb_prop in Hb as [Hok ?] end.
  repeat match goal with Hb : negb _ = true |- _ => apply negb_true_iff in Hb end.
  zbool. unfold url_safe. repeat split; assumption.
Qed.

Lemma form_encode_safe s : Forall url_safe (form_encode s).
Proof.
  unfold form_encode. pose proof (utf8_encode_bytes s) as Hb.
  induction Hb as [|b l Hb _ IH]; simpl; [constructor|].
  apply Forall_app. split; [apply byte_serialize_safe, Hb | exact IH].
Qed.

Lemma percent_decode_form_encode s :
  percent_decode (map plus_to_space (map code (form_encode s))) = utf8_encode s.
Proof.
  unfold form_encode. pose proof (utf8_encode_bytes s) as Hb.
  induction Hb as [|b l Hb _ IH]; simpl; [reflexivity|].
  rewrite !map_app. pose proof (chunk_ok_all b Hb) as Hok. unfold chunk_ok in Hok.
  apply andb_prop in Hok as [Hok _]. rewrite (chunk_decodes_spec _ _ _ Hok). now rewrite IH.
Qed.

Lemma decode_component_form_encode s : decode_component (map code (form_encode s)) = Some s.
Proof.
  unfold decode_component. rewrite percent_decode_form_encode, utf8_decode_encode.
  simpl. now rewrite string_of_list_ascii_of_string.
Qed.

(** ** Splitting *)

Lemma split_on_nosep sep l : ~ In sep l -> split_on sep l = [l].
Proof.
  induction l as [|b r IH]; simpl; intros Hn; [reflexivity|].
  case_if; zbool; [tauto|]. rewrite IH by tauto. reflexivity.
Qed.

Lemma split_on_app sep x l : ~ In sep x -> split_on sep (x ++ sep :: l) = x :: split_on sep l.
Proof.
  induction x as [|b r IH]; simpl; intros Hn.
  - now rewrite Z.eqb_refl.
  - case_if; zbool; [tauto|]. rewrite IH by tauto. reflexivity.
Qed.

Lemma split_on_join sep xs :
  xs <> [] -> Forall (fun x => ~ In sep x) xs -> split_on sep (join_with sep xs) = xs.
Proof.
  intros Hne Hx. induction Hx as [|x r Hx Hr IH]; [congruence|].
  destruct r as [|y r]; simpl.
  - now apply split_on_nosep.
  - rewrite split_on_app by assumption. f_equal. apply IH. discriminate.
Qed.

Lemma split_first_app sep n v : ~ In sep n -> split_first sep (n ++ sep :: v) = (n, v).
Proof.
  induction n as [|b r IH]; simpl; intros Hn.
  - now rewrite Z.eqb_refl.
  - case_if; zbool; [tauto|]. now rewrite IH by tauto.
Qed.

Lemma map_join_with {A B} (f : A -> B) sep xs :
  map f (join_with sep xs) = join_with (f sep) (map (map f) xs).
Proof.
  induction xs as [|x [|y r] IH]; simpl; try reflexivity.
  rewrite map_app. simpl in *. now rewrite IH.
Qed.

Lemma join_with_forall {A} (P : A -> Prop) sep xs :
  P sep -> Forall (Forall P) xs -> Forall P (join_with sep xs).
Proof.
  intros Hs H. induction H as [|x r Hx Hr IH]; simpl; [constructor|].
  destruct r; [assumption|]. apply Forall_app. split; [assumption | constructor; assumption].
Qed.

Lemma url_safe_not_in sep l :
  (sep = 38 \/ sep = 61) -> Forall url_safe l -> ~ In sep (map code l).
Proof.
  intros Hs Hl Hin. apply in_map_iff in Hin as (c & Hc & Hin).
  rewrite Forall_forall in Hl. specialize (Hl c Hin). unfold url_safe in Hl. destruct Hl; lia.
Qed.

(** The encoded pair [name=value]. *)
Lemma pair_chunk_safe nv :
  Forall (fun c => code c < 128) (form_encode (fst nv) ++ "="%char :: form_encode (snd nv)).
Proof.
  apply Forall_app. split; [|constructor; [reflexivity|]];
    eapply Forall_impl; try apply form_encode_safe; unfold url_safe; intros c Hc; tauto.
Qed.

Lemma parse_pairs pairs :
  parse_sequences
    (map (fun nv => map code (form_encode (fst nv)) ++ 61 :: map code (form_encode (snd nv))) pairs)
  = Some pairs.
Proof.
  induction pairs as [|[n v] r IH]; simpl; [reflexivity|].
  destruct (map code (form_encode n) ++ 61 :: map code (form_encode v)) eqn:E.
  { destruct (map code (form_encode n)); discriminate. }
  rewrite <- E, split_first_app by (apply url_safe_not_in; [right; reflexivity | apply form_encode_safe]).
  now rewrite !decode_component_form_encode, IH.
Qed.

Lemma parse_serialize pairs : urlencoded_parse (urlencoded_serialize pairs) = Some pairs.
Proof.
  unfold urlencoded_parse, urlencoded_serialize.
  rewrite utf8_encode_ascii.
  2: { apply join_with_forall; [reflexivity|]. apply Forall_forall.
       intros x Hx. apply in_map_iff in Hx as (nv & <- & _). apply pair_chunk_safe. }
  rewrite map_join_with, map_map.
  destruct pairs as [|nv r]; [reflexivity|].
  rewrite split_on_join.
  - rewrite <- (parse_pairs (nv :: r)). f_equal. apply map_ext. intros [n v]. simpl.
    now rewrite map_app.
  - discriminate.
  - apply Forall_forall. intros x Hx. apply in_map_iff in Hx as ([n v] & <- & _).
    simpl. rewrite map_app. simpl. intros Hin. apply in_app_or in Hin as [Hin|[Hin|Hin]];
      try discriminate; revert Hin; apply url_safe_not_in; auto using form_encode_safe.
Qed.

(** C12: the query string [URLSearchParams.toString()] produces parses back,
    by the urlencoded parser, to exactly the pairs it was built from, for
    any names and values (round trip). *)
Theorem urlencoded_roundtrip pairs : urlencoded_parse (urlencoded_serialize pairs) = Some pairs.
Proof. apply parse_serialize. Qed.

(** ** The search setter on a serialised query *)

Lemma special_query_encode_plain l :
  Forall query_safe l -> flat_map special_query_encode l = l.
Proof.
  induction 1 as [|c l Hc _ IH]; [reflexivity|].
  change (flat_map special_query_encode (c :: l))
    with (special_query_encode c ++ flat_map special_query_encode l).
  rewrite IH. unfold special_query_encode. destruct Hc as (Hq & _).
  now rewrite Hq.
Qed.

Lemma form_encode_query_safe s : Forall query_safe (form_encode s).
Proof.
  eapply Forall_impl; [|apply form_encode_safe].
  intros c (_ & _ & _ & Hq & H63). split; assumption.
Qed.

Lemma serialize_safe pairs :
  Forall query_safe (join_with "&"%char
    (map (fun nv => form_encode (fst nv) ++ "="%char :: form_encode (snd nv)) pairs)).
Proof.
  apply join_with_forall; [split; [reflexivity | discriminate]|].
  apply Forall_forall. intros x Hx. apply in_map_iff in Hx as (nv & <- & _).
  apply Forall_app. split; [apply form_encode_query_safe|].
  constructor; [split; [reflexivity | discriminate] | apply form_encode_query_safe].
Qed.

(** Setting [search] to a non-empty serialised query appends [?] and the
    query unchanged; an empty one leaves the URL without a query. *)
Lemma url_with_search_serialize href pairs :
  url_with_search href (urlencoded_serialize pairs) =
  match pairs with
  | [] => href
  | _ => (href ++ "?" ++ urlencoded_serialize pairs)%string
  end.
Proof.
  unfold url_with_search, urlencoded_serialize. rewrite list_ascii_of_string_of_list_ascii.
  pose proof (serialize_safe pairs) as Hs.
  destruct pairs as [|nv r]; [reflexivity|].
  destruct (join_with _ _) as [|c l] eqn:E.
  - destruct nv as [n v]; simpl in E. destruct r; simpl in E;
      [destruct (form_encode n); discriminate | apply app_eq_nil in E as [_ E]; discriminate].
  - rewrite <- E in Hs. rewrite E in Hs. inversion Hs as [|c' l' Hc Hl]; subst.
    destruct (Ascii.eqb_spec c "?"%char) as [->|Hne].
    + destruct Hc as (_ & Hq). exfalso. apply Hq. reflexivity.
    + rewrite special_query_encode_plain by assumption. reflexivity.
Qed.

End FormUrlencoded.
