(* ===== verification/Session.v ===== *)
(** * The session collaborator [./auth]

    api.js imports [auth] from [./auth], a module that is not part of the
    sources.  It is used through two calls: [auth.getCurrentToken()]
    (api.js lines 10, 28, 48, 93) and [auth.logIn(token, isAdmin)] (line
    136).  The interface is the type class [Session]: a session state and
    the two operations.  [SessionLaws] is the contract the client relies
    on: after [logIn(t, a)] the current token is [t].  [memory_session] is
    a reference implementation after the spec (section 3: a token, [null]
    when logged out, and an admin flag), which discharges the contract. *)

From Stdlib Require Import String List ZArith.
From S2P Require Import Prelude JsNumber JsValue.
Import JsValue.

Module Session.

Class Session (S : Type) := {
  get_current_token : S -> jsval;
  log_in : jsval -> jsval -> S -> S
}.

Class SessionLaws (S : Type) `{Session S} := {
  get_current_token_log_in : forall tok adm s, get_current_token (log_in tok adm s) = tok
}.

Record memory_session := { ms_token : jsval; ms_is_admin : jsval }.

Definition logged_out : memory_session := {| ms_token := JNull; ms_is_admin := JBool false |}.

#[export] Instance memory_session_ops : Session memory_session := {|
  get_current_token := ms_token;
  log_in := fun tok adm _ => {| ms_token := tok; ms_is_admin := adm |}
|}.

#[export] Instance memory_session_laws : SessionLaws memory_session.
Proof. constructor. reflexivity. Qed.

End Session.
