(* ===== verification/Effects.v ===== *)
(** * Requests, responses and the program monad

    The functions of api.js are [async]: each [await] suspends on a call
    to a collaborator.  A function is modelled as a program of the
    inductive monad [Api]: a tree whose nodes are those calls and whose
    branches are the possible answers.  The calls are
    - [GetToken]: [auth.getCurrentToken()];
    - [LogIn]: [auth.logIn(token, isAdmin)];
    - [Fetch]: [fetch(url, init)], answered by a [Response] or by a
      network failure (the promise rejects with a [TypeError]);
    - [Now]: [new Date().getTime()];
    - [Ulid]: [ulid()];
    - [Log]: [console.log(...)].
    [Await] is an [await] on a promise that settles without a request of
    its own ([await response.json()], the promise of an [async] call): the
    task suspends there and other tasks may run before it resumes; an
    [await fetch(...)] is the [Fetch] node itself, which suspends until
    the network answers.
    [Throw] is a rejected promise (a thrown exception), [catch] is
    [try ... catch].  [run] interprets a program against an environment
    of oracles for the network, the clock and the identifier generator,
    threading the session state and recording the trace of calls.  Every
    program terminates: [run] is structural on the tree. *)

From Stdlib Require Import String Ascii List ZArith Lia Bool.
From S2P Require Import Prelude JsNumber JsValue JsonParse Session.
Import ListNotations.
Import JsNumber JsValue JsonParse Session.

Module Effects.

Local Open Scope string_scope.
Local Open Scope list_scope.

(** ** HTTP *)

Inductive body : Type :=
| BodyText (s : string)
| BodyBlob (data : list Byte.byte).

(** The parts of a [Request] the program sets: method, URL, mode,
    headers in the order written, body. *)
Record request : Type := {
  rq_method : string;
  rq_url : string;
  rq_mode : option string;
  rq_headers : list (string * string);
  rq_body : option body
}.

(** A [Response]: its status and the text of its body. *)
Record response : Type := {
  rs_status : Z;
  rs_body : string
}.

(** The body read as JSON ([JSON.parse] of its text); [None] when it is
    not JSON, so that [response.json()] rejects with a [SyntaxError]. *)
Definition rs_json (r : response) : option jsval := json_parse (rs_body r).
Arguments rs_json : simpl never.

(** [Response.ok]: the status is in 200-299. *)
Definition rs_ok (r : response) : bool := (200 <=? rs_status r)%Z && (rs_status r <=? 299)%Z.

Inductive fetch_outcome : Type :=
| Resolved (r : response)
| NetworkError.

(** ** Errors *)

Inductive js_error : Type :=
| Error (msg : string)
| TypeError (msg : string)
| SyntaxError.

Definition failed_to_fetch : js_error := TypeError "Failed to fetch".

Definition cannot_read_property : js_error := TypeError "Cannot read properties of null".

Inductive log_item : Type :=
| LogValue (v : jsval)
| LogError (e : js_error).

(** ** The program monad *)

Inductive Api (A : Type) : Type :=
| Ret (a : A)
| Throw (e : js_error)
| GetToken (k : jsval -> Api A)
| LogIn (token isAdmin : jsval) (k : Api A)
| Fetch (rq : request) (k : fetch_outcome -> Api A)
| Now (k : Z -> Api A)
| Ulid (k : string -> Api A)
| Log (items : list log_item) (k : Api A)
| Await (k : Api A).

Arguments Ret {A} a.
Arguments Throw {A} e.
Arguments GetToken {A} k.
Arguments LogIn {A} token isAdmin k.
Arguments Fetch {A} rq k.
Arguments Now {A} k.
Arguments Ulid {A} k.
Arguments Log {A} items k.
Arguments Await {A} k.

Fixpoint bind {A B} (m : Api A) (f : A -> Api B) : Api B :=
  match m with
  | Ret a => f a
  | Throw e => Throw e
  | GetToken k => GetToken (fun t => bind (k t) f)
  | LogIn t a k => LogIn t a (bind k f)
  | Fetch rq k => Fetch rq (fun o => bind (k o) f)
  | Now k => Now (fun t => bind (k t) f)
  | Ulid k => Ulid (fun u => bind (k u) f)
  | Log v k => Log v (bind k f)
  | Await k => Await (bind k f)
  end.

(** [try { m } catch (e) { h(e) }]. *)
Fixpoint catch {A} (m : Api A) (h : js_error -> Api A) : Api A :=
  match m with
  | Ret a => Ret a
  | Throw e => h e
  | GetToken k => GetToken (fun t => catch (k t) h)
  | LogIn t a k => LogIn t a (catch k h)
  | Fetch rq k => Fetch rq (fun o => catch (k o) h)
  | Now k => Now (fun t => catch (k t) h)
  | Ulid k => Ulid (fun u => catch (k u) h)
  | Log v k => Log v (catch k h)
  | Await k => Await (catch k h)
  end.

Notation "x <- m ;; k" := (bind m (fun x => k))
  (at level 61, m at next level, right associativity) : js_scope.
Notation "m ;;; k" := (bind m (fun _ => k))
  (at level 61, right associativity) : js_scope.

Local Open Scope js_scope.

Definition getCurrentToken : Api jsval := GetToken Ret.

Definition logIn (token isAdmin : jsval) : Api unit := LogIn token isAdmin (Ret tt).

(** [await fetch(rq)]: a network failure rejects with a [TypeError]. *)
Definition fetch (rq : request) : Api response :=
  Fetch rq (fun o => match o with
                     | Resolved r => Ret r
                     | NetworkError => Throw failed_to_fetch
                     end).

Definition now : Api Z := Now Ret.

Definition ulid : Api string := Ulid Ret.

Definition console_log (items : list log_item) : Api unit := Log items (Ret tt).

(** [await response.json()]. *)
Definition response_json (r : response) : Api jsval :=
  Await (match rs_json r with
         | Some v => Ret v
         | None => Throw SyntaxError
         end).

(** [await f(...)] for an [async] function [f] of the module: the caller
    resumes in a later task once the promise of [f] settles, fulfilled or
    rejected. *)
Definition await_call {A} (m : Api A) : Api A :=
  catch (x <- m ;; Await (Ret x)) (fun e => Await (Throw e)).

(** [v.k], which throws on [undefined] and [null]. *)
Definition read_prop (v : jsval) (k : string) : Api jsval :=
  match get_prop v k with
  | Some x => Ret x
  | None => Throw cannot_read_property
  end.

(** ** Running a program *)

Inductive event : Type :=
| EvGetToken (token : jsval)
| EvLogIn (token isAdmin : jsval)
| EvFetch (rq : request) (o : fetch_outcome)
| EvNow (t : Z)
| EvUlid (id : string)
| EvLog (items : list log_item).

(** The world outside the session: what the network answers, what the
    clock reads and which identifier [ulid()] returns, each as a function
    of the calls made so far. *)
Record env : Type := {
  net : list event -> request -> fetch_outcome;
  clock : list event -> Z;
  fresh_id : list event -> string
}.

Section Run.
Context {S : Type} `{Session S}.

(** The outcome, the final session and the trace (oldest call first). *)
Fixpoint run {A} (w : env) (m : Api A) (s : S) (tr : list event)
  : (js_error + A) * S * list event :=
  match m with
  | Ret a => (inr a, s, tr)
  | Throw e => (inl e, s, tr)
  | GetToken k =>
      let tok := get_current_token s in run w (k tok) s (tr ++ [EvGetToken tok])
  | LogIn t a k => run w k (log_in t a s) (tr ++ [EvLogIn t a])
  | Fetch rq k =>
      let o := net w tr rq in run w (k o) s (tr ++ [EvFetch rq o])
  | Now k => let t := clock w tr in run w (k t) s (tr ++ [EvNow t])
  | Ulid k => let u := fresh_id w tr in run w (k u) s (tr ++ [EvUlid u])
  | Log v k => run w k s (tr ++ [EvLog v])
  | Await k => run w k s tr
  end.

End Run.

(** The requests of a trace, in order. *)
Definition fetches (tr : list event) : list request :=
  flat_map (fun ev => match ev with EvFetch rq _ => [rq] | _ => [] end) tr.

(** The values of the [Authorization] headers of a request. *)
Definition header_values (name : string) (rq : request) : list string :=
  map snd (filter (fun h => (fst h =? name)%string) (rq_headers rq)).

(** The parts of a run. *)
Definition outcome {E A S'} (r : (E + A) * S' * list event) : E + A := fst (fst r).
Definition final_session {E A S'} (r : (E + A) * S' * list event) : S' := snd (fst r).
Definition trace {E A S'} (r : (E + A) * S' * list event) : list event := snd r.

(** Case analysis on the answers of the environment in a run. *)
Ltac run_step :=
  match goal with
  | |- context [match ?o with Resolved _ => _ | NetworkError => _ end] =>
      let o' := fresh "o" in destruct o as [o'|]
  | |- context [if rs_ok ?r then _ else _] => destruct (rs_ok r)
  | |- context [match rs_json ?r with Some _ => _ | None => _ end] =>
      let j := fresh "j" in destruct (rs_json r) as [j|]
  | |- context [match get_prop ?v ?k with Some _ => _ | None => _ end] =>
      let x := fresh "x" in destruct (get_prop v k) as [x|]
  end.

Ltac run_cases := repeat (try unfold response_json, read_prop; simpl; try run_step).

(** ** Running composed programs *)

Section RunLemmas.
Context {S : Type} `{Session S}.

Lemma run_bind {A B} w (m : Api A) (f : A -> Api B) s tr :
  run w (bind m f) s tr =
  match run w m s tr with
  | (inr a, s', tr') => run w (f a) s' tr'
  | (inl e, s', tr') => (inl e, s', tr')
  end.
Proof. revert s tr. induction m; intros; simpl; auto. Qed.

Lemma run_catch {A} w (m : Api A) (h : js_error -> Api A) s tr :
  run w (catch m h) s tr =
  match run w m s tr with
  | (inl e, s', tr') => run w (h e) s' tr'
  | r => r
  end.
Proof. revert s tr. induction m; intros; simpl; auto. Qed.

(** Sequentially, awaiting an [async] call is running it. *)
Lemma run_await_call {A} w (m : Api A) s tr : run w (await_call m) s tr = run w m s tr.
Proof.
  unfold await_call. rewrite run_catch, run_bind.
  destruct (run w m s tr) as [[[e|a] s'] tr']; reflexivity.
Qed.

End RunLemmas.

End Effects.
