(* ===== verification/Api.v ===== *)
(** * The operations of src/src/lib/api.js

    One definition per function of api.js, composed from the calls of
    [Effects] in the order the source makes them, with the request each
    one sends given as a separate definition:
    - [uploadImage] (lines 148-171) with [signed_url_request] and
      [upload_request];
    - [createProduct] (lines 7-25) with [product_payload] and
      [create_product_request];
    - [createOrder] (lines 27-45) with [order_payload] and [order_request];
    - [getOrders] (lines 47-61) with [orders_request];
    - [getTopProducts] (lines 63-73) with [top_products_request];
    - [searchProducts] (lines 75-90) with [search_params] and
      [search_request];
    - [deleteProduct] (lines 92-105) with [delete_request];
    - [register] (lines 107-120) with [register_request];
    - [login] (lines 122-140) with [login_payload] and [login_request].
    A function without a [return] resolves to [undefined] ([JUndefined]).
    [searchProducts] converts its prices with [JsNumber]: an integer or
    decimal literal is read and multiplied by 100 in double arithmetic. *)

From Stdlib Require Import String Ascii List ZArith Lia Bool.
From S2P Require Import Prelude JsNumber NumberRoundtrip JsValue Json FormUrlencoded Session Effects.
Import ListNotations.
Import JsNumber NumberRoundtrip JsValue Json FormUrlencoded Session Effects.

Module Api.

Local Open Scope list_scope.
Local Open Scope string_scope.
Local Open Scope js_scope.

Definition baseUrl : string := "https://boiling-wildwood-80394.herokuapp.com".

Definition bearer (token : jsval) : string := "Bearer " ++ to_string token.

Definition json_content_type : string * string := ("Content-Type", "application/json").

(** [body: JSON.stringify(v)]: no body when the result is [undefined]. *)
Definition json_body (v : jsval) : option body := option_map BodyText (json_stringify v).

(** [body: file] of a [Request]: a blob is sent as it is, [undefined]
    and [null] mean no body, anything else is sent as its string. *)
Definition body_of_value (v : jsval) : option body :=
  match v with
  | JUndefined | JNull => None
  | JBlob d => Some (BodyBlob d)
  | _ => Some (BodyText (to_string v))
  end.

(** [new Date().getTime()]: TimeClip gives NaN beyond 8.64e15 ms. *)
Definition time_value (t : Z) : jsnum :=
  if (8640000000000000 <? Z.abs t)%Z then NNaN else NFin t.

(** ** uploadImage *)

Definition image_base : string := "https://final-project-web-dev.s3.amazonaws.com/images/".

Definition signed_url_request (filename : string) : request := {|
  rq_method := "GET";
  rq_url := url_with_search (baseUrl ++ "/s3-signed-url")
              (urlencoded_serialize (search_params_of_record [("imageName", JString filename)]));
  rq_mode := None;
  rq_headers := [];
  rq_body := None
|}.

Definition upload_request (presigned file : jsval) : request := {|
  rq_method := "PUT";
  rq_url := to_string presigned;
  rq_mode := None;
  rq_headers := [("Content-Type", "image/*")];
  rq_body := body_of_value file
|}.

Definition uploadImage (file : jsval) : Api jsval :=
  id <- ulid ;;
  let filename := id ++ ".png" in
  response <- fetch (signed_url_request filename) ;;
  json <- response_json response ;;
  presigned <- read_prop json "url" ;;
  catch (_ <- fetch (upload_request presigned file) ;;
         Ret (JString (image_base ++ filename)))
        (fun e => console_log [LogError e] ;;; Ret JUndefined).

(** ** createProduct *)

Definition product_payload (productObject imageUrl : jsval) : jsval :=
  JObject (obj_set (spread_into [] productObject) "imageUrl" imageUrl).

Definition create_product_request (payload token : jsval) : request := {|
  rq_method := "POST";
  rq_url := baseUrl ++ "/products";
  rq_mode := Some "cors";
  rq_headers := [json_content_type; ("Authorization", bearer token)];
  rq_body := json_body payload
|}.

Definition createProduct (productObject image : jsval) : Api jsval :=
  imageUrl <- await_call (uploadImage image) ;;
  let payload := product_payload productObject imageUrl in
  token <- getCurrentToken ;;
  response <- fetch (create_product_request payload token) ;;
  if rs_ok response then Ret JUndefined else Throw (Error "Could not create product").

(** ** createOrder *)

Definition order_payload (values : jsval) (t : Z) : jsval :=
  JObject (obj_set (spread_into [] values) "timestamp" (JNumber (time_value t))).

Definition order_request (payload token : jsval) : request := {|
  rq_method := "POST";
  rq_url := baseUrl ++ "/orders";
  rq_mode := None;
  rq_headers := [json_content_type; ("Authorization", bearer token)];
  rq_body := json_body payload
|}.

Definition createOrder (values : jsval) : Api jsval :=
  token <- getCurrentToken ;;
  t <- now ;;
  let payload := order_payload values t in
  response <- fetch (order_request payload token) ;;
  if rs_ok response then Ret JUndefined else Throw (Error "Could not create order").

(** ** getOrders *)

Definition orders_request (token : jsval) : request := {|
  rq_method := "GET";
  rq_url := baseUrl ++ "/orders";
  rq_mode := None;
  rq_headers := [json_content_type; ("Authorization", bearer token)];
  rq_body := None
|}.

Definition getOrders : Api jsval :=
  token <- getCurrentToken ;;
  response <- fetch (orders_request token) ;;
  if rs_ok response then response_json response
  else Throw (Error "Could not create order").

(** ** getTopProducts *)

Definition top_products_request : request := {|
  rq_method := "GET";
  rq_url := url_with_search (baseUrl ++ "/products")
              (urlencoded_serialize (search_params_of_record [("newest", JString "true")]));
  rq_mode := None;
  rq_headers := [];
  rq_body := None
|}.

Definition getTopProducts : Api jsval :=
  response <- fetch top_products_request ;;
  if rs_ok response then response_json response
  else Throw (Error "Could not fetch products").

(** ** searchProducts *)

(** [!!x && { k: v }]: the object when [x] is truthy, [false] otherwise. *)
Definition cond_field (present : bool) (k : string) (v : jsval) : jsval :=
  if present then JObject [(k, v)] else JBool false.

(** [!!x && { k: Number(x) * 100 }]. *)
Definition price_field (k : string) (x : jsval) : jsval :=
  if to_boolean x then JObject [(k, JNumber (num_mul (to_number x) (NFin 100)))]
  else JBool false.

Definition search_params (name category minRange maxRange : jsval) : props :=
  spread_into
    (spread_into
       (spread_into
          (spread_into [] (cond_field (to_boolean name) "name" name))
          (cond_field (to_boolean category) "category" category))
       (price_field "minRange" minRange))
    (price_field "maxRange" maxRange).

Definition search_request (ps : props) : request := {|
  rq_method := "GET";
  rq_url := url_with_search (baseUrl ++ "/products")
              (urlencoded_serialize (search_params_of_record ps));
  rq_mode := None;
  rq_headers := [];
  rq_body := None
|}.

Definition searchProducts (name category minRange maxRange : jsval) : Api jsval :=
  response <- fetch (search_request (search_params name category minRange maxRange)) ;;
  if rs_ok response then response_json response
  else Throw (Error "Could not fetch products").

(** ** deleteProduct *)

Definition delete_request (productId token : jsval) : request := {|
  rq_method := "DELETE";
  rq_url := baseUrl ++ "/products/" ++ to_string productId;
  rq_mode := Some "cors";
  rq_headers := [("Authorization", bearer token)];
  rq_body := None
|}.

Definition deleteProduct (productId : jsval) : Api jsval :=
  token <- getCurrentToken ;;
  response <- fetch (delete_request productId token) ;;
  if rs_ok response then Ret JUndefined else Throw (Error "Could not delete product").

(** ** register *)

Definition register_request (values : jsval) : request := {|
  rq_method := "POST";
  rq_url := baseUrl ++ "/users";
  rq_mode := Some "cors";
  rq_headers := [json_content_type];
  rq_body := json_body values
|}.

Definition register (values : jsval) : Api jsval :=
  response <- fetch (register_request values) ;;
  if rs_ok response then Ret JUndefined else Throw (Error "Could not register user").

(** ** login *)

Definition login_payload (email password : jsval) : jsval :=
  JObject [("email", email); ("password", password)].

Definition login_request (email password : jsval) : request := {|
  rq_method := "POST";
  rq_url := baseUrl ++ "/login";
  rq_mode := Some "cors";
  rq_headers := [json_content_type];
  rq_body := json_body (login_payload email password)
|}.

Definition login (email password : jsval) : Api jsval :=
  response <- fetch (login_request email password) ;;
  json <- response_json response ;;
  console_log [LogValue json] ;;;
  token <- read_prop json "token" ;;
  isAdmin <- read_prop json "isAdmin" ;;
  console_log [LogValue token; LogValue isAdmin] ;;;
  logIn token isAdmin ;;;
  if rs_ok response then Ret JUndefined else Throw (Error "Could not log in").

(** ** Well-formed requests

    The shape spec section 4.1 gives every request: a method of the
    table, no body on a [GET] or a [DELETE], at most one [Content-Type],
    and the JSON content type on every [POST]. *)

Definition wf_request (rq : request) : bool :=
  let m := rq_method rq in
  let ct := header_values "Content-Type" rq in
  existsb (String.eqb m) ["GET"; "POST"; "PUT"; "DELETE"] &&
  (negb ((m =? "GET") || (m =? "DELETE")) || match rq_body rq with None => true | Some _ => false end) &&
  (length ct <=? 1)%nat &&
  (negb (m =? "POST") || match ct with [c] => (c =? "application/json") | _ => false end).

(** ** Sample environments

    Concrete answers of the outside world, used to instantiate the
    theorems below at inputs where their hypotheses hold. *)

Definition demo_json : jsval :=
  JObject [("url", JString "https://s3.example/put"); ("token", JString "T9");
           ("isAdmin", JBool true)].

(** The text of [demo_json] as a server sends it, with white space. *)
Definition demo_body : string :=
  "{ " ++ quote "url" ++ ": " ++ quote "https://s3.example/put" ++ ", "
  ++ quote "token" ++ ": " ++ quote "T9" ++ ", " ++ quote "isAdmin" ++ ": true }".

Definition demo_response (status : Z) : response := {| rs_status := status; rs_body := demo_body |}.

(** A gateway error page. *)
Definition bad_gateway : response := {| rs_status := 502; rs_body := "<html>Bad Gateway</html>" |}.

Definition invalid_credentials : response :=
  {| rs_status := 401; rs_body := "{" ++ quote "message" ++ ":" ++ quote "Invalid credentials" ++ "}" |}.

(** Every request answered with [status] and [demo_json]. *)
Definition demo_env (status : Z) : env := {|
  net := fun _ _ => Resolved (demo_response status);
  clock := fun _ => 1700000000000%Z;
  fresh_id := fun _ => "01HZX8K2"
|}.

(** As [demo_env 200], but every PUT fails on the network. *)
Definition put_failing_env : env := {|
  net := fun _ rq => if (rq_method rq =? "PUT")%string then NetworkError
                     else Resolved (demo_response 200);
  clock := fun _ => 1700000000000%Z;
  fresh_id := fun _ => "01HZX8K2"
|}.

(** Every request answered with a 502 whose body is not JSON. *)
Definition non_json_env : env := {|
  net := fun _ _ => Resolved bad_gateway;
  clock := fun _ => 1700000000000%Z;
  fresh_id := fun _ => "01HZX8K2"
|}.

(** Every request fails on the network. *)
Definition offline_env : env := {|
  net := fun _ _ => NetworkError;
  clock := fun _ => 1700000000000%Z;
  fresh_id := fun _ => "01HZX8K2"
|}.

(** Every request answered with a 401 whose body has no token. *)
Definition failed_login_env : env := {|
  net := fun _ _ => Resolved invalid_credentials;
  clock := fun _ => 1700000000000%Z;
  fresh_id := fun _ => "01HZX8K2"
|}.

Definition demo_session : memory_session := {| ms_token := JString "T1"; ms_is_admin := JBool false |}.

(** ** Token propagation *)

Section Properties.
Context {S : Type} `{Session S}.

(** [uploadImage] neither reads nor writes the session. *)
Lemma uploadImage_session (w : env) img (s : S) tr : final_session (run w (uploadImage img) s tr) = s.
Proof. unfold uploadImage. run_cases; reflexivity. Qed.

(** C1: each authorised operation that sends a single request
    ([createOrder], [getOrders], [deleteProduct]) sends exactly one
    request, with exactly one [Authorization] header, whose value is
    [Bearer] followed by the token the session holds when the operation
    runs, whatever the network answers. *)
Theorem authorized_requests_use_current_token (w : env) (s : S) values productId :
  map (header_values "Authorization") (fetches (trace (run w (createOrder values) s [])))
    = [[bearer (get_current_token s)]] /\
  map (header_values "Authorization") (fetches (trace (run w getOrders s [])))
    = [[bearer (get_current_token s)]] /\
  map (header_values "Authorization") (fetches (trace (run w (deleteProduct productId) s [])))
    = [[bearer (get_current_token s)]].
Proof. unfold createOrder, getOrders, deleteProduct. repeat split; run_cases; reflexivity. Qed.

(** C4: [createProduct] reads the token only once the image upload is
    over, and immediately before its own request: when [uploadImage]
    completes with [u], the rest of the trace is the token read followed
    by the POST of the payload with [imageUrl = u], authorised with the
    token read. *)
Theorem createProduct_reads_token_after_upload (w : env) (s : S) p img u (s' : S) tr' :
  run w (uploadImage img) s [] = (inr u, s', tr') ->
  exists o, trace (run w (createProduct p img) s []) =
    (tr' ++ [EvGetToken (get_current_token s);
             EvFetch (create_product_request (product_payload p u) (get_current_token s)) o])%list.
Proof.
  intros Hup. pose proof (uploadImage_session w img s []) as Hs.
  rewrite Hup in Hs. unfold final_session in Hs. simpl in Hs. subst s'.
  unfold createProduct. rewrite run_bind, run_await_call, Hup.
  run_cases; eexists; rewrite <- app_assoc; reflexivity.
Qed.

(** C5: the operations that need no session ([register], [login],
    [getTopProducts], [searchProducts]) and both requests of
    [uploadImage] carry no [Authorization] header. *)
Theorem unauthorized_requests_carry_no_token (w : env) (s : S) values email password img
    name category minRange maxRange :
  Forall (fun rq => header_values "Authorization" rq = [])
    (fetches (trace (run w (register values) s []))) /\
  Forall (fun rq => header_values "Authorization" rq = [])
    (fetches (trace (run w (login email password) s []))) /\
  Forall (fun rq => header_values "Authorization" rq = [])
    (fetches (trace (run w getTopProducts s []))) /\
  Forall (fun rq => header_values "Authorization" rq = [])
    (fetches (trace (run w (uploadImage img) s []))) /\
  Forall (fun rq => header_values "Authorization" rq = [])
    (fetches (trace (run w (searchProducts name category minRange maxRange) s []))).
Proof.
  unfold register, login, getTopProducts, uploadImage, searchProducts.
  repeat split; run_cases; repeat constructor.
Qed.

(** ** Payloads *)

(** C6: [createOrder(values)] with an object [values] sends one request,
    to [/orders], whose payload has [timestamp] equal to the clock reading
    [t] at the call and every other field of [values] unchanged. *)
Theorem createOrder_payload (w : env) (s : S) ps t :
  wf_props ps ->
  clock w [EvGetToken (get_current_token s)] = t ->
  (Z.abs t <= 8640000000000000)%Z ->
  fetches (trace (run w (createOrder (JObject ps)) s [])) =
    [order_request (order_payload (JObject ps) t) (get_current_token s)] /\
  (forall k, obj_get (order_payload (JObject ps) t) k =
             if (k =? "timestamp")%string then Some (JNumber (NFin t)) else prop_lookup k ps).
Proof.
  intros Hwf Ht Hb. split.
  - unfold createOrder. run_cases; rewrite Ht; reflexivity.
  - intros k. unfold order_payload, obj_get, time_value.
    replace (8640000000000000 <? Z.abs t)%Z with false by (symmetry; apply Z.ltb_ge; lia).
    destruct (String.eqb_spec k "timestamp") as [->|Hne].
    + apply prop_lookup_obj_set_eq.
    + rewrite prop_lookup_obj_set_ne by congruence. apply spread_object_lookup, Hwf.
Qed.

(** C8: the requests follow the endpoint table of spec section 6: each
    operation that sends one request sends it with the method and to the
    URL of the table, and [uploadImage] asks for its pre-signed URL with
    the [imageName] it generated. *)
Theorem endpoints_match_spec_table (w : env) (s : S) values productId email password img :
  map (fun rq => (rq_method rq, rq_url rq)) (fetches (trace (run w (createOrder values) s [])))
    = [("POST", baseUrl ++ "/orders")] /\
  map (fun rq => (rq_method rq, rq_url rq)) (fetches (trace (run w getOrders s [])))
    = [("GET", baseUrl ++ "/orders")] /\
  map (fun rq => (rq_method rq, rq_url rq)) (fetches (trace (run w getTopProducts s [])))
    = [("GET", baseUrl ++ "/products?newest=true")] /\
  map (fun rq => (rq_method rq, rq_url rq)) (fetches (trace (run w (deleteProduct productId) s [])))
    = [("DELETE", baseUrl ++ "/products/" ++ to_string productId)] /\
  map (fun rq => (rq_method rq, rq_url rq)) (fetches (trace (run w (register values) s [])))
    = [("POST", baseUrl ++ "/users")] /\
  map (fun rq => (rq_method rq, rq_url rq)) (fetches (trace (run w (login email password) s [])))
    = [("POST", baseUrl ++ "/login")] /\
  map (fun rq => (rq_method rq, rq_url rq)) (firstn 1 (fetches (trace (run w (uploadImage img) s []))))
    = [("GET", rq_url (signed_url_request (fresh_id w [] ++ ".png")))].
Proof.
  unfold createOrder, getOrders, getTopProducts, deleteProduct, register, login, uploadImage.
  repeat split; run_cases; reflexivity.
Qed.

(** C21: every request every operation sends, whatever the network
    answers, is well formed in the sense of [wf_request]. *)
Theorem all_requests_well_formed (w : env) (s : S) p img values productId email password
    name category minRange maxRange :
  Forall (fun rq => wf_request rq = true) (fetches (trace (run w (createProduct p img) s []))) /\
  Forall (fun rq => wf_request rq = true) (fetches (trace (run w (createOrder values) s []))) /\
  Forall (fun rq => wf_request rq = true) (fetches (trace (run w getOrders s []))) /\
  Forall (fun rq => wf_request rq = true) (fetches (trace (run w getTopProducts s []))) /\
  Forall (fun rq => wf_request rq = true) (fetches (trace (run w (deleteProduct productId) s []))) /\
  Forall (fun rq => wf_request rq = true) (fetches (trace (run w (register values) s []))) /\
  Forall (fun rq => wf_request rq = true) (fetches (trace (run w (login email password) s []))) /\
  Forall (fun rq => wf_request rq = true)
    (fetches (trace (run w (searchProducts name category minRange maxRange) s []))).
Proof.
  unfold createProduct. rewrite run_bind, run_await_call.
  unfold uploadImage, createOrder, getOrders, getTopProducts, deleteProduct, register, login,
    searchProducts.
  repeat split; run_cases; repeat constructor.
Qed.

End Properties.

(** C11: the query strings of the requests reach the backend intact:
    parsing the query of the URL of [searchProducts] gives back exactly
    its filters as [URLSearchParams] lists them (and no [?] is added when
    there is none), and the query of the pre-signed URL request gives back
    exactly the file name [uploadImage] generated. *)
Theorem request_queries_roundtrip ps filename :
  (search_params_of_record ps = [] -> rq_url (search_request ps) = baseUrl ++ "/products") /\
  (search_params_of_record ps <> [] ->
     exists q, rq_url (search_request ps) = baseUrl ++ "/products?" ++ q /\
               urlencoded_parse q = Some (search_params_of_record ps)) /\
  exists q, rq_url (signed_url_request filename) = baseUrl ++ "/s3-signed-url?" ++ q /\
            urlencoded_parse q = Some [("imageName", filename)].
Proof.
  unfold search_request, signed_url_request. simpl rq_url.
  rewrite !url_with_search_serialize. split; [|split].
  - intros ->. reflexivity.
  - intros Hne. exists (urlencoded_serialize (search_params_of_record ps)).
    destruct (search_params_of_record ps); [contradiction|].
    split; [reflexivity | apply parse_serialize].
  - exists (urlencoded_serialize (search_params_of_record [("imageName", JString filename)])).
    split; [reflexivity | apply parse_serialize].
Qed.

(** ** The query encoder *)

(** The parameters of [searchProducts] as [URLSearchParams] lists them:
    the truthy filters, in order, the prices as [Number::toString] of
    [Number(x) * 100]. *)
Lemma search_params_record name category minRange maxRange :
  search_params_of_record (search_params name category minRange maxRange) =
    ((if to_boolean name then [("name", to_string name)] else [])
     ++ (if to_boolean category then [("category", to_string category)] else [])
     ++ (if to_boolean minRange
         then [("minRange", number_to_string (num_mul (to_number minRange) (NFin 100)))] else [])
     ++ (if to_boolean maxRange
         then [("maxRange", number_to_string (num_mul (to_number maxRange) (NFin 100)))] else []))%list.
Proof.
  unfold search_params, price_field.
  destruct (to_boolean name), (to_boolean category), (to_boolean minRange), (to_boolean maxRange);
    reflexivity.
Qed.

(** C7: the search parameters hold the key of a filter exactly when the
    filter is truthy, in the order name, category, minRange, maxRange. *)
Theorem search_params_keys name category minRange maxRange :
  map fst (search_params name category minRange maxRange) =
    ((if to_boolean name then ["name"] else [])
     ++ (if to_boolean category then ["category"] else [])
     ++ (if to_boolean minRange then ["minRange"] else [])
     ++ (if to_boolean maxRange then ["maxRange"] else []))%list.
Proof.
  unfold search_params, price_field.
  destruct (to_boolean name), (to_boolean category), (to_boolean minRange), (to_boolean maxRange);
    reflexivity.
Qed.

(** C9: the prices reach the backend exactly: when [searchProducts] is
    given a truthy [minRange] or [maxRange] whose [Number(x) * 100] is a
    finite double, the query of the URL it requests parses to a list of
    distinct keys holding that key with a text that [Number()] reads as
    exactly the double the client computed (composition of the price
    conversion, [URLSearchParams], the urlencoded parser and the
    [Number::toString] round trip). *)
Theorem search_prices_reach_backend name category minRange maxRange k x :
  In (k, x) [("minRange", minRange); ("maxRange", maxRange)] ->
  to_boolean x = true ->
  is_finite_double (num_mul (to_number x) (NFin 100)) = true ->
  exists q L s,
    rq_url (search_request (search_params name category minRange maxRange)) =
      baseUrl ++ "/products?" ++ q /\
    urlencoded_parse q = Some L /\ NoDup (map fst L) /\ In (k, s) L /\
    string_to_number s = num_mul (to_number x) (NFin 100).
Proof.
  intros Hk Hx Hf.
  set (L := search_params_of_record (search_params name category minRange maxRange)).
  assert (Hin : In (k, number_to_string (num_mul (to_number x) (NFin 100))) L).
  { unfold L. rewrite search_params_record.
    destruct Hk as [E|[E|[]]]; injection E as <- <-; rewrite Hx;
      destruct (to_boolean name), (to_boolean category), (to_boolean minRange), (to_boolean maxRange);
      simpl; tauto. }
  exists (urlencoded_serialize L), L, (number_to_string (num_mul (to_number x) (NFin 100))).
  split; [|split; [apply parse_serialize | split; [|split; [exact Hin | apply number_to_string_reads, Hf]]]].
  - unfold search_request. simpl rq_url. rewrite url_with_search_serialize. fold L.
    destruct L; [contradiction | reflexivity].
  - unfold L. rewrite search_params_record.
    destruct (to_boolean name), (to_boolean category), (to_boolean minRange), (to_boolean maxRange);
      simpl; repeat constructor; simpl; intuition discriminate.
Qed.

(** C10: a minimum price given as an integer string [n] is sent as the
    decimal notation of [n * 100], exactly, whenever [n * 100] is below
    2^53 in magnitude. *)
Theorem min_price_in_cents n :
  (Z.abs (n * 100) < 2 ^ 53)%Z ->
  search_params_of_record
    (search_params (JString EmptyString) (JString EmptyString) (JString (int_string n))
       (JString EmptyString))
  = [("minRange", int_string (n * 100))].
Proof.
  intros Hb. unfold search_params, price_field.
  assert (Ht : to_boolean (JString (int_string n)) = true).
  { simpl. destruct (String.eqb_spec (int_string n) EmptyString) as [E|];
      [now apply int_string_nonempty in E | reflexivity]. }
  rewrite Ht. unfold to_number. rewrite string_to_number_int_string by lia.
  rewrite num_mul_exact by lia.
  assert (Hk : is_index_key "minRange" = false) by reflexivity.
  cbn -[number_to_string is_index_key]. rewrite Hk.
  cbn -[number_to_string is_index_key]. rewrite Hk. cbn -[number_to_string].
  rewrite number_to_string_safe by lia. reflexivity.
Qed.

(** ** The upload helper *)

Section Upload.
Context {S : Type} `{Session S}.
Variables (w : env) (s : S) (file json u : jsval) (r : response).

(** The identifier [ulid()] returns and the file name built from it. *)
Let fname := (fresh_id w [] ++ ".png")%string.
Let signed := signed_url_request fname.

Hypothesis signed_resolves : net w [EvUlid (fresh_id w [])] signed = Resolved r.
Hypothesis signed_json : rs_json r = Some json.
Hypothesis signed_url : get_prop json "url" = Some u.

Let put_trace := [EvUlid (fresh_id w []); EvFetch signed (Resolved r)].

(** C15: when the pre-signed URL request succeeds and the PUT of the file
    resolves, whatever its status, [uploadImage] returns the public URL
    of the very file name it sent as [imageName]: the request is
    [/s3-signed-url?] followed by the serialised [imageName] pair, and the
    result is the image base URL followed by the same name. *)
Theorem upload_public_url_matches_request (o : response) :
  net w put_trace (upload_request u file) = Resolved o ->
  outcome (run w (uploadImage file) s []) = inr (JString (image_base ++ fname)) /\
  rq_url signed = (baseUrl ++ "/s3-signed-url?" ++ urlencoded_serialize [("imageName", fname)])%string.
Proof.
  intros Hput. split.
  - unfold uploadImage. simpl. fold fname signed. rewrite signed_resolves. simpl.
    unfold response_json. rewrite signed_json. simpl.
    unfold read_prop. rewrite signed_url. simpl. fold put_trace. rewrite Hput. reflexivity.
  - unfold signed, signed_url_request. simpl rq_url.
    replace (search_params_of_record [("imageName", JString fname)]) with [("imageName", fname)]
      by reflexivity.
    apply url_with_search_serialize.
Qed.

(** C16: when the PUT of the file is rejected (network failure), the error
    is logged and [uploadImage] resolves to [undefined], not to a URL. *)
Theorem upload_put_failure_yields_undefined :
  net w put_trace (upload_request u file) = NetworkError ->
  run w (uploadImage file) s [] =
    (inr JUndefined, s,
     (put_trace ++ [EvFetch (upload_request u file) NetworkError;
                    EvLog [LogError failed_to_fetch]])%list).
Proof.
  intros Hput.
  unfold uploadImage. simpl. fold fname signed. rewrite signed_resolves. simpl.
  unfold response_json. rewrite signed_json. simpl.
  unfold read_prop. rewrite signed_url. simpl. fold put_trace. rewrite Hput. reflexivity.
Qed.

(** C22: when the PUT of the image fails, [createProduct] still sends its
    POST, and the body is the JSON of [{ ...productObject }] alone: the
    [imageUrl: undefined] member is dropped by [JSON.stringify]. *)
Theorem createProduct_after_failed_upload ps :
  wf_props ps -> prop_lookup "imageUrl" ps = None ->
  net w put_trace (upload_request u file) = NetworkError ->
  In (create_product_request (product_payload (JObject ps) JUndefined) (get_current_token s))
     (fetches (trace (run w (createProduct (JObject ps) file) s []))) /\
  json_body (product_payload (JObject ps) JUndefined) = json_body (JObject (spread_into [] (JObject ps))).
Proof.
  intros Hwf Hn Hput. split.
  - unfold createProduct, uploadImage. simpl. fold fname signed. rewrite signed_resolves. simpl.
    unfold response_json. rewrite signed_json. simpl.
    unfold read_prop. rewrite signed_url. simpl. fold put_trace. rewrite Hput.
    run_cases; right; right; left; reflexivity.
  - unfold product_payload, json_body. rewrite obj_set_notin.
    + rewrite json_stringify_undefined_last by reflexivity. reflexivity.
    + rewrite spread_object_lookup; assumption.
Qed.

End Upload.

(** ** Error results *)

Section Errors.
Context {S : Type} `{Session S}.

(** C13: against a server that answers every request with the same
    non-2xx response whose body is a JSON object, every operation of
    api.js rejects with its own message, and all but [login] leave the
    session unchanged; [getOrders] reuses the message of [createOrder].
    [createProduct] gets that far because [uploadImage] does not check
    the status of the signed-URL reply: it reads [.url] from its body and
    sends the PUT (with a body that is not JSON it would reject with the
    [SyntaxError] of [response.json()] instead, and [login] likewise). *)
Theorem failing_server_messages (w : env) (s : S) r ps p img values productId
    email password name category minRange maxRange :
  (forall tr rq, net w tr rq = Resolved r) -> rs_ok r = false -> rs_json r = Some (JObject ps) ->
  outcome (run w (createProduct p img) s []) = inl (Error "Could not create product") /\
  final_session (run w (createProduct p img) s []) = s /\
  run w (createOrder values) s [] = (inl (Error "Could not create order"), s,
    trace (run w (createOrder values) s [])) /\
  run w getOrders s [] = (inl (Error "Could not create order"), s,
    trace (run w getOrders s [])) /\
  run w (deleteProduct productId) s [] = (inl (Error "Could not delete product"), s,
    trace (run w (deleteProduct productId) s [])) /\
  run w (register values) s [] = (inl (Error "Could not register user"), s,
    trace (run w (register values) s [])) /\
  run w getTopProducts s [] = (inl (Error "Could not fetch products"), s,
    trace (run w getTopProducts s [])) /\
  run w (searchProducts name category minRange maxRange) s [] =
    (inl (Error "Could not fetch products"), s,
     trace (run w (searchProducts name category minRange maxRange) s [])) /\
  outcome (run w (login email password) s []) = inl (Error "Could not log in").
Proof.
  intros Hnet Hok Hj. unfold createProduct. rewrite run_bind, run_await_call.
  unfold uploadImage, createOrder, getOrders, deleteProduct, register, getTopProducts,
    searchProducts, login, response_json.
  repeat split; repeat progress (simpl; rewrite ?Hnet, ?Hj, ?Hok); reflexivity.
Qed.

(** C18: when the login response is not JSON, [login] rejects with the
    [SyntaxError] of [response.json()], before the session is touched and
    without the message ["Could not log in"]. *)
Theorem login_non_json_body (w : env) (s : S) email password r :
  net w [] (login_request email password) = Resolved r -> rs_json r = None ->
  outcome (run w (login email password) s []) = inl SyntaxError /\
  final_session (run w (login email password) s []) = s.
Proof.
  intros Hnet Hj. unfold login. simpl. rewrite Hnet. simpl.
  unfold response_json. rewrite Hj. split; reflexivity.
Qed.

(** C14: when the network fails, every operation rejects with the
    [TypeError] of [fetch] itself, not with a message naming the
    operation, and [login] leaves the session as it was. *)
Theorem network_failure_rejects_with_fetch_error (w : env) (s : S) p img values productId
    email password name category minRange maxRange :
  (forall tr rq, net w tr rq = NetworkError) ->
  outcome (run w (createProduct p img) s []) = inl failed_to_fetch /\
  outcome (run w (createOrder values) s []) = inl failed_to_fetch /\
  outcome (run w getOrders s []) = inl failed_to_fetch /\
  outcome (run w getTopProducts s []) = inl failed_to_fetch /\
  outcome (run w (deleteProduct productId) s []) = inl failed_to_fetch /\
  outcome (run w (register values) s []) = inl failed_to_fetch /\
  run w (login email password) s [] =
    (inl failed_to_fetch, s, [EvFetch (login_request email password) NetworkError]) /\
  outcome (run w (searchProducts name category minRange maxRange) s []) = inl failed_to_fetch.
Proof.
  intros Hnet. unfold createProduct. rewrite run_bind, run_await_call.
  unfold uploadImage, createOrder, getOrders, getTopProducts, deleteProduct, register, login,
    searchProducts.
  repeat split; simpl; rewrite ?Hnet; reflexivity.
Qed.

End Errors.

(** ** Login and the session contract *)

Section WithLaws.
Context {S : Type} `{SessionLaws S}.

(** C17: [login] writes the token and admin flag of the response body into
    the session before it checks the status: a non-2xx response whose body
    carries a token rejects with ["Could not log in"] and leaves that token
    as the current one. *)
Theorem login_writes_session_before_status_check (w : env) (s : S) email password r json
    tok adm :
  net w [] (login_request email password) = Resolved r -> rs_ok r = false ->
  rs_json r = Some json -> get_prop json "token" = Some tok ->
  get_prop json "isAdmin" = Some adm ->
  outcome (run w (login email password) s []) = inl (Error "Could not log in") /\
  get_current_token (final_session (run w (login email password) s [])) = tok.
Proof.
  intros Hnet Hok Hj Ht Ha. unfold login. simpl. rewrite Hnet. simpl.
  unfold response_json. rewrite Hj. simpl. unfold read_prop. rewrite Ht. simpl.
  rewrite Ha. simpl. rewrite Hok. split; [reflexivity|]. apply get_current_token_log_in.
Qed.

(** C20: the token is read at each call, never cached: when the session
    changes between two calls of [createOrder] (the first one's failure
    caught), each request carries the token current at its own call. *)
Theorem each_call_reads_its_own_token (w : env) (s : S) values tok2 adm2 :
  map (header_values "Authorization")
    (fetches (trace (run w (catch (createOrder values) (fun _ => Ret JUndefined) ;;;
                            logIn tok2 adm2 ;;; createOrder values) s [])))
  = [[bearer (get_current_token s)]; [bearer tok2]].
Proof.
  unfold createOrder. run_cases; rewrite get_current_token_log_in; reflexivity.
Qed.

(** C19: a failed login whose body carries no token overwrites the
    session with [undefined]: the caller catches the rejection, and the
    next authorised request is sent with [Authorization: Bearer
    undefined], whatever token the session held before. *)
Theorem failed_login_sends_bearer_undefined (w : env) (s : S) email password values r ps :
  net w [] (login_request email password) = Resolved r -> rs_ok r = false ->
  rs_json r = Some (JObject ps) -> prop_lookup "token" ps = None ->
  map (header_values "Authorization")
    (fetches (trace (run w (catch (login email password) (fun _ => Ret JUndefined) ;;;
                            createOrder values) s [])))
  = [[]; ["Bearer undefined"]].
Proof.
  intros Hnet Hok Hj Ht. unfold login, createOrder. simpl. rewrite Hnet. simpl.
  unfold response_json. rewrite Hj. simpl. rewrite Ht. simpl. rewrite Hok.
  run_cases; rewrite get_current_token_log_in; reflexivity.
Qed.

End WithLaws.

(** C23: with no session ([auth] holding [null]), the authorised requests
    are sent with the header [Authorization: Bearer null]. *)
Theorem logged_out_sends_bearer_null (w : env) values :
  map (header_values "Authorization") (fetches (trace (run w (createOrder values) logged_out [])))
  = [["Bearer null"]].
Proof. unfold createOrder. run_cases; reflexivity. Qed.

(** ** Instances of the theorems at concrete inputs *)

Lemma createProduct_reads_token_after_upload_witness :
  exists u tr',
    run (demo_env 200) (uploadImage (JBlob [])) demo_session [] = (inr u, demo_session, tr') /\
    exists o, trace (run (demo_env 200) (createProduct (JObject [("name", JString "cup")]) (JBlob []))
                      demo_session []) =
      (tr' ++ [EvGetToken (JString "T1");
               EvFetch (create_product_request (product_payload (JObject [("name", JString "cup")]) u)
                          (JString "T1")) o])%list.
Proof.
  destruct (run (demo_env 200) (uploadImage (JBlob [])) demo_session []) as [[o s'] tr'] eqn:E.
  pose proof E as E'. vm_compute in E'. injection E' as Ho Hs Ht. subst o s' tr'.
  eexists _, _. split; [exact E|].
  exact (createProduct_reads_token_after_upload (demo_env 200) demo_session _ _ _ _ _ E).
Defined.

Lemma createOrder_payload_witness :
  wf_props [("item", JString "x")] /\
  clock (demo_env 200) [EvGetToken (get_current_token demo_session)] = 1700000000000%Z /\
  (Z.abs 1700000000000 <= 8640000000000000)%Z /\
  fetches (trace (run (demo_env 200) (createOrder (JObject [("item", JString "x")])) demo_session []))
    = [order_request (order_payload (JObject [("item", JString "x")]) 1700000000000)
         (get_current_token demo_session)] /\
  (forall k, obj_get (order_payload (JObject [("item", JString "x")]) 1700000000000) k =
             if (k =? "timestamp")%string then Some (JNumber (NFin 1700000000000))
             else prop_lookup k [("item", JString "x")]).
Proof.
  split; [repeat constructor; simpl; tauto|]. split; [reflexivity|]. split; [lia|].
  apply (createOrder_payload (demo_env 200) demo_session [("item", JString "x")] 1700000000000);
    [repeat constructor; simpl; tauto | reflexivity | lia].
Defined.

(** The example of the spec: [searchProducts("mug", "", "5", "")]
    requests [/products?name=mug&minRange=500], and the backend reads
    [minRange] back as 500. *)
Lemma search_prices_reach_backend_witness :
  rq_url (search_request
           (search_params (JString "mug") (JString EmptyString) (JString "5") (JString EmptyString)))
    = baseUrl ++ "/products?name=mug&minRange=500" /\
  In ("minRange", JString "5") [("minRange", JString "5"); ("maxRange", JString EmptyString)] /\
  to_boolean (JString "5") = true /\
  is_finite_double (num_mul (to_number (JString "5")) (NFin 100)) = true /\
  exists q L s,
    rq_url (search_request
              (search_params (JString "mug") (JString EmptyString) (JString "5") (JString EmptyString)))
      = baseUrl ++ "/products?" ++ q /\
    urlencoded_parse q = Some L /\ NoDup (map fst L) /\ In ("minRange", s) L /\
    string_to_number s = num_mul (to_number (JString "5")) (NFin 100).
Proof.
  split; [vm_compute; reflexivity|]. split; [now left|]. split; [reflexivity|].
  split; [vm_compute; reflexivity|].
  apply (search_prices_reach_backend _ _ _ _ "minRange" (JString "5"));
    [now left | reflexivity | vm_compute; reflexivity].
Defined.

Lemma min_price_in_cents_witness :
  (Z.abs (5 * 100) < 2 ^ 53)%Z /\
  search_params_of_record
    (search_params (JString EmptyString) (JString EmptyString) (JString (int_string 5))
       (JString EmptyString))
  = [("minRange", int_string (5 * 100))].
Proof. split; [lia | apply (min_price_in_cents 5); lia]. Defined.

Lemma upload_public_url_matches_request_witness :
  net (demo_env 200) [EvUlid "01HZX8K2"] (signed_url_request "01HZX8K2.png")
    = Resolved (demo_response 200) /\
  outcome (run (demo_env 200) (uploadImage (JBlob [])) demo_session [])
    = inr (JString (image_base ++ "01HZX8K2.png")) /\
  rq_url (signed_url_request "01HZX8K2.png")
    = (baseUrl ++ "/s3-signed-url?" ++ urlencoded_serialize [("imageName", "01HZX8K2.png")])%string.
Proof.
  split; [reflexivity|].
  apply (upload_public_url_matches_request (demo_env 200) demo_session (JBlob []) demo_json
           (JString "https://s3.example/put") (demo_response 200) eq_refl eq_refl eq_refl
           (demo_response 200)); reflexivity.
Defined.

Lemma upload_put_failure_yields_undefined_witness :
  net put_failing_env [EvUlid "01HZX8K2"; EvFetch (signed_url_request "01HZX8K2.png")
                                               (Resolved (demo_response 200))]
      (upload_request (JString "https://s3.example/put") (JBlob [])) = NetworkError /\
  run put_failing_env (uploadImage (JBlob [])) demo_session [] =
    (inr JUndefined, demo_session,
     [EvUlid "01HZX8K2"; EvFetch (signed_url_request "01HZX8K2.png") (Resolved (demo_response 200));
      EvFetch (upload_request (JString "https://s3.example/put") (JBlob [])) NetworkError;
      EvLog [LogError failed_to_fetch]]).
Proof.
  split; [reflexivity|].
  apply (upload_put_failure_yields_undefined put_failing_env demo_session (JBlob []) demo_json
           (JString "https://s3.example/put") (demo_response 200)); reflexivity.
Defined.

Lemma createProduct_after_failed_upload_witness :
  prop_lookup "imageUrl" [("name", JString "cup")] = None /\
  In (create_product_request (product_payload (JObject [("name", JString "cup")]) JUndefined)
        (get_current_token demo_session))
     (fetches (trace (run put_failing_env (createProduct (JObject [("name", JString "cup")]) (JBlob []))
                        demo_session []))) /\
  json_body (product_payload (JObject [("name", JString "cup")]) JUndefined)
    = json_body (JObject (spread_into [] (JObject [("name", JString "cup")]))).
Proof.
  split; [reflexivity|].
  apply (createProduct_after_failed_upload put_failing_env demo_session (JBlob []) demo_json
           (JString "https://s3.example/put") (demo_response 200) eq_refl eq_refl eq_refl
           [("name", JString "cup")]);
    try reflexivity; repeat constructor; simpl; tauto.
Defined.

Lemma failing_server_messages_witness :
  rs_ok (demo_response 500) = false /\
  rs_json (demo_response 500) =
    Some (JObject [("url", JString "https://s3.example/put"); ("token", JString "T9");
                   ("isAdmin", JBool true)]) /\
  outcome (run (demo_env 500) (createProduct (JObject []) JUndefined) demo_session []) =
    inl (Error "Could not create product") /\
  outcome (run (demo_env 500) getOrders demo_session []) = inl (Error "Could not create order") /\
  outcome (run (demo_env 500) (login (JString "a@b.c") (JString "pw")) demo_session []) =
    inl (Error "Could not log in").
Proof.
  assert (Hj : rs_json (demo_response 500) =
    Some (JObject [("url", JString "https://s3.example/put"); ("token", JString "T9");
                   ("isAdmin", JBool true)])) by (vm_compute; reflexivity).
  split; [reflexivity|]. split; [exact Hj|].
  destruct (failing_server_messages (demo_env 500) demo_session (demo_response 500) _
              (JObject []) JUndefined (JObject []) (JString "p1") (JString "a@b.c") (JString "pw")
              JUndefined JUndefined JUndefined JUndefined (fun _ _ => eq_refl) eq_refl Hj)
    as (H1 & _ & _ & H4 & _ & _ & _ & _ & H9).
  split; [exact H1|]. split; [rewrite H4; reflexivity | exact H9].
Defined.

Lemma login_non_json_body_witness :
  rs_json bad_gateway = None /\
  outcome (run non_json_env (login (JString "a@b.c") (JString "pw")) demo_session []) = inl SyntaxError /\
  final_session (run non_json_env (login (JString "a@b.c") (JString "pw")) demo_session []) = demo_session.
Proof.
  split; [reflexivity|].
  apply (login_non_json_body non_json_env demo_session (JString "a@b.c") (JString "pw")
           bad_gateway); reflexivity.
Defined.

Lemma login_writes_session_before_status_check_witness :
  rs_ok (demo_response 401) = false /\
  outcome (run (demo_env 401) (login (JString "a@b.c") (JString "pw")) logged_out [])
    = inl (Error "Could not log in") /\
  get_current_token (final_session (run (demo_env 401) (login (JString "a@b.c") (JString "pw"))
                                      logged_out [])) = JString "T9".
Proof.
  split; [reflexivity|].
  apply (login_writes_session_before_status_check (demo_env 401) logged_out (JString "a@b.c")
           (JString "pw") (demo_response 401) demo_json (JString "T9") (JBool true)); reflexivity.
Defined.

Lemma each_call_reads_its_own_token_witness :
  map (header_values "Authorization")
    (fetches (trace (run (demo_env 500)
                      (catch (createOrder (JObject [])) (fun _ => Ret JUndefined) ;;;
                       logIn (JString "T2") (JBool false) ;;; createOrder (JObject []))
                      demo_session [])))
  = [[bearer (get_current_token demo_session)]; [bearer (JString "T2")]].
Proof.
  apply (each_call_reads_its_own_token (demo_env 500) demo_session (JObject []) (JString "T2")
           (JBool false)).
Defined.

Lemma network_failure_rejects_with_fetch_error_witness :
  (forall tr rq, net offline_env tr rq = NetworkError) /\
  outcome (run offline_env (createOrder (JObject [])) demo_session []) = inl failed_to_fetch.
Proof.
  split; [reflexivity|].
  apply (network_failure_rejects_with_fetch_error offline_env demo_session JUndefined JUndefined
           (JObject []) JUndefined JUndefined JUndefined JUndefined JUndefined JUndefined JUndefined).
  reflexivity.
Defined.

Lemma failed_login_sends_bearer_undefined_witness :
  map (header_values "Authorization")
    (fetches (trace (run failed_login_env
                       (catch (login (JString "a@b.c") (JString "pw")) (fun _ => Ret JUndefined) ;;;
                        createOrder (JObject [])) demo_session [])))
  = [[]; ["Bearer undefined"]].
Proof.
  exact (failed_login_sends_bearer_undefined failed_login_env demo_session (JString "a@b.c")
           (JString "pw") (JObject [])
           invalid_credentials [("message", JString "Invalid credentials")]
           eq_refl eq_refl eq_refl eq_refl).
Defined.

End Api.
