(* ===== verification/Bodies.v ===== *)
(** * The JSON boundary between api.js and the backend

    What crosses the network as JSON text: the request bodies the module
    prints with [JSON.stringify] (api.js lines 19, 39, 114, 129) as the
    backend reads them with [JSON.parse], and the values the module
    returns from [await response.json()] (lines 60, 72, 89) as
    [JSON.parse] of the body text the backend sent.  The theorems compose
    [Api] (the requests and the runs) with [JsonParse]. *)

From Stdlib Require Import String Ascii List ZArith Lia Bool.
From S2P Require Import Prelude JsNumber JsValue Json JsonParse Session Effects Api.
Import ListNotations.
Import JsNumber JsValue Json JsonParse Session Effects Api.

Module Bodies.

Local Open Scope string_scope.
Local Open Scope list_scope.

(** [await response.json()] on a response read as JSON gives its value,
    and on any other body rejects with [SyntaxError]. *)
Definition json_result (r : response) : js_error + jsval :=
  match rs_json r with Some v => inr v | None => inl SyntaxError end.

(** Form values with a member left [undefined]. *)
Definition order_values : props :=
  [("item", JString "mug"); ("quantity", JNumber (NFin 2)); ("note", JUndefined)].

(** ** Request bodies *)

(** A clock reading within the range of [Date] is a finite integral
    double. *)
Lemma time_value_small t :
  (Z.abs t <= 8640000000000000)%Z -> time_value t = NFin t.
Proof.
  intros H. unfold time_value. now replace (8640000000000000 <? Z.abs t)%Z with false
    by (symmetry; apply Z.ltb_ge; lia).
Qed.

Lemma time_value_canonical t :
  (Z.abs t <= 8640000000000000)%Z -> json_canonical (JNumber (time_value t)) = true.
Proof.
  intros H. rewrite time_value_small by exact H. apply is_double_small. lia.
Qed.

(** The object [{ ...values, timestamp }] for an object [values] whose
    keys are distinct and no array index: the members of [values] in
    order, the timestamp set in place or appended. *)
Lemma order_payload_object ps t :
  NoDup (map fst ps) -> forallb (fun kv => negb (is_index_key (fst kv))) ps = true ->
  order_payload (JObject ps) t = JObject (obj_set ps "timestamp" (JNumber (time_value t))).
Proof.
  intros Hd Hi. unfold order_payload, spread_into.
  rewrite ordered_props_no_index, set_all_fresh by assumption. reflexivity.
Qed.

(** C27: the body of the order [createOrder(values)] posts, for form
    values with distinct non-index keys holding printable values or
    [undefined], is read by the backend's [JSON.parse] as the values
    without their [undefined] members, with the [timestamp] of the clock
    set in place or appended (composition of spread, [Date],
    [JSON.stringify] and [JSON.parse]). *)
Theorem order_body_read (ps : props) (t : Z) (tok : jsval) :
  NoDup (map fst ps) ->
  forallb (fun kv => negb (is_index_key (fst kv))) ps = true ->
  forallb (fun kv => is_undefined (snd kv) || json_canonical (snd kv)) ps = true ->
  (Z.abs t <= 8640000000000000)%Z ->
  exists s, rq_body (order_request (order_payload (JObject ps) t) tok) = Some (BodyText s) /\
    json_parse s = Some (JObject (drop_undefined (obj_set ps "timestamp" (JNumber (NFin t))))).
Proof.
  intros Hd Hi Hv Ht. rewrite order_payload_object by assumption.
  destruct (json_parse_object_body (obj_set ps "timestamp" (JNumber (time_value t))))
    as (s & Hs & Hp).
  - apply obj_set_wf, Hd.
  - now apply obj_set_no_index.
  - apply (obj_set_forallb (fun x => is_undefined x || json_canonical x)); [|exact Hv].
    rewrite time_value_canonical by exact Ht. apply orb_true_r.
  - exists s. simpl. unfold json_body. rewrite Hs. split; [reflexivity|].
    now rewrite Hp, time_value_small by exact Ht.
Qed.

(** Spreading an object whose keys are distinct and no array index
    copies its members in order. *)
Lemma spread_object ps :
  NoDup (map fst ps) -> forallb (fun kv => negb (is_index_key (fst kv))) ps = true ->
  spread_into [] (JObject ps) = ps.
Proof.
  intros Hd Hi. unfold spread_into.
  rewrite ordered_props_no_index, set_all_fresh by assumption. reflexivity.
Qed.

(** The body [JSON.stringify(v)] of an object [v] with distinct non-index
    keys holding printable values or [undefined] is read by the backend
    as [v] without its [undefined] members. *)
Lemma json_body_read ps :
  NoDup (map fst ps) -> forallb (fun kv => negb (is_index_key (fst kv))) ps = true ->
  forallb (fun kv => is_undefined (snd kv) || json_canonical (snd kv)) ps = true ->
  exists s, json_body (JObject ps) = Some (BodyText s) /\
    json_parse s = Some (JObject (drop_undefined ps)).
Proof.
  intros Hd Hi Hv. destruct (json_parse_object_body ps Hd Hi Hv) as (s & Hs & Hp).
  exists s. unfold json_body. now rewrite Hs.
Qed.

(** The same for [{ ...values, k: x }]. *)
Lemma json_body_set_read ps k x :
  NoDup (map fst ps) -> forallb (fun kv => negb (is_index_key (fst kv))) ps = true ->
  forallb (fun kv => is_undefined (snd kv) || json_canonical (snd kv)) ps = true ->
  is_index_key k = false -> is_undefined x || json_canonical x = true ->
  exists s, json_body (JObject (obj_set ps k x)) = Some (BodyText s) /\
    json_parse s = Some (JObject (drop_undefined (obj_set ps k x))).
Proof.
  intros Hd Hi Hv Hk Hx. apply json_body_read.
  - apply obj_set_wf, Hd.
  - now apply obj_set_no_index.
  - now apply (obj_set_forallb (fun y => is_undefined y || json_canonical y)).
Qed.

(** C30: the other JSON bodies reach the backend as the payloads the
    operations built: for form values with distinct non-index keys
    holding printable values or [undefined], the backend's [JSON.parse]
    reads the body [createProduct] posts as the values with [imageUrl]
    set in place or appended, the body of [register] as the values, and
    the body of [login] as [{ email, password }], each without its
    [undefined] members (an image URL of [undefined] after a failed
    upload is not sent at all). *)
Theorem request_bodies_read (ps : props) (u tok email password : jsval) :
  NoDup (map fst ps) ->
  forallb (fun kv => negb (is_index_key (fst kv))) ps = true ->
  forallb (fun kv => is_undefined (snd kv) || json_canonical (snd kv)) ps = true ->
  is_undefined u || json_canonical u = true ->
  is_undefined email || json_canonical email = true ->
  is_undefined password || json_canonical password = true ->
  (exists s, rq_body (create_product_request (product_payload (JObject ps) u) tok) = Some (BodyText s) /\
     json_parse s = Some (JObject (drop_undefined (obj_set ps "imageUrl" u)))) /\
  (exists s, rq_body (register_request (JObject ps)) = Some (BodyText s) /\
     json_parse s = Some (JObject (drop_undefined ps))) /\
  (exists s, rq_body (login_request email password) = Some (BodyText s) /\
     json_parse s = Some (JObject (drop_undefined [("email", email); ("password", password)]))).
Proof.
  intros Hd Hi Hv Hu He Hp. split; [|split].
  - unfold product_payload. rewrite spread_object by assumption.
    exact (json_body_set_read ps "imageUrl" u Hd Hi Hv eq_refl Hu).
  - exact (json_body_read ps Hd Hi Hv).
  - apply json_body_read; [repeat constructor; simpl; intuition discriminate | reflexivity |].
    simpl. now rewrite He, Hp.
Qed.

(** ** Response bodies *)

Section Reads.
Context {S : Type} `{Session S}.

Lemma run_response_json w r s tr :
  run w (response_json r) s tr = (json_result r, s, tr).
Proof. unfold response_json, json_result, rs_json. now destruct (json_parse (rs_body r)). Qed.

(** C28: against a server that answers every request with [r], the
    reading operations [getOrders], [getTopProducts] and [searchProducts]
    resolve to [JSON.parse] of the body text of [r] when [r] is 2xx,
    reject with the [SyntaxError] of [response.json()] when that text is
    not JSON, and reject with their own message otherwise. *)
Theorem reads_return_parsed_body (w : env) (s : S) r name category minRange maxRange :
  (forall tr rq, net w tr rq = Resolved r) ->
  outcome (run w getOrders s []) =
    (if rs_ok r then json_result r else inl (Error "Could not create order")) /\
  outcome (run w getTopProducts s []) =
    (if rs_ok r then json_result r else inl (Error "Could not fetch products")) /\
  outcome (run w (searchProducts name category minRange maxRange) s []) =
    (if rs_ok r then json_result r else inl (Error "Could not fetch products")).
Proof.
  intros Hnet. unfold getOrders, getTopProducts, searchProducts.
  repeat split; simpl; rewrite Hnet; simpl; destruct (rs_ok r);
    try rewrite run_response_json; reflexivity.
Qed.

End Reads.

(** ** Witnesses *)

Lemma order_body_read_witness :
  NoDup (map fst order_values) /\
  forallb (fun kv => negb (is_index_key (fst kv))) order_values = true /\
  forallb (fun kv => is_undefined (snd kv) || json_canonical (snd kv)) order_values = true /\
  (Z.abs 1700000000000 <= 8640000000000000)%Z /\
  exists s, rq_body (order_request (order_payload (JObject order_values) 1700000000000)
                                   (JString "T1")) = Some (BodyText s) /\
    json_parse s = Some (JObject [("item", JString "mug"); ("quantity", JNumber (NFin 2));
                                  ("timestamp", JNumber (NFin 1700000000000))]).
Proof.
  split; [repeat constructor; simpl; intuition discriminate|].
  split; [reflexivity|]. split; [reflexivity|]. split; [lia|].
  apply (order_body_read order_values 1700000000000 (JString "T1"));
    [repeat constructor; simpl; intuition discriminate | reflexivity | reflexivity | lia].
Defined.

Lemma request_bodies_read_witness :
  NoDup (map fst order_values) /\
  forallb (fun kv => negb (is_index_key (fst kv))) order_values = true /\
  forallb (fun kv => is_undefined (snd kv) || json_canonical (snd kv)) order_values = true /\
  is_undefined JUndefined || json_canonical JUndefined = true /\
  is_undefined (JString "a@b.c") || json_canonical (JString "a@b.c") = true /\
  is_undefined (JString "pw") || json_canonical (JString "pw") = true /\
  exists s, rq_body (create_product_request (product_payload (JObject order_values) JUndefined)
                                            (JString "T1")) = Some (BodyText s) /\
    json_parse s = Some (JObject [("item", JString "mug"); ("quantity", JNumber (NFin 2))]).
Proof.
  assert (Hd : NoDup (map fst order_values)) by (repeat constructor; simpl; intuition discriminate).
  split; [exact Hd|]. do 5 (split; [reflexivity|]).
  destruct (request_bodies_read order_values JUndefined (JString "T1") (JString "a@b.c") (JString "pw")
              Hd eq_refl eq_refl eq_refl eq_refl eq_refl) as (H & _ & _).
  exact H.
Defined.

Lemma reads_return_parsed_body_witness :
  (forall tr rq, net (demo_env 200) tr rq = Resolved (demo_response 200)) /\
  outcome (run (demo_env 200) getTopProducts demo_session []) = inr demo_json.
Proof.
  split; [reflexivity|].
  destruct (reads_return_parsed_body (demo_env 200) demo_session (demo_response 200)
              JUndefined JUndefined JUndefined JUndefined) as (_ & H & _); [reflexivity|].
  rewrite H. vm_compute. reflexivity.
Defined.

End Bodies.
