(* ===== verification/Scheduler.v ===== *)
(** * The event loop running several operations

    The operations of api.js are [async]: a caller may start several of
    them before the first settles (spec section 5), and they share one
    mutable resource, the session of [./auth].  JavaScript runs them on
    one thread: a task runs without interruption until it suspends at an
    [await], and the event loop then resumes any task whose promise has
    settled.  This file models that scheduling.

    - A task ([task]) is [Ready] to run a program, [Waiting] for the
      answer of the request it sent, or [Settled] with its result.
    - [segment] runs a ready task up to its next suspension point: the
      synchronous part of an [async] function between two [await]s, with
      every session read and write, clock read, [ulid()] and log of that
      part.  A [Fetch] sends its request ([Send]) and leaves the task
      [Waiting]; an [Await] leaves it [Ready] for a later turn.
    - [exec] performs one choice of the event loop: [Run i] runs task [i]
      for one segment, [Resolve i o] delivers the answer [o] to the request
      task [i] waits for.  The network may answer requests in any order
      and in any way, so every interleaving of the tasks is a schedule.
    - [exec_sched] runs a whole schedule; [cstep] is the step relation
      and [star cstep] reachability.

    A schedule that [exec_sched] runs is a path of [star cstep]
    ([exec_sched_star]), so the invariants proved by induction on
    [cstep] in [Interleaving] hold of every configuration a schedule
    reaches.  The clock and [ulid()] are oracles of the trace, as in
    [Effects]. *)

From Stdlib Require Import String List ZArith Lia Bool.
From S2P Require Import Prelude JsNumber JsValue Json FormUrlencoded Session Effects Api.
Import ListNotations.
Import JsNumber JsValue Session Effects Api.

Module Scheduler.

Local Open Scope string_scope.
Local Open Scope list_scope.

Inductive task (A : Type) : Type :=
| Ready (m : Api A)
| Waiting (rq : request) (k : fetch_outcome -> Api A)
| Settled (r : js_error + A).

Arguments Ready {A} m.
Arguments Waiting {A} rq k.
Arguments Settled {A} r.

(** The events of an interleaved run, each tagged with its task: the
    events of [Effects] ([EvFetch] when the answer is delivered) and the
    sending of a request. *)
Inductive cevent : Type :=
| Act (i : nat) (e : event)
| Send (i : nat) (rq : request).

Record cenv : Type := {
  cclock : list cevent -> Z;
  cfresh_id : list cevent -> string
}.

Inductive choice : Type :=
| Run (i : nat)
| Resolve (i : nat) (o : fetch_outcome).

Section Scheduler.
Context {S : Type} `{Session S}.

Record config : Type := {
  tasks : list (task jsval);
  sess : S;
  ctrace : list cevent
}.

(** The synchronous part of task [i] up to its next suspension. *)
Fixpoint segment {A} (w : cenv) (i : nat) (m : Api A) (s : S) (tr : list cevent)
  : task A * S * list cevent :=
  match m with
  | Ret a => (Settled (inr a), s, tr)
  | Throw e => (Settled (inl e), s, tr)
  | GetToken k =>
      let t := get_current_token s in segment w i (k t) s (tr ++ [Act i (EvGetToken t)])
  | LogIn t a k => segment w i k (log_in t a s) (tr ++ [Act i (EvLogIn t a)])
  | Fetch rq k => (Waiting rq k, s, tr ++ [Send i rq])
  | Now k => let t := cclock w tr in segment w i (k t) s (tr ++ [Act i (EvNow t)])
  | Ulid k => let u := cfresh_id w tr in segment w i (k u) s (tr ++ [Act i (EvUlid u)])
  | Log v k => segment w i k s (tr ++ [Act i (EvLog v)])
  | Await k => (Ready k, s, tr)
  end.

(** One turn of the event loop. *)
Definition exec (w : cenv) (c : config) (ch : choice) : option config :=
  match ch with
  | Run i =>
      match nth_error (tasks c) i with
      | Some (Ready m) =>
          let '(t, s', tr') := segment w i m (sess c) (ctrace c) in
          Some {| tasks := set_nth i t (tasks c); sess := s'; ctrace := tr' |}
      | _ => None
      end
  | Resolve i o =>
      match nth_error (tasks c) i with
      | Some (Waiting rq k) =>
          Some {| tasks := set_nth i (Ready (k o)) (tasks c); sess := sess c;
                  ctrace := ctrace c ++ [Act i (EvFetch rq o)] |}
      | _ => None
      end
  end.

Fixpoint exec_sched (w : cenv) (c : config) (sch : list choice) : option config :=
  match sch with
  | [] => Some c
  | ch :: rest =>
      match exec w c ch with
      | Some c' => exec_sched w c' rest
      | None => None
      end
  end.

Inductive cstep (w : cenv) : config -> config -> Prop :=
| cstep_exec c ch c' : exec w c ch = Some c' -> cstep w c c'.

(** The operations [ops] started in this order against the session [s]. *)
Definition start (ops : list (Api jsval)) (s : S) : config :=
  {| tasks := map Ready ops; sess := s; ctrace := [] |}.

Definition settled {A} (t : task A) : bool :=
  match t with Settled _ => true | _ => false end.

Definition all_settled (c : config) : bool := forallb settled (tasks c).

(** The session after the [logIn] calls of a trace, in order. *)
Definition session_after (s0 : S) (tr : list cevent) : S :=
  fold_left (fun s ev => match ev with
                         | Act _ (EvLogIn t a) => log_in t a s
                         | _ => s
                         end) tr s0.

End Scheduler.

Arguments config S : clear implicits.

(** The events of [Effects] in an interleaved trace. *)
Definition erase (tr : list cevent) : list event :=
  flat_map (fun ev => match ev with Act _ e => [e] | Send _ _ => [] end) tr.

(** The clock and identifier oracles of a sequential environment. *)
Definition cenv_of (w : env) : cenv := {|
  cclock := fun tr => clock w (erase tr);
  cfresh_id := fun tr => fresh_id w (erase tr)
|}.

(** ** The scheduler and the step relation *)

Section Refinement.
Context {S : Type} `{Session S}.

Lemma exec_sched_star w (c c' : config S) sch : exec_sched w c sch = Some c' -> star (cstep w) c c'.
Proof.
  revert c. induction sch as [|ch sch IH]; intros c Hs; simpl in Hs.
  - inv Hs. apply star_refl.
  - destruct (exec w c ch) as [b|] eqn:E; [|discriminate].
    eapply star_step; [econstructor; exact E | auto].
Qed.

End Refinement.


End Scheduler.
