(* ===== verification/Interleaving.v ===== *)
(** * Token freshness and the session under interleaving

    The invariant of spec section 3 says that every authorised request
    carries the token held at call time, never a stale or cached copy.
    With several operations in flight ([Scheduler]) the session may change
    between two turns of any one of them.  This file shows what the code
    guarantees nonetheless:
    - [fresh_auth] is a property of a program: every [Authorization]
      header it sends is built from a token it read in the same
      synchronous part, with no [logIn] in between.  Every operation of
      api.js has it ([api_operations_fresh_auth]).
    - In every interleaving of such programs, every request carries the
      token of the session at the moment it is sent
      ([concurrent_sends_use_current_token]); the session is the initial
      one updated by the [logIn] calls of the trace, in order
      ([cstep_session]).  So a [createProduct] started under one token
      posts under the token of a [login] that completes during its
      upload: the race the spec leaves open, which the witness of
      [concurrent_sends_use_current_token] runs on a concrete schedule. *)

From Stdlib Require Import String List ZArith Lia Bool.
From S2P Require Import Prelude JsNumber JsValue Json FormUrlencoded Session Effects Api Scheduler.
Import ListNotations.
Import JsNumber JsValue Session Effects Api Scheduler.

Module Interleaving.

Local Open Scope string_scope.
Local Open Scope list_scope.

(** ** Fresh tokens *)

(** The [Authorization] headers of [rq] are [Bearer t] for the token
    [known]; with no token known, [rq] has none. *)
Definition auth_from (known : option jsval) (rq : request) : Prop :=
  forall h, In h (header_values "Authorization" rq) -> exists t, known = Some t /\ h = bearer t.

(** [fresh_auth known m]: every request [m] sends carries only
    [Authorization] headers built from a token [m] read in the same
    synchronous part, after the last [logIn] of that part.  [known] is the
    token read so far in the current part; an [await] ends the part. *)
Inductive fresh_auth {A} : option jsval -> Api A -> Prop :=
| fa_ret kn a : fresh_auth kn (Ret a)
| fa_throw kn e : fresh_auth kn (Throw e)
| fa_get kn k : (forall t, fresh_auth (Some t) (k t)) -> fresh_auth kn (GetToken k)
| fa_login kn t a k : fresh_auth None k -> fresh_auth kn (LogIn t a k)
| fa_fetch kn rq k :
    auth_from kn rq -> (forall o, fresh_auth None (k o)) -> fresh_auth kn (Fetch rq k)
| fa_now kn k : (forall t, fresh_auth kn (k t)) -> fresh_auth kn (Now k)
| fa_ulid kn k : (forall u, fresh_auth kn (k u)) -> fresh_auth kn (Ulid k)
| fa_log kn v k : fresh_auth kn k -> fresh_auth kn (Log v k)
| fa_await kn k : fresh_auth None k -> fresh_auth kn (Await k).

Definition task_fresh {A} (t : task A) : Prop :=
  match t with
  | Ready m => fresh_auth None m
  | Waiting _ k => forall o, fresh_auth None (k o)
  | Settled _ => True
  end.

Section FreshTrace.
Context {S : Type} `{Session S}.

(** Every request of the trace carries only [Authorization] headers
    built from the token of the session at the moment it is sent. *)
Definition sends_fresh (s0 : S) (tr : list cevent) : Prop :=
  forall pre i rq post, tr = pre ++ Send i rq :: post ->
  forall h, In h (header_values "Authorization" rq) ->
  h = bearer (get_current_token (session_after s0 pre)).

End FreshTrace.

(** ** A race with [login] *)

Definition race_product : jsval := JObject [("name", JString "mug")].

Definition race_ops : list (Api jsval) :=
  [createProduct race_product (JBlob []); login (JString "b@x.io") (JString "pw")].

(** [createProduct] sends its first request, [login] runs to its end,
    then the upload and the product request of [createProduct] go on. *)
Definition race_schedule : list choice :=
  let ok := Resolved (demo_response 200) in
  [Run 0; Run 1; Resolve 1 ok; Run 1; Run 1;
   Resolve 0 ok; Run 0; Run 0; Resolve 0 ok; Run 0; Run 0; Resolve 0 ok; Run 0].

Ltac unfold_requests :=
  unfold signed_url_request, upload_request, create_product_request, order_request,
    orders_request, top_products_request, search_request, delete_request,
    register_request, login_request.

Ltac fresh_auth_tac :=
  repeat (simpl; match goal with
    | |- context [match ?o with Resolved _ => _ | NetworkError => _ end] => destruct o
    | |- context [if rs_ok ?r then _ else _] => destruct (rs_ok r)
    | |- context [match rs_json ?r with Some _ => _ | None => _ end] => destruct (rs_json r)
    | |- context [match get_prop ?v ?k with Some _ => _ | None => _ end] => destruct (get_prop v k)
    | |- auth_from _ _ =>
        let h := fresh "h" in let Hh := fresh "Hh" in
        unfold auth_from, header_values; unfold_requests; simpl; intros h Hh;
        repeat destruct Hh as [<-|Hh]; [eauto | contradiction]
    | |- auth_from _ _ =>
        unfold auth_from, header_values; unfold_requests; simpl; intros ? []
    | |- fresh_auth _ (Fetch _ _) => apply fa_fetch; [|intros ?]
    | |- fresh_auth _ _ => constructor; try intros ?
    end).

(** ** The operations of api.js read their token in the part that sends *)

Section FreshOps.

Lemma fresh_auth_mono {A} (m : Api A) kn : fresh_auth None m -> fresh_auth kn m.
Proof.
  revert kn. induction m; intros kn Hm; inv Hm; constructor; auto.
  intros h Hh. match goal with Ha : auth_from None _ |- _ => destruct (Ha h Hh) as (? & ? & _) end.
  discriminate.
Qed.

Lemma fresh_auth_bind {A B} (m : Api A) (f : A -> Api B) kn :
  fresh_auth kn m -> (forall a, fresh_auth None (f a)) -> fresh_auth kn (bind m f).
Proof.
  intros Hm Hf. induction Hm; simpl; try constructor; auto using fresh_auth_mono.
Qed.

Lemma fresh_auth_catch {A} (m : Api A) (h : js_error -> Api A) kn :
  fresh_auth kn m -> (forall e, fresh_auth None (h e)) -> fresh_auth kn (catch m h).
Proof.
  intros Hm Hh. induction Hm; simpl; try constructor; auto using fresh_auth_mono.
Qed.

Lemma fresh_auth_await_call {A} (m : Api A) kn : fresh_auth None m -> fresh_auth kn (await_call m).
Proof.
  intros Hm. apply fresh_auth_mono. unfold await_call. apply fresh_auth_catch.
  - apply fresh_auth_bind; [exact Hm | repeat constructor].
  - repeat constructor.
Qed.

Lemma uploadImage_fresh img : fresh_auth None (uploadImage img).
Proof. unfold uploadImage, response_json, read_prop. fresh_auth_tac. Qed.

Lemma createProduct_fresh p img : fresh_auth None (createProduct p img).
Proof.
  unfold createProduct. apply fresh_auth_bind.
  - apply fresh_auth_await_call, uploadImage_fresh.
  - intros u. fresh_auth_tac.
Qed.

Lemma createOrder_fresh values : fresh_auth None (createOrder values).
Proof. unfold createOrder. fresh_auth_tac. Qed.

Lemma getOrders_fresh : fresh_auth None getOrders.
Proof. unfold getOrders, response_json. fresh_auth_tac. Qed.

Lemma getTopProducts_fresh : fresh_auth None getTopProducts.
Proof. unfold getTopProducts, response_json. fresh_auth_tac. Qed.

Lemma searchProducts_fresh name category minRange maxRange :
  fresh_auth None (searchProducts name category minRange maxRange).
Proof. unfold searchProducts, response_json. fresh_auth_tac. Qed.

Lemma deleteProduct_fresh productId : fresh_auth None (deleteProduct productId).
Proof. unfold deleteProduct. fresh_auth_tac. Qed.

Lemma register_fresh values : fresh_auth None (register values).
Proof. unfold register. fresh_auth_tac. Qed.

Lemma login_fresh email password : fresh_auth None (login email password).
Proof. unfold login, response_json, read_prop. fresh_auth_tac. Qed.

End FreshOps.

(** ** The session and the tokens of an interleaving *)

Section Invariants.
Context {S : Type} `{Session S}.
Variable w : cenv.
Variable s0 : S.

Lemma session_after_snoc tr ev :
  session_after s0 (tr ++ [ev]) =
  match ev with Act _ (EvLogIn t a) => log_in t a (session_after s0 tr) | _ => session_after s0 tr end.
Proof. unfold session_after. now rewrite fold_left_app. Qed.

Lemma segment_session {A} i (m : Api A) s tr :
  s = session_after s0 tr ->
  let '(_, s', tr') := segment w i m s tr in s' = session_after s0 tr'.
Proof.
  revert s tr. induction m as [a|e|k IH|t a k IH|rq k IH|k IH|k IH|v k IH|k IH];
    intros s tr Hs; simpl; rewrite ?session_after_snoc; try apply IH;
    rewrite ?session_after_snoc; congruence.
Qed.

Lemma cstep_session (c c' : config S) :
  sess c = session_after s0 (ctrace c) -> cstep w c c' -> sess c' = session_after s0 (ctrace c').
Proof.
  intros Hs Hstep. inversion Hstep as [c0 ch c1 Hx]; subst c0 c1. destruct ch as [i|i o]; simpl in Hx.
  - destruct (nth_error (tasks c) i) as [[m| |]|]; try discriminate.
    pose proof (segment_session i m _ _ Hs) as Hseg.
    destruct (segment w i m (sess c) (ctrace c)) as [[t s'] tr']. inv Hx; reflexivity.
  - destruct (nth_error (tasks c) i) as [[|rq k|]|]; try discriminate.
    inv Hx. simpl. now rewrite session_after_snoc.
Qed.

Lemma sends_fresh_snoc tr ev :
  sends_fresh s0 tr ->
  (forall i rq, ev = Send i rq -> forall h, In h (header_values "Authorization" rq) ->
                h = bearer (get_current_token (session_after s0 tr))) ->
  sends_fresh s0 (tr ++ [ev]).
Proof.
  intros Hf Hev pre i rq post E h Hh. symmetry in E.
  apply snoc_split in E as [(-> & <- & ->) | (post' & -> & ->)].
  - eapply Hev; eauto.
  - eapply Hf; eauto.
Qed.

Lemma sends_fresh_act tr i e : sends_fresh s0 tr -> sends_fresh s0 (tr ++ [Act i e]).
Proof. intros Hf. apply sends_fresh_snoc; [exact Hf | discriminate]. Qed.

Lemma segment_fresh {A} i (m : Api A) kn s tr :
  fresh_auth kn m -> (forall t, kn = Some t -> t = get_current_token s) ->
  s = session_after s0 tr -> sends_fresh s0 tr ->
  let '(t', _, tr') := segment w i m s tr in sends_fresh s0 tr' /\ task_fresh t'.
Proof.
  intros Hf. revert s tr.
  induction Hf as [kn a|kn e|kn k _ IH|kn t a k _ IH|kn rq k Hauth Hk' _|kn k _ IH|kn k _ IH
                  |kn v k _ IH|kn k Hk' _]; intros s tr Hkn Hs Hfr; simpl.
  - easy.
  - easy.
  - apply IH; [intros t' E; now inv E | now rewrite session_after_snoc | now apply sends_fresh_act].
  - apply IH; [discriminate | rewrite session_after_snoc; simpl; congruence | now apply sends_fresh_act].
  - split; [|exact Hk']. apply sends_fresh_snoc; [exact Hfr|].
    intros i' rq' E h Hh. inv E. destruct (Hauth h Hh) as (t & -> & ->).
    now rewrite (Hkn t eq_refl).
  - apply IH; [exact Hkn | now rewrite session_after_snoc | now apply sends_fresh_act].
  - apply IH; [exact Hkn | now rewrite session_after_snoc | now apply sends_fresh_act].
  - apply IH; [exact Hkn | now rewrite session_after_snoc | now apply sends_fresh_act].
  - split; [exact Hfr | exact Hk'].
Qed.

Lemma cstep_fresh (c c' : config S) :
  sess c = session_after s0 (ctrace c) -> sends_fresh s0 (ctrace c) -> Forall task_fresh (tasks c) ->
  cstep w c c' -> sends_fresh s0 (ctrace c') /\ Forall task_fresh (tasks c').
Proof.
  intros Hs Hfr Ht Hstep. inversion Hstep as [c0 ch c1 Hx]; subst c0 c1.
  destruct ch as [i|i o]; simpl in Hx.
  - destruct (nth_error (tasks c) i) as [[m| |]|] eqn:En; try discriminate.
    pose proof (segment_fresh i m None _ _ (Forall_nth_some _ _ _ _ Ht En)
                  ltac:(discriminate) Hs Hfr) as Hseg.
    destruct (segment w i m (sess c) (ctrace c)) as [[t s'] tr']. inv Hx.
    destruct Hseg as [Hf' Ht']. split; [exact Hf' | now apply Forall_set_nth].
  - destruct (nth_error (tasks c) i) as [[|rq k|]|] eqn:En; try discriminate. inv Hx.
    split; [now apply sends_fresh_act | apply Forall_set_nth; [exact Ht|]].
    exact (Forall_nth_some _ _ _ _ Ht En o).
Qed.

Lemma start_invariant ops :
  Forall (fresh_auth None) ops ->
  sess (start ops s0) = session_after s0 (ctrace (start ops s0)) /\
  sends_fresh s0 (ctrace (start ops s0)) /\
  Forall task_fresh (tasks (start ops s0)).
Proof.
  intros Hops. split; [reflexivity|]. split.
  - intros [|] ? ? ? E; simpl in E; discriminate.
  - simpl. induction Hops; simpl; auto.
Qed.

(** C2: the invariant of spec section 3 under interleaving.  If each
    of the operations started builds its [Authorization] headers from a
    token read in the same synchronous part ([fresh_auth]), then in every
    interleaving every request sent carries only the header [Bearer t]
    for the token [t] the session holds at the moment it is sent, never a
    token read before an [await]. *)
Theorem concurrent_sends_use_current_token ops (c : config S) :
  Forall (fresh_auth None) ops -> star (cstep w) (start ops s0) c ->
  sends_fresh s0 (ctrace c).
Proof.
  intros Hops Hr. destruct (start_invariant ops Hops) as (Hs & Hf & Ht).
  remember (start ops s0) as c0 eqn:E. clear E.
  induction Hr as [c|c b c' Hstep _ IH]; [exact Hf|].
  destruct (cstep_fresh c b Hs Hf Ht Hstep). apply IH; auto. eapply cstep_session; eauto.
Qed.

End Invariants.

Section FreshOpsClaim.

(** C3: every operation of api.js builds its [Authorization] header
    from a token it reads in the synchronous part that sends the request
    (for [createProduct]: after the upload has settled), and sends no such
    header otherwise. *)
Theorem api_operations_fresh_auth p img values productId email password
    name category minRange maxRange :
  fresh_auth None (createProduct p img) /\ fresh_auth None (createOrder values) /\
  fresh_auth None getOrders /\ fresh_auth None getTopProducts /\
  fresh_auth None (deleteProduct productId) /\ fresh_auth None (register values) /\
  fresh_auth None (login email password) /\ fresh_auth None (uploadImage img) /\
  fresh_auth None (searchProducts name category minRange maxRange).
Proof.
  split; [apply createProduct_fresh|]. split; [apply createOrder_fresh|].
  split; [apply getOrders_fresh|]. split; [apply getTopProducts_fresh|].
  split; [apply deleteProduct_fresh|]. split; [apply register_fresh|].
  split; [apply login_fresh|]. split; [apply uploadImage_fresh|].
  apply searchProducts_fresh.
Qed.

End FreshOpsClaim.

(** ** Witnesses *)

Lemma concurrent_sends_use_current_token_witness :
  exists c, exec_sched (cenv_of (demo_env 200)) (start race_ops demo_session) race_schedule = Some c /\
            sends_fresh demo_session (ctrace c).
Proof.
  destruct (exec_sched (cenv_of (demo_env 200)) (start race_ops demo_session) race_schedule)
    as [c|] eqn:E.
  - exists c. split; [reflexivity|].
    apply (concurrent_sends_use_current_token (cenv_of (demo_env 200)) demo_session race_ops c).
    + apply Forall_cons; [apply createProduct_fresh|].
      apply Forall_cons; [apply login_fresh | apply Forall_nil].
    + exact (exec_sched_star _ _ _ _ E).
  - vm_compute in E. discriminate.
Defined.

End Interleaving.
